(** * SpreadsheetLLM compression: a shallow embedding of the three demos

    The development follows the three Python modules of the repository:
    - [inverted_index_demo.py]      : [create_cell_address], [merge_cell_ranges],
                                      [invert_index_with_ranges];
    - [structural_anchors_demo.py]  : [extract_structural_skeleton] and its two
                                      nested similarity predicates;
    - [data_format_aggregation_demo.py] : [recognize_data_type] and the [type]
                                      field written by [aggregate_by_data_format].

    Conventions of the embedding.
    - A Python [str] is a [string]; a character is a code point below 256
      (Latin-1), so the two currency signs above that range cannot occur in a
      modelled string.  On this alphabet [\d] is [0-9], the white space of
      [str.strip] and [\s] is 9-13, 28-31, 32, 133 and 160, and the white space
      that [int] accepts around a literal is 9-13, 32, 133 and 160.
    - A Python [int] is a [Z].
    - A cell of a [DataFrame] is an [option string]: [None] is a missing value
      ([NaN]/[None], what [pd.isna] detects), [Some s] a value whose [str] is [s].
    - Exceptions are explicit: a computation returns [Ok v] or [Raise e]. *)

From Stdlib Require Import ZArith QArith Ascii String DecimalString DecimalPos DecimalZ Lia.
From stdpp Require Import base tactics option list sorting gmap sets strings.

Local Open Scope Z_scope.
Local Open Scope string_scope.

(** ** Exceptions *)

Inductive exn := ValueError | IndexError | ZeroDivisionError | TypeError.

Inductive result (A : Type) : Type :=
| Ok (a : A)
| Raise (e : exn).
Arguments Ok {A} a.
Arguments Raise {A} e.

(** Sequencing: [x ← m; k] runs [m] and stops at the first exception. *)
Global Instance result_ret : MRet result := fun A a => Ok a.
Global Instance result_bind : MBind result := fun A B k m =>
  match m with
  | Ok a => k a
  | Raise e => Raise e
  end.

(** A [for] loop whose body may raise. *)
Fixpoint foldM {A S} (f : S -> A -> result S) (l : list A) (s : S) : result S :=
  match l with
  | [] => Ok s
  | x :: l' => s' ← f s x; foldM f l' s'
  end.

(** A list built by a loop of [append]s whose element computation may raise. *)
Fixpoint mapM_r {A B} (f : A -> result B) (l : list A) : result (list B) :=
  match l with
  | [] => Ok []
  | x :: l' => y ← f x; ys ← mapM_r f l'; Ok (y :: ys)
  end.

(** ** Python primitives on strings and integers *)

Module Py.

(** [range(a, b)] *)
Definition range (a b : Z) : list Z :=
  map (fun i => a + Z.of_nat i) (seq 0 (Z.to_nat (b - a))).

(** [len(l)] *)
Definition len {A} (l : list A) : Z := Z.of_nat (length l).

(** [ord(c)] *)
Definition code (c : ascii) : N := N_of_ascii c.

(** [c.isspace()] on code points below 256 *)
Definition isspace (c : ascii) : bool :=
  let n := code c in
  (((9 <=? n) && (n <=? 13)) || ((28 <=? n) && (n <=? 32))
   || (n =? 133) || (n =? 160))%N.

(** [c.isdigit()] restricted to decimal digits, the only ones below 256 *)
Definition isdigit (c : ascii) : bool :=
  let n := code c in ((48 <=? n) && (n <=? 57))%N.

(** The white space that [int] skips around a literal: of the characters
    below 128 only 9-13 and 32 (not 28-31), and the two above. *)
Definition isspace_int (c : ascii) : bool :=
  let n := code c in
  (((9 <=? n) && (n <=? 13)) || (n =? 32) || (n =? 133) || (n =? 160))%N.

(** Removal of the leading, of the trailing, and of both runs of the
    characters that [space] accepts. *)
Fixpoint lstrip_with (space : ascii -> bool) (s : string) : string :=
  match s with
  | EmptyString => EmptyString
  | String c s' => if space c then lstrip_with space s' else s
  end.

Fixpoint rstrip_with (space : ascii -> bool) (s : string) : string :=
  match s with
  | EmptyString => EmptyString
  | String c s' =>
      match rstrip_with space s' with
      | EmptyString => if space c then EmptyString else String c EmptyString
      | t => String c t
      end
  end.

Definition strip_with (space : ascii -> bool) (s : string) : string :=
  rstrip_with space (lstrip_with space s).

(** [s.strip()] *)
Definition strip (s : string) : string := strip_with isspace s.

(** [s[1:]] *)
Definition tail (s : string) : string :=
  match s with
  | EmptyString => EmptyString
  | String _ s' => s'
  end.

(** [s[0]], which raises [IndexError] on the empty string *)
Definition head (s : string) : result ascii :=
  match s with
  | EmptyString => Raise IndexError
  | String c _ => Ok c
  end.

(** The digits of an integer literal: single underscores are allowed between
    digits and nowhere else; the result is the literal without them. *)
Fixpoint literal_digits (after_digit : bool) (s : string) : option string :=
  match s with
  | EmptyString => if after_digit then Some EmptyString else None
  | String c s' =>
      if isdigit c then option_map (String c) (literal_digits true s')
      else if Ascii.eqb c "_" then
             if after_digit then literal_digits false s' else None
      else None
  end.

(** [int(s)] for a string [s]: surrounding white space, an optional sign and a
    decimal literal, in which leading zeros and single underscores between
    digits are allowed; anything else raises [ValueError]. *)
Definition int (s : string) : result Z :=
  let t := strip_with isspace_int s in
  let '(negative, body) :=
    match t with
    | String "-" r => (true, r)
    | String "+" r => (false, r)
    | _ => (false, t)
    end in
  match literal_digits false body with
  | None => Raise ValueError
  | Some ds =>
      match NilZero.uint_of_string ds with
      | None => Raise ValueError
      | Some d => Ok (if negative then - Z.of_uint d else Z.of_uint d)
      end
  end.

(** [str(n)] for an integer [n] *)
Definition str (n : Z) : string := NilZero.string_of_int (Z.to_int n).

(** Truth value of an optional string, as tested by [if x:] *)
Definition truthy (x : option string) : bool :=
  match x with
  | None | Some EmptyString => false
  | Some _ => true
  end.

End Py.

(** ** The DataFrame

    [columns] are the column labels (their [str]), [values] the rows.  The
    shape is [(len values, len columns)]; a cell that a short row does not
    store reads as missing, as in a frame built from ragged rows. *)

Definition cell := option string.

Record DataFrame := {
  columns : list string;
  values : list (list cell)
}.

Definition shape0 (df : DataFrame) : Z := Py.len (values df).
Definition shape1 (df : DataFrame) : Z := Py.len (columns df).

(** [df.iat[r, c]] for [0 <= r < shape0] and [0 <= c < shape1] *)
Definition iat (df : DataFrame) (r c : Z) : cell :=
  nth (Z.to_nat c) (nth (Z.to_nat r) (values df) []) None.

(** [df.columns[c]] *)
Definition column_label (df : DataFrame) (c : Z) : string :=
  nth (Z.to_nat c) (columns df) "".

(** [pd.notna(val) and str(val).strip() != ''] *)
Definition nonempty_cell (v : cell) : bool :=
  match v with
  | None => false
  | Some s => negb (String.eqb (Py.strip s) "")
  end.

(** * inverted_index_demo.py *)

(** [create_cell_address(row, col, df)]: [f'{df.columns[col]}{row + 1}'] *)
Definition create_cell_address (row col : Z) (df : DataFrame) : string :=
  column_label df col ++ Py.str (row + 1).

(** One iteration of the parsing loop of [merge_cell_ranges]. *)
Definition parse_address (addr : string) : result (ascii * Z * string) :=
  col ← Py.head addr;
  row ← Py.int (Py.tail addr);
  Ok (col, row, addr).

(** Python's ordering of the [(col, row, addr)] tuples. *)
Definition tuple_leb (x y : ascii * Z * string) : bool :=
  let '(c1, r1, a1) := x in
  let '(c2, r2, a2) := y in
  match Ascii.compare c1 c2 with
  | Lt => true
  | Gt => false
  | Eq => match Z.compare r1 r2 with
          | Lt => true
          | Gt => false
          | Eq => String.leb a1 a2
          end
  end.

(** The same ordering as a relation. *)
Definition tuple_le (x y : ascii * Z * string) : Prop := tuple_leb x y.

(** [parsed.sort()] *)
Definition sort_parsed (parsed : list (ascii * Z * string))
  : list (ascii * Z * string) :=
  merge_sort tuple_le parsed.

(** The local variables of the sweep. *)
Record sweep := {
  ranges : list string;
  current_range_start : option string;
  current_range_end : option string;
  current_col : option ascii
}.

(** Their values before the first iteration. *)
Definition sweep_init : sweep :=
  {| ranges := []; current_range_start := None;
     current_range_end := None; current_col := None |}.

(** The range under construction, as it is appended to [ranges]: the start
    alone when start and end are equal, [f"{start}:{end}"] otherwise. *)
Definition render_range (s : string) (e : option string) : string :=
  match e with
  | Some e' => if String.eqb s e' then s else s ++ ":" ++ e'
  | None => s ++ ":None"
  end.

(** [if current_range_start: ranges.append(...)] *)
Definition flush (st : sweep) : list string :=
  match current_range_start st with
  | Some s =>
      if Py.truthy (Some s)
      then ranges st ++ [render_range s (current_range_end st)]
      else ranges st
  | None => ranges st
  end.

(** The body of [for col, row, addr in parsed].  The [else] branch is entered
    only after [current_col] was assigned, together with the start and the end
    of the current range; were they still [None] there, subscripting the end
    would raise [TypeError]. *)
Definition sweep_step (st : sweep) (t : ascii * Z * string) : result sweep :=
  let '(col, row, addr) := t in
  if negb (bool_decide (current_col st = Some col)) then
    Ok {| ranges := flush st;
          current_range_start := Some addr;
          current_range_end := Some addr;
          current_col := Some col |}
  else
    match current_range_start st, current_range_end st with
    | Some s, Some e =>
        prev_row ← Py.int (Py.tail e);
        if (row =? prev_row + 1)%Z then
          Ok {| ranges := ranges st;
                current_range_start := Some s;
                current_range_end := Some addr;
                current_col := current_col st |}
        else
          Ok {| ranges := ranges st ++ [render_range s (Some e)];
                current_range_start := Some addr;
                current_range_end := Some addr;
                current_col := current_col st |}
    | _, _ => Raise TypeError
    end.

(** [merge_cell_ranges(addresses)] *)
Definition merge_cell_ranges (addresses : list string) : result string :=
  match addresses with
  | [] => Ok ""
  | _ =>
      parsed ← mapM_r parse_address addresses;
      st ← foldM sweep_step (sort_parsed parsed) sweep_init;
      Ok (String.concat "," (flush st))
  end.

(** A Python [dict] with string keys, in insertion order. *)
Definition dict (V : Type) := list (string * V).

Fixpoint dict_get {V} (k : string) (d : dict V) : option V :=
  match d with
  | [] => None
  | (k', v) :: d' => if String.eqb k k' then Some v else dict_get k d'
  end.

(** [d[k] = v] *)
Fixpoint dict_set {V} (k : string) (v : V) (d : dict V) : dict V :=
  match d with
  | [] => [(k, v)]
  | (k', v') :: d' =>
      if String.eqb k k' then (k, v) :: d' else (k', v') :: dict_set k v d'
  end.

(** [d[k].append(x)] on a [defaultdict(list)] *)
Definition dict_append {A} (k : string) (x : A) (d : dict (list A)) : dict (list A) :=
  dict_set k (default [] (dict_get k d) ++ [x])%list d.

(** [itertools.product(range(n), range(m))] *)
Definition product_range (n m : Z) : list (Z * Z) :=
  r ← Py.range 0 n; c ← Py.range 0 m; [(r, c)].

(** The body of the first loop of [invert_index_with_ranges]. *)
Definition index_step (df : DataFrame) (index : dict (list string)) (rc : Z * Z)
  : dict (list string) :=
  let '(r, c) := rc in
  match iat df r c with
  | Some val =>
      if nonempty_cell (Some val)
      then dict_append val (create_cell_address r c df) index
      else index
  | None => index
  end.

(** The [defaultdict] after the first loop. *)
Definition build_index (df : DataFrame) : dict (list string) :=
  fold_left (index_step df) (product_range (shape0 df) (shape1 df)) [].

(** [invert_index_with_ranges(df)] *)
Definition invert_index_with_ranges (df : DataFrame) : result (dict string) :=
  foldM (fun res '(val, addrs) =>
           merged ← merge_cell_ranges addrs; Ok (dict_set val merged res))
        (build_index df) [].

(** * structural_anchors_demo.py *)

(** [.fillna('').astype(str)] on one value *)
Definition fillna_str (v : cell) : string := default "" v.

(** [df.iloc[i].fillna('').astype(str)] *)
Definition iloc_row (df : DataFrame) (i : Z) : list string :=
  map (fun c => fillna_str (iat df i c)) (Py.range 0 (shape1 df)).

(** [df.iloc[:, j].fillna('').astype(str)] *)
Definition iloc_col (df : DataFrame) (j : Z) : list string :=
  map (fun r => fillna_str (iat df r j)) (Py.range 0 (shape0 df)).

(** [sum(1 for a, b in zip(l1, l2) if a == b)] *)
Definition count_matches (l1 l2 : list string) : Z :=
  Py.len (filter (fun ab => ab.1 = ab.2) (zip l1 l2)).

(** [matches / len(l1) >= similarity_threshold], with the default threshold
    [0.8].  The quotient is taken in the rationals: a correctly rounded
    division and the double nearest to [0.8] order [matches / len] and [4/5]
    the same way as the exact values do, for every length below [10^16]. *)
Definition similarity_threshold : Q := 8 # 10.

Definition lines_are_similar (l1 l2 : list string) : result bool :=
  let matches := count_matches l1 l2 in
  if (Py.len l1 =? 0)%Z then Raise ZeroDivisionError
  else
    let similarity := matches # Z.to_pos (Py.len l1) in
    Ok (Qle_bool similarity_threshold similarity).

Definition rows_are_similar (df : DataFrame) (row1_idx row2_idx : Z) : result bool :=
  lines_are_similar (iloc_row df row1_idx) (iloc_row df row2_idx).

Definition cols_are_similar (df : DataFrame) (col1_idx col2_idx : Z) : result bool :=
  lines_are_similar (iloc_col df col1_idx) (iloc_col df col2_idx).

(** The value of [is_boundary] at the end of the body of the row loop. *)
Definition row_is_boundary (df : DataFrame) (i : Z) : result bool :=
  if (i =? 0)%Z || (i =? shape0 df - 1)%Z then Ok true
  else
    prev_similar ← rows_are_similar df (i - 1) i;
    next_similar ← (if (i + 1 <? shape0 df)%Z
                    then rows_are_similar df i (i + 1) else Ok false);
    Ok (negb prev_similar && negb next_similar).

(** The value of [is_boundary] at the end of the body of the column loop. *)
Definition col_is_boundary (df : DataFrame) (j : Z) : result bool :=
  if (j =? 0)%Z || (j =? shape1 df - 1)%Z then Ok true
  else
    prev_similar ← cols_are_similar df (j - 1) j;
    next_similar ← (if (j + 1 <? shape1 df)%Z
                    then cols_are_similar df j (j + 1) else Ok false);
    Ok (negb prev_similar || negb next_similar).

(** A loop [for i in range(n): if is_boundary: anchors.add(i)] *)
Definition collect_anchors (is_boundary : Z -> result bool) (n : Z)
  : result (gset Z) :=
  foldM (fun anchors i =>
           b ← is_boundary i; Ok (if b : bool then {[ i ]} ∪ anchors else anchors))
        (Py.range 0 n) ∅.

Definition row_anchors (df : DataFrame) : result (gset Z) :=
  collect_anchors (row_is_boundary df) (shape0 df).

Definition col_anchors (df : DataFrame) : result (gset Z) :=
  collect_anchors (col_is_boundary df) (shape1 df).

(** [for r in anchors: to_keep.update(range(max(0, r - k), min(n, r + k + 1)))] *)
Definition expand_anchors (anchors : gset Z) (n k : Z) : gset Z :=
  set_fold (fun r to_keep =>
              to_keep ∪ list_to_set (Py.range (Z.max 0 (r - k)) (Z.min n (r + k + 1))))
           ∅ anchors.

(** [rows_to_keep] and [cols_to_keep] *)
Definition skeleton_indices (df : DataFrame) (k : Z) : result (gset Z * gset Z) :=
  ra ← row_anchors df;
  ca ← col_anchors df;
  Ok (expand_anchors ra (shape0 df) k, expand_anchors ca (shape1 df) k).

(** [sorted(s)] for a set of integers *)
Definition sorted (s : gset Z) : list Z := merge_sort Z.le (elements s).

(** A position of [iloc]: negative positions count from the end, positions
    outside the axis raise [IndexError]. *)
Definition positional (n i : Z) : result Z :=
  if (0 <=? i)%Z && (i <? n)%Z then Ok i
  else if (- n <=? i)%Z && (i <? 0)%Z then Ok (n + i)
  else Raise IndexError.

(** [df.iloc[rows, cols]] for two lists of positions *)
Definition iloc (df : DataFrame) (rows cols : list Z) : result DataFrame :=
  rs ← mapM_r (positional (shape0 df)) rows;
  cs ← mapM_r (positional (shape1 df)) cols;
  Ok {| columns := map (column_label df) cs;
        values := map (fun r => map (fun c => iat df r c) cs) rs |}.

(** [extract_structural_skeleton(df, k)] *)
Definition extract_structural_skeleton (df : DataFrame) (k : Z) : result DataFrame :=
  keep ← skeleton_indices df k;
  iloc df (sorted keep.1) (sorted keep.2).

(** * data_format_aggregation_demo.py *)

(** ** Regular expressions

    The patterns of the recognizer use no group reference and no look-around,
    and each is anchored at both ends, so [re.match] succeeds exactly when the
    string belongs to the language of the pattern.  Membership is decided with
    derivatives. *)

Module Re.

Inductive regex :=
| Void
| Eps
| Chr (p : ascii -> bool)
| Cat (r1 r2 : regex)
| Alt (r1 r2 : regex)
| Star (r : regex).

Fixpoint nullable (r : regex) : bool :=
  match r with
  | Void => false
  | Eps => true
  | Chr _ => false
  | Cat r1 r2 => nullable r1 && nullable r2
  | Alt r1 r2 => nullable r1 || nullable r2
  | Star _ => true
  end.

Fixpoint deriv (c : ascii) (r : regex) : regex :=
  match r with
  | Void => Void
  | Eps => Void
  | Chr p => if p c then Eps else Void
  | Cat r1 r2 =>
      if nullable r1
      then Alt (Cat (deriv c r1) r2) (deriv c r2)
      else Cat (deriv c r1) r2
  | Alt r1 r2 => Alt (deriv c r1) (deriv c r2)
  | Star r' => Cat (deriv c r') (Star r')
  end.

Fixpoint accepts (r : regex) (s : string) : bool :=
  match s with
  | EmptyString => nullable r
  | String c s' => accepts (deriv c r) s'
  end.

(** The language of a pattern, as a reference for [accepts]. *)
Inductive lang : regex -> string -> Prop :=
| lang_eps : lang Eps EmptyString
| lang_chr p c : p c = true -> lang (Chr p) (String c EmptyString)
| lang_cat r1 r2 s1 s2 : lang r1 s1 -> lang r2 s2 -> lang (Cat r1 r2) (s1 ++ s2)
| lang_alt_l r1 r2 s : lang r1 s -> lang (Alt r1 r2) s
| lang_alt_r r1 r2 s : lang r2 s -> lang (Alt r1 r2) s
| lang_star_nil r : lang (Star r) EmptyString
| lang_star_cons r s1 s2 : lang r s1 -> lang (Star r) s2 -> lang (Star r) (s1 ++ s2).

(** [r?], [r+], [r{n}], [r{lo,hi}], [r{n,}] and a sequence of patterns *)
Definition opt (r : regex) : regex := Alt Eps r.
Definition plus (r : regex) : regex := Cat r (Star r).

Fixpoint rep (n : nat) (r : regex) : regex :=
  match n with
  | O => Eps
  | S n' => Cat r (rep n' r)
  end.

Fixpoint rep_upto (n : nat) (r : regex) : regex :=
  match n with
  | O => Eps
  | S n' => opt (Cat r (rep_upto n' r))
  end.

Definition rep_range (lo hi : nat) (r : regex) : regex :=
  Cat (rep lo r) (rep_upto (hi - lo) r).

Definition rep_min (n : nat) (r : regex) : regex := Cat (rep n r) (Star r).

Definition cat (rs : list regex) : regex := foldr Cat Eps rs.

(** Character classes *)
Definition chr (a : ascii) : regex := Chr (Ascii.eqb a).

Definition between (lo hi c : ascii) : bool :=
  ((Py.code lo <=? Py.code c) && (Py.code c <=? Py.code hi))%N.

Definition one_of (members : list ascii) (c : ascii) : bool :=
  existsb (Ascii.eqb c) members.

(** [\d] and [\s] *)
Definition digit : regex := Chr Py.isdigit.
Definition space : regex := Chr Py.isspace.

(** A letter under [re.IGNORECASE] *)
Definition chr_ignorecase (lower upper : ascii) : regex :=
  Chr (one_of [lower; upper]).

(** [re.match(pattern, s)] for a pattern of the form [^r$]: [$] matches at the
    end of the string and also just before a newline that ends it. *)
Definition matches (r : regex) (s : string) : bool :=
  accepts (Cat r (opt (chr "010"))) s.

End Re.

Import Re.

(** [^(19|20|21)\d{2}$] *)
Definition year_pattern : regex :=
  cat [Alt (cat [chr "1"; chr "9"])
           (Alt (cat [chr "2"; chr "0"]) (cat [chr "2"; chr "1"]));
       rep 2 digit].

(** [^[a-zA-Z0-9._%+-]+@[a-zA-Z0-9.-]+\.[a-zA-Z]{2,}$] *)
Definition alnum (c : ascii) : bool :=
  between "a" "z" c || between "A" "Z" c || between "0" "9" c.
Definition letter (c : ascii) : bool :=
  between "a" "z" c || between "A" "Z" c.

Definition email_pattern : regex :=
  cat [plus (Chr (fun c => alnum c || one_of ["."; "_"; "%"; "+"; "-"] c)%char);
       chr "@";
       plus (Chr (fun c => alnum c || one_of ["."; "-"] c)%char);
       chr ".";
       rep_min 2 (Chr letter)].

(** [^-?\d+\.?\d*%$] *)
Definition percentage_pattern : regex :=
  cat [opt (chr "-"); plus digit; opt (chr "."); Star digit; chr "%"].

(** [^[\$£€¥₹]\s*-?\d{1,3}(,\d{3})*(\.\d{2})?$]: of the five signs of the
    class, the dollar, the pound (163) and the yen (165) are code points below
    256. *)
Definition currency_sign (c : ascii) : bool :=
  one_of ["$"; "163"; "165"]%char c.

Definition currency_pattern : regex :=
  cat [Chr currency_sign; Star space; opt (chr "-"); rep_range 1 3 digit;
       Star (cat [chr ","; rep 3 digit]);
       opt (cat [chr "."; rep 2 digit])].

(** [^-?\d+\.?\d*[eE][+-]?\d+$] *)
Definition scientific_pattern : regex :=
  cat [opt (chr "-"); plus digit; opt (chr "."); Star digit;
       Chr (one_of ["e"; "E"]%char); opt (Chr (one_of ["+"; "-"]%char));
       plus digit].

(** The three date patterns, in the order of [date_patterns]. *)
Definition date_sep : regex := Chr (one_of ["-"; "/"]%char).

Definition date_patterns : list regex :=
  [ cat [rep 4 digit; date_sep; rep_range 1 2 digit; date_sep; rep_range 1 2 digit];
    cat [rep_range 1 2 digit; date_sep; rep_range 1 2 digit; date_sep; rep 4 digit];
    cat [rep_range 1 2 digit; date_sep; rep_range 1 2 digit; date_sep; rep 2 digit] ].

(** [^\d{1,2}:\d{2}(:\d{2})?(\s*(AM|PM))?$] with [re.IGNORECASE] *)
Definition time_pattern : regex :=
  cat [rep_range 1 2 digit; chr ":"; rep 2 digit;
       opt (cat [chr ":"; rep 2 digit]);
       opt (cat [Star space;
                 Alt (cat [chr_ignorecase "a" "A"; chr_ignorecase "m" "M"])
                     (cat [chr_ignorecase "p" "P"; chr_ignorecase "m" "M"])])].

(** [^-?\d+\.\d+$] *)
Definition float_pattern : regex :=
  cat [opt (chr "-"); plus digit; chr "."; plus digit].

(** [^-?\d+$] *)
Definition integer_pattern : regex :=
  cat [opt (chr "-"); plus digit].

(** [recognize_data_type(value)] *)
Definition recognize_data_type (value : cell) : string :=
  match value with
  | None => "Empty"
  | Some s =>
      if String.eqb (Py.strip s) "" then "Empty"
      else
        let value_str := Py.strip s in
        if matches year_pattern value_str then "Year"
        else if matches email_pattern value_str then "Email"
        else if matches percentage_pattern value_str then "Percentage"
        else if matches currency_pattern value_str then "Currency"
        else if matches scientific_pattern value_str then "ScientificNotation"
        else if existsb (fun pattern => matches pattern value_str) date_patterns
             then "Date"
        else if matches time_pattern value_str then "Time"
        else if matches float_pattern value_str then "Float"
        else if matches integer_pattern value_str then "Integer"
        else "Others"
  end.

(** The dictionaries appended to the groups of [aggregate_by_data_format]. *)
Record group_entry := {
  address : string;
  value : cell;
  type : string
}.

Definition well_defined_formats : list string :=
  ["Year"; "Integer"; "Float"; "Percentage"; "ScientificNotation";
   "Date"; "Time"; "Currency"; "Email"; "Empty"].

Definition quote : string := String (ascii_of_nat 34) EmptyString.

(** The key and the entry that one cell contributes: a well-defined format is
    grouped under its name, any other value under its quoted text with the
    type [Text].  ([str(value)] is only taken of a value that is not missing.) *)
Definition classify_cell (cell_addr : string) (value : cell)
  : string * group_entry :=
  let data_type := recognize_data_type value in
  if bool_decide (data_type ∈ well_defined_formats) then
    (data_type,
     {| address := cell_addr; value := value; type := data_type |})
  else
    (quote ++ default "nan" value ++ quote,
     {| address := cell_addr; value := value; type := "Text" |}).

(** The category of a value: the [type] of the entry recorded for a cell that
    holds it (the address plays no role). *)
Definition classify (value : cell) : string :=
  type (classify_cell EmptyString value).2.

(** [aggregate_by_data_format(df)] *)
Definition aggregate_by_data_format (df : DataFrame) : dict (list group_entry) :=
  fold_left
    (fun rule_groups '(i, j) =>
       let '(key, entry) :=
         classify_cell (create_cell_address i j df) (iat df i j) in
       dict_append key entry rule_groups)
    (product_range (shape0 df) (shape1 df)) [].

(** * Notions used to state the properties *)

(** ** Coordinates and addresses *)

(** A display coordinate: the character that labels the column and the
    1-based row number. *)
Definition coord : Type := ascii * Z.

(** The address of a coordinate, as [create_cell_address] writes it for a
    column labelled by one character. *)
Definition address_of (p : coord) : string := String p.1 (Py.str p.2).

(** The tuple that the parsing loop builds for the address of a coordinate. *)
Definition tuple_of (p : coord) : ascii * Z * string := (p.1, p.2, address_of p).

Definition coord_of (t : ascii * Z * string) : coord := (t.1.1, t.1.2).

Fixpoint str_forall (P : ascii -> bool) (s : string) : bool :=
  match s with
  | EmptyString => true
  | String c s' => P c && str_forall P s'
  end.

(** ** Runs of the sorted sweep *)

(** [u] continues the run that ends at [t]: same column, next row. *)
Definition continues (t u : ascii * Z * string) : bool :=
  bool_decide (t.1.1 = u.1.1) && (u.1.2 =? t.1.2 + 1)%Z.

(** The runs of a list of tuples: an element joins the run of its successor
    (the first element of the first run of the rest) exactly when the
    successor continues it. *)
Fixpoint runs (l : list (ascii * Z * string)) : list (list (ascii * Z * string)) :=
  match l with
  | [] => []
  | t :: l' =>
      match runs l' with
      | (u :: run) :: rs =>
          if continues t u then (t :: u :: run) :: rs else [t] :: (u :: run) :: rs
      | _ => [[t]]
      end
  end.

(** Every two neighbours of a run continue each other. *)
Fixpoint is_run (run : list (ascii * Z * string)) : bool :=
  match run with
  | t :: ((u :: _) as run') => continues t u && is_run run'
  | _ => true
  end.

(** No run can be extended by the first element of the next one. *)
Fixpoint maximal_runs (rs : list (list (ascii * Z * string))) : bool :=
  match rs with
  | r1 :: ((r2 :: _) as rs') =>
      match last r1, head r2 with
      | Some t, Some u => negb (continues t u) && maximal_runs rs'
      | _, _ => false
      end
  | _ => true
  end.

(** A run of one address is written as that address, a longer one as
    [first:last]. *)
Definition show_run (run : list (ascii * Z * string)) : string :=
  match run with
  | [] => ""
  | [t] => t.2
  | t :: run' => t.2 ++ ":" ++ (default t (last run')).2
  end.

(** ** Reading an index entry back *)

Fixpoint take_digits (s : string) : string * string :=
  match s with
  | EmptyString => (EmptyString, EmptyString)
  | String c s' =>
      if Py.isdigit c
      then let '(ds, rest) := take_digits s' in (String c ds, rest)
      else (EmptyString, s)
  end.

(** An address at the front of a string: the column character, then the
    longest run of digits. *)
Definition read_address (s : string) : option (coord * string) :=
  match s with
  | EmptyString => None
  | String col s' =>
      let '(ds, rest) := take_digits s' in
      match NilZero.uint_of_string ds with
      | Some d => Some ((col, Z.of_uint d), rest)
      | None => None
      end
  end.

(** The coordinates of rows [lo .. hi] of one column. *)
Definition column_span (col : ascii) (lo hi : Z) : list coord :=
  map (pair col) (Py.range lo (hi + 1)).

(** Expanding the descriptors of a comma-separated entry, one per unit of
    fuel. *)
Fixpoint expand (fuel : nat) (s : string) : option (list coord) :=
  match fuel with
  | O => None
  | S fuel' =>
      match read_address s with
      | None => None
      | Some (start, rest) =>
          match rest with
          | EmptyString => Some [start]
          | String "," more => cons start <$> expand fuel' more
          | String ":" more =>
              match read_address more with
              | None => None
              | Some (stop, rest') =>
                  if bool_decide (start.1 = stop.1) then
                    let cells := column_span start.1 start.2 stop.2 in
                    match rest' with
                    | EmptyString => Some cells
                    | String "," more' => app cells <$> expand fuel' more'
                    | _ => None
                    end
                  else None
              end
          | _ => None
          end
      end
  end.

(** The coordinates that an entry of the inverted index covers, in the order
    of its descriptors. *)
Definition expand_ranges (s : string) : option (list coord) :=
  match s with
  | EmptyString => Some []
  | _ => expand (String.length s) s
  end.

(** ** Losslessness of an inverted index *)

(** The grid cell displayed at coordinate [(col, row)] is non-empty and holds
    the value [v]. *)
Definition holds (df : DataFrame) (v : string) (p : coord) : Prop :=
  exists r c : Z,
    (0 <= r < shape0 df)%Z /\ (0 <= c < shape1 df)%Z /\
    column_label df c = String p.1 EmptyString /\ p.2 = (r + 1)%Z /\
    iat df r c = Some v /\ nonempty_cell (Some v) = true.

(** The inverted index of [df] exists and (1) every entry expands to
    coordinates, each once, of non-empty cells that hold the entry's value,
    and to at least one; (2) every non-empty cell is covered by the entry of
    its value; (3) the entries of two different values share no coordinate. *)
Definition lossless (df : DataFrame) : Prop :=
  exists index,
    invert_index_with_ranges df = Ok index /\
    (forall v s, dict_get v index = Some s ->
       exists cs, expand_ranges s = Some cs /\ NoDup cs /\ cs <> [] /\
                  forall p, p ∈ cs -> holds df v p) /\
    (forall (r c : Z) v,
       (0 <= r < shape0 df)%Z -> (0 <= c < shape1 df)%Z ->
       iat df r c = Some v -> nonempty_cell (Some v) = true ->
       exists s cs col,
         column_label df c = String col EmptyString /\
         dict_get v index = Some s /\ expand_ranges s = Some cs /\
         (col, r + 1)%Z ∈ cs) /\
    (forall v1 v2 s1 s2 cs1 cs2,
       v1 <> v2 ->
       dict_get v1 index = Some s1 -> dict_get v2 index = Some s2 ->
       expand_ranges s1 = Some cs1 -> expand_ranges s2 = Some cs2 ->
       forall p, p ∈ cs1 -> p ∉ cs2).

(** The assumption of [merge_cell_ranges]: every column is labelled by a
    single character, and no two columns by the same one. *)
Definition single_letter_columns (df : DataFrame) : Prop :=
  NoDup (columns df) /\ Forall (fun label => String.length label = 1%nat) (columns df).

(** ** The anchor rules, for a given normalisation of cell values *)

Definition row_cells (df : DataFrame) (i : Z) : list cell :=
  map (fun c => iat df i c) (Py.range 0 (shape1 df)).

Definition col_cells (df : DataFrame) (j : Z) : list cell :=
  map (fun r => iat df r j) (Py.range 0 (shape0 df)).

(** The number of positions at which two lines carry equal normalised
    values. *)
Fixpoint equal_positions (norm : cell -> string) (l1 l2 : list cell) : Z :=
  match l1, l2 with
  | a :: l1', b :: l2' =>
      (if String.eqb (norm a) (norm b) then 1 else 0) + equal_positions norm l1' l2'
  | _, _ => 0
  end.

(** The fraction of equal positions is at least [0.8 = 4/5]. *)
Definition similar_lines (norm : cell -> string) (l1 l2 : list cell) : bool :=
  (4 * Py.len l1 <=? 5 * equal_positions norm l1 l2)%Z.

(** Missing as the empty string, then trimmed of white space. *)
Definition trimmed (v : cell) : string := Py.strip (default "" v).

(** Interior rows are anchors when similar to neither neighbour, interior
    columns when not similar to at least one of them. *)
Definition anchor_rules (norm : cell -> string) (df : DataFrame) : Prop :=
  exists ra ca : gset Z,
    row_anchors df = Ok ra /\ col_anchors df = Ok ca /\
    (forall i : Z, (0 < i < shape0 df - 1)%Z ->
       (i ∈ ra <->
        similar_lines norm (row_cells df (i - 1)) (row_cells df i) = false /\
        similar_lines norm (row_cells df i) (row_cells df (i + 1)) = false)) /\
    (forall j : Z, (0 < j < shape1 df - 1)%Z ->
       (j ∈ ca <->
        similar_lines norm (col_cells df (j - 1)) (col_cells df j) = false \/
        similar_lines norm (col_cells df j) (col_cells df (j + 1)) = false)).

(** ** The precedence of the recognizer's rules *)

Definition stripped_matches (r : regex) (v : cell) : bool :=
  match v with
  | None => false
  | Some s => matches r (Py.strip s)
  end.

(** The rules by category, in precedence order. *)
Definition precedence : list (string * (cell -> bool)) :=
  [ ("Empty", fun v => negb (nonempty_cell v));
    ("Year", stripped_matches year_pattern);
    ("Email", stripped_matches email_pattern);
    ("Percentage", stripped_matches percentage_pattern);
    ("Currency", stripped_matches currency_pattern);
    ("ScientificNotation", stripped_matches scientific_pattern);
    ("Date", fun v => existsb (fun p => stripped_matches p v) date_patterns);
    ("Time", stripped_matches time_pattern);
    ("Float", stripped_matches float_pattern);
    ("Integer", stripped_matches integer_pattern) ].

(** The first rule that applies wins; a value that no rule accepts is text. *)
Definition first_applicable (v : cell) : string :=
  match find (fun rule => rule.2 v) precedence with
  | Some rule => rule.1
  | None => "Text"
  end.

(** * Notions used in the proofs *)

(** The string does not begin with a character that [space] accepts. *)
Definition starts_nonspace (space : ascii -> bool) (s : string) : Prop :=
  match s with
  | EmptyString => True
  | String c _ => space c = false
  end.

(** What the parsing loop guarantees of a tuple: its address is not empty
    and reads back as its row. *)
Definition consistent (t : ascii * Z * string) : Prop :=
  t.2 <> EmptyString /\ Py.int (Py.tail t.2) = Ok t.1.2.

(** A run as the sweep writes it, from its first and its last address. *)
Definition render_run (run : list (ascii * Z * string)) : string :=
  match run with
  | [] => EmptyString
  | t :: _ => render_range t.2 (Some (default t (last run)).2)
  end.

(** The rest of the input does not begin with a digit. *)
Definition no_digit_head (rest : string) : Prop :=
  match rest with
  | EmptyString => True
  | String c _ => Py.isdigit c = false
  end.

(** A tuple built by the parsing loop from the address of a coordinate with a
    row number that is not negative. *)
Definition canonical (t : ascii * Z * string) : Prop :=
  (0 <= t.1.2)%Z /\ t = tuple_of (coord_of t).

(** A run that the sweep can produce from canonical tuples. *)
Definition good_run (run : list (ascii * Z * string)) : Prop :=
  run <> [] /\ is_run run = true /\ Forall canonical run.

(** Duplicates count once: the output is the one of the de-duplicated input,
    and the ranges of the output cover no coordinate twice. *)
Definition deduplicating (addresses : list string) : Prop :=
  merge_cell_ranges addresses = merge_cell_ranges (remove_dups addresses) /\
  forall s cs,
    merge_cell_ranges addresses = Ok s -> expand_ranges s = Some cs -> NoDup cs.

(** The computation ends with an exception. *)
Definition raises {A} (m : result A) : Prop := exists e, m = Raise e.

(** The flag [is_boundary] of a row and of a column, when no division by
    zero can occur. *)
Definition row_boundary (df : DataFrame) (i : Z) : bool :=
  (i =? 0)%Z || (i =? shape0 df - 1)%Z ||
  (negb (similar_lines fillna_str (row_cells df (i - 1)) (row_cells df i)) &&
   negb (similar_lines fillna_str (row_cells df i) (row_cells df (i + 1)))).

Definition col_boundary (df : DataFrame) (j : Z) : bool :=
  (j =? 0)%Z || (j =? shape1 df - 1)%Z ||
  (negb (similar_lines fillna_str (col_cells df (j - 1)) (col_cells df j)) ||
   negb (similar_lines fillna_str (col_cells df j) (col_cells df (j + 1)))).

(** The cell at [rc] is kept by the first loop and filed under the key [v]. *)
Definition holds_value (df : DataFrame) (v : string) (rc : Z * Z) : bool :=
  match iat df rc.1 rc.2 with
  | Some val => String.eqb val v && nonempty_cell (Some val)
  | None => false
  end.

(** The addresses filed under [v] while the loop visits [cells]. *)
Definition addresses_of (df : DataFrame) (v : string) (cells : list (Z * Z))
  : list string :=
  map (fun rc => create_cell_address rc.1 rc.2 df)
      (filter (fun rc => holds_value df v rc = true) cells).

(** The grid coordinates, in the order of the scan. *)
Definition cells_of (df : DataFrame) : list (Z * Z) :=
  product_range (shape0 df) (shape1 df).

(** The first character of the label of column [c]. *)
Definition label_char (df : DataFrame) (c : Z) : ascii :=
  match column_label df c with
  | String a _ => a
  | EmptyString => "000"%char
  end.

(** The display coordinate of the grid cell [rc = (r, c)]. *)
Definition display (df : DataFrame) (rc : Z * Z) : coord :=
  (label_char df rc.2, (rc.1 + 1)%Z).

(** The cells filed under [v], in the order of the scan, and their display
    coordinates. *)
Definition occurrences (df : DataFrame) (v : string) : list (Z * Z) :=
  filter (fun rc => holds_value df v rc = true) (cells_of df).

Definition coords_of (df : DataFrame) (v : string) : list coord :=
  map (display df) (occurrences df v).

(** * Sample frames *)

(** One cell. *)
Definition frame_1x1 : DataFrame :=
  {| columns := ["A"]; values := [[Some "x"]] |}.

(** One column whose second value is the first with a leading blank. *)
Definition frame_padded : DataFrame :=
  {| columns := ["A"]; values := [[Some "a"]; [Some " a"]; [Some "b"]] |}.

(** A header row, three equal rows and a closing row; one missing value. *)
Definition frame_5x3 : DataFrame :=
  {| columns := ["A"; "B"; "C"];
     values := [[Some "Sales"; Some "Q4"; None];
                [Some "Notes"; Some "Details"; Some "Extra"];
                [Some "Notes"; Some "Details"; Some "Extra"];
                [Some "Notes"; Some "Details"; Some "Extra"];
                [Some "Total"; Some "9"; Some "Extra"]] |}.

(** A frame whose columns carry names, as the one of
    [data_format_aggregation_demo.py]. *)
Definition frame_named : DataFrame :=
  {| columns := ["Category"; "Value"];
     values := [[Some "Date"; Some "2024-01-15"]; [Some "Time"; Some "14:30:00"]] |}.

(** * Notions used by the further properties *)

(** The shapes on which a similarity is computed over lines of length zero:
    no column and an interior row, or no row and an interior column. *)
Definition degenerate_shape (df : DataFrame) : bool :=
  ((shape1 df =? 0)%Z && (3 <=? shape0 df)%Z) ||
  ((shape0 df =? 0)%Z && (3 <=? shape1 df)%Z).

(** Every row stores one cell per column. *)
Definition rectangular (df : DataFrame) : Prop :=
  Forall (fun row => length row = length (columns df)) (values df).

(** Two rows over five columns, the three middle columns equal. *)
Definition frame_2x5 : DataFrame :=
  {| columns := ["A"; "B"; "C"; "D"; "E"];
     values := [[Some "Item"; Some "n/a"; Some "n/a"; Some "n/a"; Some "Total"];
                [Some "Pen"; Some "-"; Some "-"; Some "-"; Some "7"]] |}.

(** The address does not parse: it is empty, or what follows its first
    character is not an integer literal. *)
Definition malformed (addr : string) : bool :=
  match addr with
  | EmptyString => true
  | String _ rest =>
      match Py.int rest with
      | Ok _ => false
      | Raise _ => true
      end
  end.

(** The order of the coordinates: by column character, then by row. *)
Definition coord_le (p q : coord) : Prop :=
  (Py.code p.1 < Py.code q.1)%N \/ (p.1 = q.1 /\ (p.2 <= q.2)%Z).

(** The cells that the first loop of [invert_index_with_ranges] files under
    their value: those that are present and not blank, in the order of the
    scan. *)
Definition indexed_cells (df : DataFrame) : list (Z * Z) :=
  filter (fun rc => nonempty_cell (iat df rc.1 rc.2) = true) (cells_of df).

(** The key under which the loop of [aggregate_by_data_format] files the grid
    cell [rc], and the entry that it appends there. *)
Definition cell_key (df : DataFrame) (rc : Z * Z) : string :=
  (classify_cell (create_cell_address rc.1 rc.2 df) (iat df rc.1 rc.2)).1.

Definition cell_entry (df : DataFrame) (rc : Z * Z) : group_entry :=
  (classify_cell (create_cell_address rc.1 rc.2 df) (iat df rc.1 rc.2)).2.

(** The number of entries of all the groups together. *)
Definition total_entries {A} (groups : dict (list A)) : nat :=
  sum_list (map (fun kv => length kv.2) groups).

(** The characters below 256. *)
Definition all_ascii : list ascii := map ascii_of_nat (seq 0 256).

(** A sufficient test that every word of a pattern contains a character
    that [q] accepts. *)
Fixpoint requires (q : ascii -> bool) (r : regex) : bool :=
  match r with
  | Void => true
  | Eps => false
  | Chr p => forallb (fun c => implb (p c) (q c)) all_ascii
  | Cat r1 r2 => requires q r1 || requires q r2
  | Alt r1 r2 => requires q r1 && requires q r2
  | Star _ => false
  end.

(** Four characters of which the first two are 19, 20 or 21. *)
Definition year_shaped (s : string) : bool :=
  match s with
  | String a (String b (String _ (String _ EmptyString))) =>
      (Ascii.eqb a "1" && Ascii.eqb b "9") ||
      (Ascii.eqb a "2" && (Ascii.eqb b "0" || Ascii.eqb b "1"))
  | _ => false
  end.

(** * Properties *)

(** Arithmetic side conditions on the shape of a concrete frame. *)
Ltac shape_lia := unfold shape0, shape1, Py.len; simpl; lia.

Ltac forall_by_computation :=
  match goal with
  | |- Forall _ ?l =>
      let v := eval vm_compute in l in
      change l with v;
      repeat (apply Forall_cons_2; [vm_compute; reflexivity|]);
      apply Forall_nil_2
  end.

(** ** Sequencing *)

Lemma bind_Ok {A B} (m : result A) (k : A -> result B) (b : B) :
  m ≫= k = Ok b <-> exists a, m = Ok a /\ k a = Ok b.
Proof.
  destruct m as [a|e]; simpl; split.
  - intros H. exists a. auto.
  - intros (a' & [= <-] & H). exact H.
  - discriminate.
  - intros (a' & H & _). discriminate.
Qed.

Lemma mapM_r_Ok {A B} (f : A -> result B) (g : A -> B) (l : list A) :
  Forall (fun x => f x = Ok (g x)) l -> mapM_r f l = Ok (map g l).
Proof.
  induction 1 as [|x l Hx _ IH]; simpl; [reflexivity|].
  rewrite Hx. simpl. rewrite IH. reflexivity.
Qed.

(** ** Ranges *)

Lemma elem_of_range (a b x : Z) : x ∈ Py.range a b <-> (a <= x < b)%Z.
Proof.
  unfold Py.range. rewrite list_elem_of_fmap. split.
  - intros (i & -> & Hi). apply elem_of_seq in Hi. lia.
  - intros Hx. exists (Z.to_nat (x - a)). split; [lia|].
    apply elem_of_seq. lia.
Qed.

Lemma range_length (a b : Z) : length (Py.range a b) = Z.to_nat (b - a).
Proof. unfold Py.range. rewrite length_map, length_seq. reflexivity. Qed.

Lemma range_nil (a b : Z) : (b <= a)%Z -> Py.range a b = [].
Proof.
  intros H. unfold Py.range. replace (Z.to_nat (b - a)) with 0%nat by lia.
  reflexivity.
Qed.

Lemma range_cons (a b : Z) :
  (a < b)%Z -> Py.range a b = a :: Py.range (a + 1) b.
Proof.
  intros H. unfold Py.range.
  replace (Z.to_nat (b - a)) with (S (Z.to_nat (b - (a + 1)))) by lia.
  simpl. f_equal; [lia|].
  rewrite <- seq_shift, map_map. apply map_ext. intros i. lia.
Qed.

(** ** White space *)

Section Strip.

Variable space : ascii -> bool.

Lemma lstrip_starts (s : string) : starts_nonspace space (Py.lstrip_with space s).
Proof.
  induction s as [|c s IH]; simpl; [exact I|].
  destruct (space c) eqn:Hc; [exact IH | exact Hc].
Qed.

Lemma lstrip_id (s : string) :
  starts_nonspace space s -> Py.lstrip_with space s = s.
Proof. destruct s as [|c s]; simpl; [reflexivity|]. intros ->. reflexivity. Qed.

Lemma rstrip_starts (s : string) :
  starts_nonspace space s -> starts_nonspace space (Py.rstrip_with space s).
Proof.
  destruct s as [|c s]; simpl; [auto|]. intros Hc.
  destruct (Py.rstrip_with space s); [rewrite Hc|]; exact Hc.
Qed.

Lemma rstrip_idem (s : string) :
  Py.rstrip_with space (Py.rstrip_with space s) = Py.rstrip_with space s.
Proof.
  induction s as [|c s IH]; simpl; [reflexivity|].
  destruct (Py.rstrip_with space s) as [|d t] eqn:Ht.
  - destruct (space c) eqn:Hc; simpl; [reflexivity|].
    rewrite Hc. reflexivity.
  - change (Py.rstrip_with space (String c (String d t))) with
      (match Py.rstrip_with space (String d t) with
       | EmptyString => if space c then EmptyString else String c EmptyString
       | u => String c u
       end).
    rewrite IH. reflexivity.
Qed.

Lemma strip_with_idem (s : string) :
  Py.strip_with space (Py.strip_with space s) = Py.strip_with space s.
Proof.
  unfold Py.strip_with.
  rewrite (lstrip_id (Py.rstrip_with space (Py.lstrip_with space s))).
  - apply rstrip_idem.
  - apply rstrip_starts, lstrip_starts.
Qed.

Lemma lstrip_nospace (s : string) :
  str_forall (fun c => negb (space c)) s = true -> Py.lstrip_with space s = s.
Proof.
  destruct s as [|c s]; simpl; [reflexivity|].
  intros [Hc _]%andb_true_iff. apply negb_true_iff in Hc. rewrite Hc. reflexivity.
Qed.

Lemma rstrip_nospace (s : string) :
  str_forall (fun c => negb (space c)) s = true -> Py.rstrip_with space s = s.
Proof.
  induction s as [|c s IH]; simpl; [reflexivity|].
  intros [Hc Hs]%andb_true_iff. apply negb_true_iff in Hc.
  rewrite (IH Hs), Hc. destruct s; reflexivity.
Qed.

Lemma strip_nospace (s : string) :
  str_forall (fun c => negb (space c)) s = true -> Py.strip_with space s = s.
Proof.
  intros H. unfold Py.strip_with. rewrite (lstrip_nospace s H).
  apply rstrip_nospace, H.
Qed.

End Strip.

Lemma strip_idem (s : string) : Py.strip (Py.strip s) = Py.strip s.
Proof. apply strip_with_idem. Qed.

Lemma str_forall_impl (P Q : ascii -> bool) (s : string) :
  (forall c, P c = true -> Q c = true) ->
  str_forall P s = true -> str_forall Q s = true.
Proof.
  intros HPQ. induction s as [|c s IH]; simpl; [auto|].
  intros [Hc Hs]%andb_true_iff. rewrite (HPQ c Hc), (IH Hs). reflexivity.
Qed.

(** ** Patterns: [accepts] decides the language *)

Lemma append_eq_nil (s t : string) : s ++ t = EmptyString -> s = EmptyString /\ t = EmptyString.
Proof. destruct s; [auto | discriminate]. Qed.

Lemma nullable_lang (r : regex) : nullable r = true <-> lang r EmptyString.
Proof.
  split.
  - induction r; simpl; intros H; try discriminate H.
    + constructor.
    + apply andb_true_iff in H as [H1 H2].
      apply (lang_cat r1 r2 EmptyString EmptyString); auto.
    + apply orb_true_iff in H as [H|H]; [apply lang_alt_l | apply lang_alt_r]; auto.
    + constructor.
  - intros H. remember EmptyString as s eqn:Hs.
    induction H as [|p c Hp|r1 r2 s1 s2 _ IH1 _ IH2|r1 r2 s _ IH|r1 r2 s _ IH| |];
      simpl; try reflexivity.
    + discriminate Hs.
    + apply append_eq_nil in Hs as [-> ->]. rewrite IH1, IH2; reflexivity.
    + rewrite IH by exact Hs. reflexivity.
    + rewrite IH by exact Hs. apply orb_true_r.
Qed.

Lemma deriv_lang_1 (c : ascii) (r : regex) :
  forall s, lang (deriv c r) s -> lang r (String c s).
Proof.
  induction r as [| |p|r1 IH1 r2 IH2|r1 IH1 r2 IH2|r IH]; simpl; intros s H.
  - inversion H.
  - inversion H.
  - destruct (p c) eqn:Hp; inversion H; subst. constructor. exact Hp.
  - destruct (nullable r1) eqn:Hn.
    + inversion H as [| |? ? s1 s2 H1 H2| ? ? ? H1| ? ? ? H2| |]; subst.
      * inversion H1 as [| |? ? t1 t2 Ht1 Ht2| | | |]; subst.
        apply (lang_cat r1 r2 (String c t1) t2); auto.
      * apply (lang_cat r1 r2 EmptyString (String c s)); [|auto].
        apply nullable_lang, Hn.
    + inversion H as [| |? ? t1 t2 Ht1 Ht2| | | |]; subst.
      apply (lang_cat r1 r2 (String c t1) t2); auto.
  - inversion H; subst; [apply lang_alt_l | apply lang_alt_r]; auto.
  - inversion H as [| |? ? t1 t2 Ht1 Ht2| | | |]; subst.
    apply (lang_star_cons r (String c t1) t2); auto.
Qed.

Lemma deriv_lang_2 (r : regex) (t : string) :
  lang r t -> forall c s, t = String c s -> lang (deriv c r) s.
Proof.
  induction 1 as [|p c0 Hp|r1 r2 s1 s2 H1 IH1 H2 IH2|r1 r2 s0 _ IH|r1 r2 s0 _ IH|
                 |r s1 s2 H1 IH1 H2 IH2]; intros c s Ht; simpl.
  - discriminate Ht.
  - injection Ht as -> <-. rewrite Hp. constructor.
  - destruct s1 as [|c1 s1'].
    + simpl in Ht. apply nullable_lang in H1. rewrite H1.
      apply lang_alt_r. auto.
    + injection Ht as -> <-.
      destruct (nullable r1); [apply lang_alt_l|]; constructor; auto.
  - apply lang_alt_l. auto.
  - apply lang_alt_r. auto.
  - discriminate Ht.
  - destruct s1 as [|c1 s1'].
    + simpl in Ht. exact (IH2 c s Ht).
    + injection Ht as -> <-. constructor; auto.
Qed.

(** The derivative matcher accepts exactly the strings of the language. *)
Lemma accepts_lang (r : regex) (s : string) : accepts r s = true <-> lang r s.
Proof.
  revert r. induction s as [|c s IH]; intros r; simpl.
  - apply nullable_lang.
  - rewrite IH. split; [apply deriv_lang_1|].
    intros H. exact (deriv_lang_2 r _ H c s eq_refl).
Qed.

(** ** The recognizer *)

Lemma recognize_strip (s : string) :
  recognize_data_type (Some (Py.strip s)) = recognize_data_type (Some s).
Proof. unfold recognize_data_type. rewrite strip_idem. reflexivity. Qed.

Lemma classify_recognized (v : cell) :
  classify v =
  if bool_decide (recognize_data_type v ∈ well_defined_formats)
  then recognize_data_type v else "Text".
Proof.
  unfold classify, classify_cell.
  destruct (bool_decide (recognize_data_type v ∈ well_defined_formats)); reflexivity.
Qed.

(** C8: the category of a value is the one of the first applicable rule in
    the order Empty, Year, Email, Percentage, Currency, ScientificNotation,
    Date, Time, Float, Integer, and Text when no rule applies (the recognizer
    answers [Others] there, which [aggregate_by_data_format] records as the
    type [Text]); on the eight sample values the categories are the stated
    ones. *)
Theorem C8_classifier_precedence :
  map fst precedence =
    ["Empty"; "Year"; "Email"; "Percentage"; "Currency"; "ScientificNotation";
     "Date"; "Time"; "Float"; "Integer"] /\
  (forall v : cell, classify v = first_applicable v) /\
  (forall v : cell,
     recognize_data_type v =
     if String.eqb (first_applicable v) "Text" then "Others" else first_applicable v) /\
  classify (Some "2024") = "Year" /\
  classify (Some "2024.5") = "Float" /\
  classify (Some "75%") = "Percentage" /\
  classify (Some "$1,234.56") = "Currency" /\
  classify (Some "user@x.com") = "Email" /\
  classify (Some "") = "Empty" /\
  classify None = "Empty" /\
  classify (Some "hello") = "Text".
Proof.
  split; [reflexivity|].
  split; [|split; [|repeat split; vm_compute; reflexivity]].
  - intros v. rewrite classify_recognized.
    destruct v as [s|]; [|reflexivity].
    unfold recognize_data_type, first_applicable, precedence, stripped_matches,
      nonempty_cell, date_patterns.
    cbn [find fst snd existsb].
    destruct (String.eqb (Py.strip s) ""); [reflexivity|]. cbn [negb].
    repeat (match goal with
            | |- context [matches ?r ?x] => destruct (matches r x); [reflexivity|]
            end; cbn [orb]).
    reflexivity.
  - intros v. destruct v as [s|]; [|reflexivity].
    unfold recognize_data_type, first_applicable, precedence, stripped_matches,
      nonempty_cell, date_patterns.
    cbn [find fst snd existsb].
    destruct (String.eqb (Py.strip s) ""); [reflexivity|]. cbn [negb].
    repeat (match goal with
            | |- context [matches ?r ?x] => destruct (matches r x); [reflexivity|]
            end; cbn [orb]).
    reflexivity.
Qed.

(** C9: the category of a text value is the category of its trimmed form;
    a padded integer is an Integer. *)
Theorem C9_classifier_trims :
  (forall s : string, classify (Some s) = classify (Some (Py.strip s))) /\
  (forall s : string,
     recognize_data_type (Some s) = recognize_data_type (Some (Py.strip s))) /\
  classify (Some "  42  ") = "Integer".
Proof.
  split; [|split].
  - intros s. rewrite !classify_recognized, recognize_strip. reflexivity.
  - intros s. symmetry. apply recognize_strip.
  - vm_compute. reflexivity.
Qed.

(** ** Anchors and the rows and columns to keep *)

Lemma collect_fold (f : Z -> result bool) (b : Z -> bool) (l : list Z) (acc : gset Z) :
  (forall i, i ∈ l -> f i = Ok (b i)) ->
  exists s : gset Z,
    foldM (fun anchors i =>
             b' ← f i; Ok (if b' : bool then {[ i ]} ∪ anchors else anchors)) l acc
    = Ok s /\
    forall x, x ∈ s <-> x ∈ acc \/ (x ∈ l /\ b x = true).
Proof.
  revert acc. induction l as [|i l IH]; intros acc Hf; simpl.
  - exists acc. split; [reflexivity|]. intros x. rewrite elem_of_nil. tauto.
  - rewrite (Hf i) by apply list_elem_of_here. simpl.
    destruct (IH (if b i then {[ i ]} ∪ acc else acc)) as (s & Hs & Hmem).
    { intros j Hj. apply Hf. apply list_elem_of_further, Hj. }
    exists s. split; [exact Hs|].
    intros x. rewrite Hmem, elem_of_cons.
    destruct (b i) eqn:Hbi.
    + rewrite elem_of_union, elem_of_singleton. split.
      * intros [[->|H]|[H1 H2]]; auto.
      * intros [H|[[->|H1] H2]]; auto.
    + split.
      * intros [H|[H1 H2]]; auto.
      * intros [H|[[->|H1] H2]]; auto. congruence.
Qed.

Lemma collect_anchors_spec (f : Z -> result bool) (b : Z -> bool) (n : Z) :
  (forall i, (0 <= i < n)%Z -> f i = Ok (b i)) ->
  exists s : gset Z,
    collect_anchors f n = Ok s /\
    forall x, x ∈ s <-> ((0 <= x < n)%Z /\ b x = true).
Proof.
  intros Hf. unfold collect_anchors.
  destruct (collect_fold f b (Py.range 0 n) ∅) as (s & Hs & Hmem).
  { intros i Hi. apply Hf, elem_of_range, Hi. }
  exists s. split; [exact Hs|].
  intros x. rewrite Hmem, elem_of_range, elem_of_empty. tauto.
Qed.

Lemma count_matches_equal_positions (norm : cell -> string) (l1 l2 : list cell) :
  count_matches (map norm l1) (map norm l2) = equal_positions norm l1 l2.
Proof.
  unfold count_matches, Py.len. revert l2.
  induction l1 as [|a l1 IH]; intros [|b l2]; simpl; try reflexivity.
  rewrite filter_cons. simpl.
  destruct (String.eqb_spec (norm a) (norm b)) as [Heq|Hne].
  - rewrite decide_True by exact Heq. simpl length.
    rewrite Nat2Z.inj_succ, IH. lia.
  - rewrite decide_False by exact Hne. rewrite IH. lia.
Qed.

Lemma lines_are_similar_spec (norm : cell -> string) (l1 l2 : list cell) :
  l1 <> [] ->
  lines_are_similar (map norm l1) (map norm l2) = Ok (similar_lines norm l1 l2).
Proof.
  intros Hne. unfold lines_are_similar, similar_lines.
  rewrite count_matches_equal_positions.
  assert (Hlen : (0 < Py.len (map norm l1))%Z).
  { unfold Py.len. rewrite length_map. destruct l1; [congruence|]. simpl. lia. }
  assert (Hl : Py.len (map norm l1) = Py.len l1).
  { unfold Py.len. rewrite length_map. reflexivity. }
  destruct (Z.eqb_spec (Py.len (map norm l1)) 0) as [H0|_]; [lia|].
  f_equal. unfold Qle_bool, similarity_threshold. simpl Qnum. simpl Qden.
  rewrite Z2Pos.id by exact Hlen. rewrite Hl.
  apply eq_iff_eq_true. rewrite !Z.leb_le. lia.
Qed.

Lemma row_cells_nonempty (df : DataFrame) (i : Z) :
  (1 <= shape1 df)%Z -> row_cells df i <> [].
Proof.
  intros H Hnil. apply (f_equal length) in Hnil.
  unfold row_cells in Hnil. rewrite length_map, range_length in Hnil.
  simpl in Hnil. lia.
Qed.

Lemma col_cells_nonempty (df : DataFrame) (j : Z) :
  (1 <= shape0 df)%Z -> col_cells df j <> [].
Proof.
  intros H Hnil. apply (f_equal length) in Hnil.
  unfold col_cells in Hnil. rewrite length_map, range_length in Hnil.
  simpl in Hnil. lia.
Qed.

Lemma rows_are_similar_spec (df : DataFrame) (i j : Z) :
  (1 <= shape1 df)%Z ->
  rows_are_similar df i j =
  Ok (similar_lines fillna_str (row_cells df i) (row_cells df j)).
Proof.
  intros H. unfold rows_are_similar, iloc_row.
  rewrite <- (lines_are_similar_spec fillna_str) by (apply row_cells_nonempty, H).
  unfold row_cells. rewrite !map_map. reflexivity.
Qed.

Lemma cols_are_similar_spec (df : DataFrame) (i j : Z) :
  (1 <= shape0 df)%Z ->
  cols_are_similar df i j =
  Ok (similar_lines fillna_str (col_cells df i) (col_cells df j)).
Proof.
  intros H. unfold cols_are_similar, iloc_col.
  rewrite <- (lines_are_similar_spec fillna_str) by (apply col_cells_nonempty, H).
  unfold col_cells. rewrite !map_map. reflexivity.
Qed.

Lemma row_is_boundary_spec (df : DataFrame) (i : Z) :
  (1 <= shape1 df)%Z -> (0 <= i < shape0 df)%Z ->
  row_is_boundary df i = Ok (row_boundary df i).
Proof.
  intros H1 Hi. unfold row_is_boundary, row_boundary.
  destruct ((i =? 0)%Z || (i =? shape0 df - 1)%Z) eqn:Hedge; [reflexivity|].
  apply orb_false_iff in Hedge as [H0 Hlast].
  apply Z.eqb_neq in H0, Hlast.
  rewrite !rows_are_similar_spec by exact H1. simpl.
  destruct (Z.ltb_spec (i + 1) (shape0 df)) as [_|Hge]; [|lia].
  reflexivity.
Qed.

Lemma col_is_boundary_spec (df : DataFrame) (j : Z) :
  (1 <= shape0 df)%Z -> (0 <= j < shape1 df)%Z ->
  col_is_boundary df j = Ok (col_boundary df j).
Proof.
  intros H1 Hj. unfold col_is_boundary, col_boundary.
  destruct ((j =? 0)%Z || (j =? shape1 df - 1)%Z) eqn:Hedge; [reflexivity|].
  apply orb_false_iff in Hedge as [H0 Hlast].
  apply Z.eqb_neq in H0, Hlast.
  rewrite !cols_are_similar_spec by exact H1. simpl.
  destruct (Z.ltb_spec (j + 1) (shape1 df)) as [_|Hge]; [|lia].
  reflexivity.
Qed.

(** On a frame with a row and a column both loops finish, and an index is an
    anchor exactly when its flag is set. *)
Lemma anchors_spec (df : DataFrame) :
  (1 <= shape0 df)%Z -> (1 <= shape1 df)%Z ->
  exists ra ca : gset Z,
    row_anchors df = Ok ra /\ col_anchors df = Ok ca /\
    (forall i, i ∈ ra <-> ((0 <= i < shape0 df)%Z /\ row_boundary df i = true)) /\
    (forall j, j ∈ ca <-> ((0 <= j < shape1 df)%Z /\ col_boundary df j = true)).
Proof.
  intros H0 H1.
  destruct (collect_anchors_spec (row_is_boundary df) (row_boundary df) (shape0 df))
    as (ra & Hra & Hrmem).
  { intros i Hi. apply row_is_boundary_spec; assumption. }
  destruct (collect_anchors_spec (col_is_boundary df) (col_boundary df) (shape1 df))
    as (ca & Hca & Hcmem).
  { intros j Hj. apply col_is_boundary_spec; assumption. }
  exists ra, ca. auto.
Qed.

Lemma elem_of_expand_anchors (anchors : gset Z) (n k x : Z) :
  x ∈ expand_anchors anchors n k <->
  exists r, r ∈ anchors /\ (Z.max 0 (r - k) <= x < Z.min n (r + k + 1))%Z.
Proof.
  unfold expand_anchors, set_fold. simpl.
  setoid_rewrite <- (elem_of_elements anchors).
  induction (elements anchors) as [|r l IH]; simpl.
  - rewrite elem_of_empty. split; [tauto|]. intros (r & Hr & _).
    apply elem_of_nil in Hr. exact Hr.
  - rewrite elem_of_union, IH, elem_of_list_to_set, elem_of_range. split.
    + intros [(r' & Hr' & Hx)|Hx].
      * exists r'. split; [apply list_elem_of_further, Hr' | exact Hx].
      * exists r. split; [apply list_elem_of_here | exact Hx].
    + intros (r' & Hr' & Hx). apply elem_of_cons in Hr' as [->|Hr'].
      * right. exact Hx.
      * left. exists r'. auto.
Qed.

Lemma elem_of_sorted (s : gset Z) (x : Z) : x ∈ sorted s <-> x ∈ s.
Proof.
  unfold sorted. rewrite (merge_sort_Permutation Z.le (elements s)).
  apply elem_of_elements.
Qed.

Lemma sorted_length (s : gset Z) : length (sorted s) = size s.
Proof.
  unfold sorted. rewrite (merge_sort_Permutation Z.le (elements s)). reflexivity.
Qed.

Lemma positional_in_range (n i : Z) : (0 <= i < n)%Z -> positional n i = Ok i.
Proof.
  intros H. unfold positional.
  destruct (Z.leb_spec 0 i); [|lia]. destruct (Z.ltb_spec i n); [|lia]. reflexivity.
Qed.

Lemma iloc_in_range (df : DataFrame) (rows cols : list Z) :
  Forall (fun r => (0 <= r < shape0 df)%Z) rows ->
  Forall (fun c => (0 <= c < shape1 df)%Z) cols ->
  iloc df rows cols =
  Ok {| columns := map (column_label df) cols;
        values := map (fun r => map (fun c => iat df r c) cols) rows |}.
Proof.
  intros Hr Hc. unfold iloc.
  rewrite (mapM_r_Ok (positional (shape0 df)) id rows).
  - rewrite (mapM_r_Ok (positional (shape1 df)) id cols).
    + simpl. rewrite !map_id. reflexivity.
    + eapply Forall_impl; [exact Hc|]. intros c Hc'. apply positional_in_range, Hc'.
  - eapply Forall_impl; [exact Hr|]. intros r Hr'. apply positional_in_range, Hr'.
Qed.

Lemma skeleton_indices_spec (df : DataFrame) (k : Z) :
  (1 <= shape0 df)%Z -> (1 <= shape1 df)%Z ->
  exists ra ca : gset Z,
    row_anchors df = Ok ra /\ col_anchors df = Ok ca /\
    0%Z ∈ ra /\ (shape0 df - 1)%Z ∈ ra /\ 0%Z ∈ ca /\ (shape1 df - 1)%Z ∈ ca /\
    skeleton_indices df k =
    Ok (expand_anchors ra (shape0 df) k, expand_anchors ca (shape1 df) k).
Proof.
  intros H0 H1.
  destruct (anchors_spec df H0 H1) as (ra & ca & Hra & Hca & Hrmem & Hcmem).
  exists ra, ca. split; [exact Hra|]. split; [exact Hca|].
  assert (Hedge : forall n i b, (i = 0 \/ i = n - 1)%Z ->
                    (i =? 0)%Z || (i =? n - 1)%Z || b = true).
  { intros n i b [-> | ->]; [reflexivity|].
    rewrite Z.eqb_refl, orb_true_r. reflexivity. }
  assert (Hr0 : 0%Z ∈ ra).
  { apply Hrmem. split; [lia|]. apply Hedge. lia. }
  assert (Hrl : (shape0 df - 1)%Z ∈ ra).
  { apply Hrmem. split; [lia|]. apply Hedge. lia. }
  assert (Hc0 : 0%Z ∈ ca).
  { apply Hcmem. split; [lia|]. apply Hedge. lia. }
  assert (Hcl : (shape1 df - 1)%Z ∈ ca).
  { apply Hcmem. split; [lia|]. apply Hedge. lia. }
  repeat (split; [assumption|]).
  unfold skeleton_indices. rewrite Hra, Hca. reflexivity.
Qed.

Lemma expand_anchors_mono (anchors : gset Z) (n k1 k2 : Z) :
  (k1 <= k2)%Z -> expand_anchors anchors n k1 ⊆ expand_anchors anchors n k2.
Proof.
  intros Hk x. rewrite !elem_of_expand_anchors.
  intros (r & Hr & Hx). exists r. split; [exact Hr | lia].
Qed.

Lemma expand_anchors_negative (anchors : gset Z) (n k : Z) :
  (k < 0)%Z -> expand_anchors anchors n k = ∅.
Proof.
  intros Hk. apply leibniz_equiv, elem_of_equiv_empty. intros x.
  rewrite elem_of_expand_anchors. intros (r & _ & Hx). lia.
Qed.

Lemma expand_anchors_bounds (anchors : gset Z) (n k x : Z) :
  x ∈ expand_anchors anchors n k -> (0 <= x < n)%Z.
Proof. rewrite elem_of_expand_anchors. intros (r & _ & Hx). lia. Qed.

Lemma expand_anchors_zero (anchors : gset Z) (n k : Z) :
  (1 <= n)%Z -> (0 <= k)%Z -> 0%Z ∈ anchors -> 0%Z ∈ expand_anchors anchors n k.
Proof.
  intros Hn Hk H0. apply elem_of_expand_anchors. exists 0%Z. split; [exact H0 | lia].
Qed.

(** C3 as stated, with trimmed values, fails: rows that differ only by a
    leading blank are not similar for the detector, so the middle row of
    [frame_padded] is an anchor although its trimmed value equals the one of
    its predecessor. *)
Lemma C3_trimmed_rule_fails : ~ anchor_rules trimmed frame_padded.
Proof.
  intros (ra & ca & Hra & _ & Hrows & _).
  assert (Hcomp : row_anchors frame_padded = Ok ({[ 0%Z; 1%Z; 2%Z ]} : gset Z))
    by (vm_compute; reflexivity).
  rewrite Hcomp in Hra. injection Hra as <-.
  destruct (Hrows 1%Z) as [Hfwd _]; [shape_lia|].
  destruct Hfwd as [Hsim _]; [set_solver|].
  vm_compute in Hsim. discriminate Hsim.
Qed.

(** C3 (amended): on a frame with at least one row and one column, an
    interior row is an anchor iff it is similar to neither neighbour and an
    interior column iff it is not similar to at least one neighbour, where two
    lines are similar iff at least 0.8 of their positions carry equal values,
    a missing value counting as the empty string and white space being kept. *)
Theorem C3_anchor_rules (df : DataFrame) :
  (1 <= shape0 df)%Z -> (1 <= shape1 df)%Z -> anchor_rules fillna_str df.
Proof.
  intros H0 H1.
  destruct (anchors_spec df H0 H1) as (ra & ca & Hra & Hca & Hrmem & Hcmem).
  exists ra, ca. split; [exact Hra|]. split; [exact Hca|]. split.
  - intros i Hi. rewrite Hrmem. unfold row_boundary.
    destruct (Z.eqb_spec i 0) as [?|_]; [lia|].
    destruct (Z.eqb_spec i (shape0 df - 1)) as [?|_]; [lia|].
    simpl. rewrite andb_true_iff, !negb_true_iff. split; [tauto|].
    intros H. split; [lia | exact H].
  - intros j Hj. rewrite Hcmem. unfold col_boundary.
    destruct (Z.eqb_spec j 0) as [?|_]; [lia|].
    destruct (Z.eqb_spec j (shape1 df - 1)) as [?|_]; [lia|].
    simpl. rewrite orb_true_iff, !negb_true_iff. split; [tauto|].
    intros H. split; [lia | exact H].
Qed.

Lemma C3_anchor_rules_witness :
  (1 <= shape0 frame_5x3)%Z /\ (1 <= shape1 frame_5x3)%Z /\
  anchor_rules fillna_str frame_5x3.
Proof.
  split; [shape_lia|].
  split; [shape_lia|].
  apply (C3_anchor_rules frame_5x3); shape_lia.
Defined.

(** C4: on a frame with at least one row and one column both loops finish,
    and row 0, the last row, column 0 and the last column are anchors. *)
Theorem C4_boundary_lines_are_anchors (df : DataFrame) :
  (1 <= shape0 df)%Z -> (1 <= shape1 df)%Z ->
  exists ra ca : gset Z,
    row_anchors df = Ok ra /\ col_anchors df = Ok ca /\
    0%Z ∈ ra /\ (shape0 df - 1)%Z ∈ ra /\ 0%Z ∈ ca /\ (shape1 df - 1)%Z ∈ ca.
Proof.
  intros H0 H1.
  destruct (skeleton_indices_spec df 0 H0 H1)
    as (ra & ca & Hra & Hca & Hr0 & Hrl & Hc0 & Hcl & _).
  exists ra, ca. auto 10.
Qed.

Lemma C4_boundary_lines_are_anchors_witness :
  (1 <= shape0 frame_5x3)%Z /\ (1 <= shape1 frame_5x3)%Z /\
  exists ra ca : gset Z,
    row_anchors frame_5x3 = Ok ra /\ col_anchors frame_5x3 = Ok ca /\
    0%Z ∈ ra /\ (shape0 frame_5x3 - 1)%Z ∈ ra /\
    0%Z ∈ ca /\ (shape1 frame_5x3 - 1)%Z ∈ ca.
Proof.
  split; [shape_lia|].
  split; [shape_lia|].
  apply (C4_boundary_lines_are_anchors frame_5x3);
    shape_lia.
Defined.

(** C5: when the indices to keep are computed at margin [k1], they are also
    computed at every margin [k2 >= k1 >= 0], and every row and column kept
    at [k1] is kept at [k2]. *)
Theorem C5_margin_monotone (df : DataFrame) (k1 k2 : Z) (rows1 cols1 : gset Z) :
  (0 <= k1 <= k2)%Z ->
  skeleton_indices df k1 = Ok (rows1, cols1) ->
  exists rows2 cols2 : gset Z,
    skeleton_indices df k2 = Ok (rows2, cols2) /\
    rows1 ⊆ rows2 /\ cols1 ⊆ cols2.
Proof.
  intros Hk H1. unfold skeleton_indices in *.
  destruct (row_anchors df) as [ra|e]; [|discriminate H1].
  destruct (col_anchors df) as [ca|e]; [|discriminate H1].
  simpl in *. injection H1 as <- <-.
  eexists _, _. split; [reflexivity|].
  split; apply expand_anchors_mono; lia.
Qed.

Lemma C5_margin_monotone_witness :
  (0 <= 0 <= 1)%Z /\
  skeleton_indices frame_5x3 0 = Ok ({[ 0%Z; 4%Z ]}, {[ 0%Z; 1%Z; 2%Z ]}) /\
  exists rows2 cols2 : gset Z,
    skeleton_indices frame_5x3 1 = Ok (rows2, cols2) /\
    ({[ 0%Z; 4%Z ]} : gset Z) ⊆ rows2 /\ ({[ 0%Z; 1%Z; 2%Z ]} : gset Z) ⊆ cols2.
Proof.
  split; [lia|].
  split; [vm_compute; reflexivity|].
  apply (C5_margin_monotone frame_5x3 0 1); [lia | vm_compute; reflexivity].
Defined.

(** C7 as stated fails: with margin [-1] the extraction of a one-cell frame
    raises nothing and returns a frame without rows and columns. *)
Lemma C7_negative_margin_returns :
  extract_structural_skeleton frame_1x1 (-1) = Ok {| columns := []; values := [] |} /\
  ~ raises (extract_structural_skeleton frame_1x1 (-1)).
Proof.
  assert (H : extract_structural_skeleton frame_1x1 (-1)
              = Ok {| columns := []; values := [] |}) by (vm_compute; reflexivity).
  split; [exact H|]. intros (e & He). rewrite H in He. discriminate He.
Qed.

(** C7 (amended): on a frame with at least one row and one column a negative
    margin raises no exception; every range of the expansion is empty, no row
    and no column is kept, and the result is the frame without rows and
    columns. *)
Theorem C7_negative_margin_empty_skeleton (df : DataFrame) (k : Z) :
  (1 <= shape0 df)%Z -> (1 <= shape1 df)%Z -> (k < 0)%Z ->
  skeleton_indices df k = Ok (∅, ∅) /\
  extract_structural_skeleton df k = Ok {| columns := []; values := [] |}.
Proof.
  intros H0 H1 Hk.
  destruct (skeleton_indices_spec df k H0 H1) as (ra & ca & _ & _ & _ & _ & _ & _ & Hsk).
  rewrite !expand_anchors_negative in Hsk by exact Hk.
  split; [exact Hsk|].
  unfold extract_structural_skeleton. rewrite Hsk. reflexivity.
Qed.

Lemma C7_negative_margin_empty_skeleton_witness :
  (1 <= shape0 frame_5x3)%Z /\ (1 <= shape1 frame_5x3)%Z /\ (-2 < 0)%Z /\
  skeleton_indices frame_5x3 (-2) = Ok (∅, ∅) /\
  extract_structural_skeleton frame_5x3 (-2) = Ok {| columns := []; values := [] |}.
Proof.
  split; [shape_lia|]. split; [shape_lia|]. split; [lia|].
  apply (C7_negative_margin_empty_skeleton frame_5x3 (-2)); [shape_lia | shape_lia | lia].
Defined.

(** C10: on a frame with at least one row and one column and for a margin
    [k >= 0], the rows and the columns to keep are computed, contain index 0,
    lie within the bounds of the frame, and the extracted skeleton has one row
    per kept row and one column per kept column, hence at least one of each. *)
Theorem C10_skeleton_nonempty_in_bounds (df : DataFrame) (k : Z) :
  (1 <= shape0 df)%Z -> (1 <= shape1 df)%Z -> (0 <= k)%Z ->
  exists (rows cols : gset Z) (skeleton : DataFrame),
    skeleton_indices df k = Ok (rows, cols) /\
    0%Z ∈ rows /\ 0%Z ∈ cols /\
    (forall r, r ∈ rows -> (0 <= r < shape0 df)%Z) /\
    (forall c, c ∈ cols -> (0 <= c < shape1 df)%Z) /\
    extract_structural_skeleton df k = Ok skeleton /\
    shape0 skeleton = Z.of_nat (size rows) /\
    shape1 skeleton = Z.of_nat (size cols) /\
    (1 <= shape0 skeleton)%Z /\ (1 <= shape1 skeleton)%Z.
Proof.
  intros H0 H1 Hk.
  destruct (skeleton_indices_spec df k H0 H1)
    as (ra & ca & _ & _ & Hr0 & _ & Hc0 & _ & Hsk).
  set (rows := expand_anchors ra (shape0 df) k) in *.
  set (cols := expand_anchors ca (shape1 df) k) in *.
  assert (Hrows0 : 0%Z ∈ rows) by (apply expand_anchors_zero; assumption).
  assert (Hcols0 : 0%Z ∈ cols) by (apply expand_anchors_zero; assumption).
  assert (Hpos : forall s : gset Z, 0%Z ∈ s -> (1 <= Z.of_nat (size s))%Z).
  { intros s Hs. destruct (size s) eqn:Hsize; [|lia].
    apply size_empty_inv in Hsize. apply leibniz_equiv in Hsize. subst s.
    apply elem_of_empty in Hs. contradiction. }
  eexists rows, cols, _.
  split; [exact Hsk|]. split; [exact Hrows0|]. split; [exact Hcols0|].
  split; [intros r; apply expand_anchors_bounds|].
  split; [intros c; apply expand_anchors_bounds|].
  split.
  { unfold extract_structural_skeleton. rewrite Hsk. simpl.
    apply iloc_in_range; apply Forall_forall; intros x Hx;
      apply elem_of_sorted, expand_anchors_bounds in Hx; exact Hx. }
  unfold shape0, shape1, Py.len. simpl.
  rewrite !length_map, !sorted_length. auto.
Qed.

Lemma C10_skeleton_nonempty_in_bounds_witness :
  (1 <= shape0 frame_5x3)%Z /\ (1 <= shape1 frame_5x3)%Z /\ (0 <= 1)%Z /\
  exists (rows cols : gset Z) (skeleton : DataFrame),
    skeleton_indices frame_5x3 1 = Ok (rows, cols) /\
    0%Z ∈ rows /\ 0%Z ∈ cols /\
    (forall r, r ∈ rows -> (0 <= r < shape0 frame_5x3)%Z) /\
    (forall c, c ∈ cols -> (0 <= c < shape1 frame_5x3)%Z) /\
    extract_structural_skeleton frame_5x3 1 = Ok skeleton /\
    shape0 skeleton = Z.of_nat (size rows) /\
    shape1 skeleton = Z.of_nat (size cols) /\
    (1 <= shape0 skeleton)%Z /\ (1 <= shape1 skeleton)%Z.
Proof.
  split; [shape_lia|]. split; [shape_lia|]. split; [lia|].
  apply (C10_skeleton_nonempty_in_bounds frame_5x3 1); [shape_lia | shape_lia | lia].
Defined.

Example skeleton_of_frame_5x3 :
  extract_structural_skeleton frame_5x3 0 =
  Ok {| columns := ["A"; "B"; "C"];
        values := [[Some "Sales"; Some "Q4"; None];
                   [Some "Total"; Some "9"; Some "Extra"]] |}.
Proof. vm_compute. reflexivity. Qed.

(** ** Integers and their decimal form *)

Lemma isdigit_cases (c : ascii) :
  Py.isdigit c = true ->
  Py.isspace_int c = false /\ c <> "-"%char /\ c <> "+"%char /\ c <> "_"%char /\
  c <> ","%char /\ c <> ":"%char.
Proof.
  destruct c as [[] [] [] [] [] [] [] []]; intros H; try discriminate H;
    repeat split; discriminate.
Qed.

Lemma string_of_uint_digits (d : Decimal.uint) :
  str_forall Py.isdigit (NilEmpty.string_of_uint d) = true.
Proof. induction d; simpl; auto. Qed.

Lemma literal_digits_plain (s : string) (b : bool) :
  str_forall Py.isdigit s = true -> (s <> EmptyString \/ b = true) ->
  Py.literal_digits b s = Some s.
Proof.
  revert b. induction s as [|c s IH]; intros b Hs Hb; simpl in *.
  - destruct Hb as [Hb | ->]; [congruence | reflexivity].
  - apply andb_true_iff in Hs as [Hc Hs]. rewrite Hc.
    rewrite IH; auto.
Qed.

Lemma digits_nospace (s : string) :
  str_forall Py.isdigit s = true ->
  str_forall (fun c => negb (Py.isspace_int c)) s = true.
Proof.
  apply str_forall_impl. intros c Hc.
  apply isdigit_cases in Hc as [-> _]. reflexivity.
Qed.

(** A plain string of digits is read as the number it denotes. *)
Lemma int_of_digits (s : string) (d : Decimal.uint) :
  str_forall Py.isdigit s = true ->
  NilZero.uint_of_string s = Some d ->
  Py.int s = Ok (Z.of_uint d).
Proof.
  intros Hs Hd. unfold Py.int.
  rewrite (strip_nospace _ s (digits_nospace s Hs)).
  destruct s as [|c s']; [discriminate Hd|].
  assert (Hbody : (let '(negative, body) :=
                     match String c s' with
                     | String "-" r => (true, r)
                     | String "+" r => (false, r)
                     | _ => (false, String c s')
                     end in (negative, body)) = (false, String c s')).
  { simpl in Hs. apply andb_true_iff in Hs as [Hc _].
    destruct c as [[] [] [] [] [] [] [] []]; try discriminate Hc; reflexivity. }
  destruct (match String c s' with
            | String "-" r => (true, r)
            | String "+" r => (false, r)
            | _ => (false, String c s')
            end) as [negative body].
  injection Hbody as -> ->.
  rewrite literal_digits_plain by (auto; left; discriminate).
  rewrite Hd. reflexivity.
Qed.

Lemma int_of_minus_digits (s : string) (d : Decimal.uint) :
  str_forall Py.isdigit s = true ->
  NilZero.uint_of_string s = Some d ->
  Py.int (String "-" s) = Ok (- Z.of_uint d)%Z.
Proof.
  intros Hs Hd. unfold Py.int.
  rewrite (strip_nospace Py.isspace_int (String "-" s)).
  - destruct s as [|c s']; [discriminate Hd|].
    rewrite literal_digits_plain by (auto; left; discriminate).
    rewrite Hd. reflexivity.
  - simpl. apply digits_nospace, Hs.
Qed.

Lemma str_pos (p : positive) :
  Py.str (Z.pos p) = NilEmpty.string_of_uint (Pos.to_uint p) /\
  NilZero.uint_of_string (Py.str (Z.pos p)) = Some (Pos.to_uint p) /\
  Z.of_uint (Pos.to_uint p) = Z.pos p.
Proof.
  assert (Hnil := DecimalPos.Unsigned.to_uint_nonnil p).
  assert (Hstr : Py.str (Z.pos p) = NilEmpty.string_of_uint (Pos.to_uint p)).
  { unfold Py.str. simpl. destruct (Pos.to_uint p); [congruence|reflexivity..]. }
  split; [exact Hstr|]. split.
  - unfold Py.str. simpl. apply NilZero.usu, Hnil.
  - unfold Z.of_uint. rewrite DecimalPos.Unsigned.of_to. reflexivity.
Qed.

(** [int(str(n)) == n] *)
Lemma int_str (n : Z) : Py.int (Py.str n) = Ok n.
Proof.
  destruct n as [|p|p].
  - reflexivity.
  - destruct (str_pos p) as (Hstr & Hparse & Hval).
    rewrite (int_of_digits _ _ (eq_ind_r (fun s => str_forall Py.isdigit s = true)
                                  (string_of_uint_digits _) Hstr) Hparse).
    rewrite Hval. reflexivity.
  - destruct (str_pos p) as (Hstr & Hparse & Hval).
    change (Py.str (Z.neg p)) with (String "-" (Py.str (Z.pos p))).
    rewrite (int_of_minus_digits _ _
               (eq_ind_r (fun s => str_forall Py.isdigit s = true)
                  (string_of_uint_digits _) Hstr) Hparse).
    rewrite Hval. reflexivity.
Qed.

(** The decimal form of a natural number: digits only, at least one. *)
Lemma str_nonneg (n : Z) :
  (0 <= n)%Z ->
  exists d, str_forall Py.isdigit (Py.str n) = true /\
            NilZero.uint_of_string (Py.str n) = Some d /\ Z.of_uint d = n.
Proof.
  intros Hn. destruct n as [|p|p]; [| |lia].
  - exists (Decimal.D0 Decimal.Nil). repeat split; reflexivity.
  - destruct (str_pos p) as (Hstr & Hparse & Hval).
    exists (Pos.to_uint p). rewrite Hstr at 1.
    split; [apply string_of_uint_digits | auto].
Qed.

Lemma parse_address_of (p : coord) : parse_address (address_of p) = Ok (tuple_of p).
Proof.
  unfold parse_address, address_of, tuple_of. simpl.
  rewrite int_str. reflexivity.
Qed.

(** ** The runs of a list *)

Lemma runs_head (t : ascii * Z * string) (l : list (ascii * Z * string)) :
  exists run rs, runs (t :: l) = (t :: run) :: rs.
Proof.
  simpl. destruct (runs l) as [|[|u run] rs]; eauto.
  destruct (continues t u); eauto.
Qed.

Lemma runs_cons (t u : ascii * Z * string) (l : list (ascii * Z * string)) :
  runs (t :: u :: l) =
  if continues t u
  then match runs (u :: l) with
       | run :: rs => (t :: run) :: rs
       | [] => [[t]]
       end
  else [t] :: runs (u :: l).
Proof.
  destruct (runs_head u l) as (run & rs & H).
  change (runs (t :: u :: l)) with
    (match runs (u :: l) with
     | (u' :: run') :: rs' =>
         if continues t u' then (t :: u' :: run') :: rs' else [t] :: (u' :: run') :: rs'
     | _ => [[t]]
     end).
  rewrite H. reflexivity.
Qed.

Lemma runs_concat (l : list (ascii * Z * string)) : concat (runs l) = l.
Proof.
  induction l as [|t [|u l] IH]; [reflexivity..|].
  rewrite runs_cons. destruct (runs_head u l) as (run & rs & H).
  rewrite H in *. destruct (continues t u); simpl in *; rewrite IH; reflexivity.
Qed.

Lemma runs_are_runs (l : list (ascii * Z * string)) :
  Forall (fun run => is_run run = true /\ run <> []) (runs l).
Proof.
  induction l as [|t [|u l] IH].
  - constructor.
  - repeat constructor. discriminate.
  - rewrite runs_cons. destruct (runs_head u l) as (run & rs & H).
    rewrite H in *. apply Forall_cons in IH as [[Hrun _] Hrs].
    destruct (continues t u) eqn:Htu.
    + constructor; [|exact Hrs]. split; [|discriminate].
      change (is_run (t :: u :: run)) with (continues t u && is_run (u :: run)).
      rewrite Htu, Hrun. reflexivity.
    + constructor; [split; [reflexivity | discriminate]|].
      constructor; [split; [exact Hrun | discriminate] | exact Hrs].
Qed.

Lemma runs_maximal (l : list (ascii * Z * string)) : maximal_runs (runs l) = true.
Proof.
  induction l as [|t [|u l] IH]; [reflexivity..|].
  rewrite runs_cons. destruct (runs_head u l) as (run & rs & H).
  rewrite H in *. destruct (continues t u) eqn:Htu.
  - destruct rs as [|r2 rs]; [reflexivity|].
    change (maximal_runs ((t :: u :: run) :: r2 :: rs)) with
      (match last (t :: u :: run), head r2 with
       | Some a, Some b => negb (continues a b) && maximal_runs (r2 :: rs)
       | _, _ => false
       end).
    change (maximal_runs ((u :: run) :: r2 :: rs)) with
      (match last (u :: run), head r2 with
       | Some a, Some b => negb (continues a b) && maximal_runs (r2 :: rs)
       | _, _ => false
       end) in IH.
    change (last (t :: u :: run)) with (last (u :: run)). exact IH.
  - change (maximal_runs ([t] :: (u :: run) :: rs)) with
      (negb (continues t u) && maximal_runs ((u :: run) :: rs)).
    rewrite Htu, IH. reflexivity.
Qed.

(** In a run the rows grow by one from each element to the next. *)
Lemma run_last_row (run : list (ascii * Z * string)) (t x : ascii * Z * string) :
  is_run (t :: run) = true -> last (t :: run) = Some x ->
  x.1.1 = t.1.1 /\ x.1.2 = (t.1.2 + Z.of_nat (length run))%Z.
Proof.
  revert t. induction run as [|u run IH]; intros t Hrun Hlast.
  - injection Hlast as <-. simpl. split; [reflexivity | lia].
  - change (is_run (t :: u :: run)) with (continues t u && is_run (u :: run)) in Hrun.
    apply andb_true_iff in Hrun as [Htu Hrun].
    change (last (t :: u :: run)) with (last (u :: run)) in Hlast.
    destruct (IH u Hrun Hlast) as [Hcol Hrow].
    unfold continues in Htu. apply andb_true_iff in Htu as [Hc Hr].
    apply bool_decide_eq_true in Hc. apply Z.eqb_eq in Hr.
    simpl length. split; [congruence | lia].
Qed.

(** ** The sweep *)

Lemma parse_address_consistent (addr : string) (t : ascii * Z * string) :
  parse_address addr = Ok t -> consistent t /\ t.2 = addr.
Proof.
  unfold parse_address. intros H.
  apply bind_Ok in H as (col & Hcol & H).
  apply bind_Ok in H as (row & Hrow & H).
  injection H as <-. simpl. split; [|reflexivity].
  split; [|exact Hrow]. destruct addr; [discriminate Hcol | discriminate].
Qed.

Lemma mapM_parse_consistent (addresses : list string)
      (parsed : list (ascii * Z * string)) :
  mapM_r parse_address addresses = Ok parsed ->
  Forall consistent parsed /\ map snd parsed = addresses.
Proof.
  revert parsed. induction addresses as [|a l IH]; intros parsed H; simpl in H.
  - injection H as <-. split; [constructor | reflexivity].
  - apply bind_Ok in H as (t & Ht & H).
    apply bind_Ok in H as (ts & Hts & H). injection H as <-.
    destruct (parse_address_consistent a t Ht) as [Hc Ha].
    destruct (IH ts Hts) as [Hcs Has].
    split; [constructor; assumption|]. simpl. rewrite Ha, Has. reflexivity.
Qed.

Lemma flush_current (st : sweep) (sa : string) :
  sa <> EmptyString -> current_range_start st = Some sa ->
  flush st = (ranges st ++ [render_range sa (current_range_end st)])%list.
Proof.
  intros Hne Hs. unfold flush. rewrite Hs.
  destruct sa; [congruence | reflexivity].
Qed.

Lemma default_last_cons {A} (a b : A) (l : list A) :
  default a (last (b :: l)) = default b (last l).
Proof. rewrite last_cons. destruct (last l); reflexivity. Qed.

Lemma sweep_step_eq (st : sweep) (t : ascii * Z * string) :
  sweep_step st t =
  if negb (bool_decide (current_col st = Some t.1.1)) then
    Ok {| ranges := flush st;
          current_range_start := Some t.2;
          current_range_end := Some t.2;
          current_col := Some t.1.1 |}
  else
    match current_range_start st, current_range_end st with
    | Some s, Some e =>
        prev_row ← Py.int (Py.tail e);
        if (t.1.2 =? prev_row + 1)%Z then
          Ok {| ranges := ranges st;
                current_range_start := Some s;
                current_range_end := Some t.2;
                current_col := current_col st |}
        else
          Ok {| ranges := (ranges st ++ [render_range s (Some e)])%list;
                current_range_start := Some t.2;
                current_range_end := Some t.2;
                current_col := current_col st |}
    | _, _ => Raise TypeError
    end.
Proof. destruct t as [[col row] addr]. reflexivity. Qed.

Lemma sweep_runs (l : list (ascii * Z * string)) :
  forall (st : sweep) (sa : string) (e : ascii * Z * string),
    Forall consistent (e :: l) -> sa <> EmptyString ->
    current_range_start st = Some sa ->
    current_range_end st = Some e.2 ->
    current_col st = Some e.1.1 ->
    exists st',
      foldM sweep_step l st = Ok st' /\
      flush st' =
      (ranges st ++
       match runs (e :: l) with
       | run :: rs => render_range sa (Some (default e (last run)).2) :: map render_run rs
       | [] => []
       end)%list.
Proof.
  induction l as [|t l IH]; intros st sa e Hcons Hsa Hstart Hend Hcol.
  - exists st. split; [reflexivity|].
    rewrite (flush_current st sa Hsa Hstart), Hend. reflexivity.
  - apply Forall_cons in Hcons as [He Hcons].
    pose proof Hcons as Hcons'. apply Forall_cons in Hcons' as [Ht _].
    destruct (runs_head t l) as (run & rs & Hruns).
    assert (Hfresh : forall st1,
               ranges st1 = (ranges st ++ [render_range sa (Some e.2)])%list ->
               current_range_start st1 = Some t.2 ->
               current_range_end st1 = Some t.2 ->
               current_col st1 = Some t.1.1 ->
               exists st',
                 foldM sweep_step l st1 = Ok st' /\
                 flush st' =
                 (ranges st ++
                  render_range sa (Some e.2) :: map render_run (runs (t :: l)))%list).
    { intros st1 Hr1 Hs1 He1 Hc1.
      destruct (IH st1 t.2 t Hcons (proj1 Ht) Hs1 He1 Hc1) as (st' & Hfold & Hflush).
      exists st'. split; [exact Hfold|].
      rewrite Hflush, Hr1, Hruns, <- app_assoc. reflexivity. }
    rewrite runs_cons. cbn [foldM]. rewrite sweep_step_eq, Hcol.
    unfold continues.
    destruct (decide (e.1.1 = t.1.1)) as [Hsame|Hdiff].
    + rewrite (bool_decide_eq_true_2 (Some e.1.1 = Some t.1.1)) by congruence.
      rewrite (bool_decide_eq_true_2 (e.1.1 = t.1.1)) by exact Hsame.
      cbn [negb andb]. rewrite Hstart, Hend, (proj2 He).
      cbn [mbind result_bind].
      destruct (Z.eqb_spec t.1.2 (e.1.2 + 1)) as [Hnext|Hgap].
      * destruct (IH {| ranges := ranges st; current_range_start := Some sa;
                        current_range_end := Some t.2;
                        current_col := Some e.1.1 |} sa t
                    Hcons Hsa eq_refl eq_refl) as (st' & Hfold & Hflush).
        { cbn [current_col]. congruence. }
        exists st'. split; [exact Hfold|].
        rewrite Hflush. cbn [ranges]. rewrite Hruns, !default_last_cons. reflexivity.
      * apply Hfresh; cbn [ranges current_range_start current_range_end current_col];
          congruence.
    + rewrite (bool_decide_eq_false_2 (Some e.1.1 = Some t.1.1)) by congruence.
      rewrite (bool_decide_eq_false_2 (e.1.1 = t.1.1)) by exact Hdiff.
      cbn [negb andb mbind result_bind].
      apply Hfresh; cbn [ranges current_range_start current_range_end current_col];
        try reflexivity.
      rewrite (flush_current st sa Hsa Hstart), Hend. reflexivity.
Qed.

Lemma render_run_show (run : list (ascii * Z * string)) :
  Forall consistent run -> is_run run = true -> render_run run = show_run run.
Proof.
  destruct run as [|t [|u r]]; intros Hcons Hrun.
  - reflexivity.
  - simpl. rewrite String.eqb_refl. reflexivity.
  - unfold render_run, show_run, render_range. rewrite default_last_cons.
    destruct (last_is_Some (t :: u :: r)) as [_ Hsome].
    destruct Hsome as [x Hx]; [discriminate|].
    assert (Hxd : default t (last (u :: r)) = x).
    { rewrite <- (default_last_cons t t), Hx. reflexivity. }
    rewrite Hxd.
    destruct (run_last_row (u :: r) t x Hrun Hx) as [_ Hrow].
    assert (Hxin : x ∈ t :: u :: r) by (apply last_Some_elem_of, Hx).
    rewrite Forall_forall in Hcons.
    pose proof (Hcons t (list_elem_of_here _ _)) as [_ Htrow].
    pose proof (Hcons x Hxin) as [_ Hxrow].
    destruct (String.eqb_spec t.2 x.2) as [Heq|_]; [|reflexivity].
    rewrite Heq, Hxrow in Htrow. injection Htrow as Htrow.
    simpl length in Hrow. lia.
Qed.

Lemma sort_parsed_perm (parsed : list (ascii * Z * string)) :
  sort_parsed parsed ≡ₚ parsed.
Proof. apply merge_sort_Permutation. Qed.

(** The order of the tuples is the lexicographic one: by the code of the
    column character, then by the row, then by the address. *)
Lemma tuple_le_spec (x y : ascii * Z * string) :
  tuple_le x y <->
  (Py.code x.1.1 < Py.code y.1.1)%N \/
  (x.1.1 = y.1.1 /\ ((x.1.2 < y.1.2)%Z \/ (x.1.2 = y.1.2 /\ String.le x.2 y.2))).
Proof.
  destruct x as [[c1 r1] a1], y as [[c2 r2] a2].
  unfold tuple_le, tuple_leb, String.le, Py.code. cbn [fst snd].
  destruct (Ascii.compare c1 c2) eqn:Hc.
  - apply Ascii.compare_eq_iff in Hc as ->.
    destruct (Z.compare_spec r1 r2) as [->|Hlt|Hgt]; simpl.
    + split; [auto|]. intros [H|(_ & [H|[_ H]])]; [lia | lia | exact H].
    + split; [auto|]. intros _. exact I.
    + split; [contradiction|]. intros [H|(_ & [H|[H _]])]; lia.
  - unfold Ascii.compare in Hc. apply N.compare_lt_iff in Hc. simpl. tauto.
  - unfold Ascii.compare in Hc. apply N.compare_gt_iff in Hc. simpl.
    split; [contradiction|]. intros [H|[-> _]]; lia.
Qed.

Lemma code_inj (a b : ascii) : Py.code a = Py.code b -> a = b.
Proof.
  unfold Py.code. intros H.
  rewrite <- (ascii_N_embedding a), <- (ascii_N_embedding b), H. reflexivity.
Qed.

Global Instance tuple_le_total : Total tuple_le.
Proof.
  intros x y. rewrite !tuple_le_spec.
  destruct (N.lt_trichotomy (Py.code x.1.1) (Py.code y.1.1)) as [H|[H|H]]; auto.
  apply code_inj in H.
  destruct (Z.lt_trichotomy x.1.2 y.1.2) as [Hr|[Hr|Hr]]; auto.
  destruct (total String.le x.2 y.2); auto 10.
Qed.

Global Instance tuple_le_trans : Transitive tuple_le.
Proof.
  intros [[c1 r1] a1] [[c2 r2] a2] [[c3 r3] a3]. rewrite !tuple_le_spec.
  cbn [fst snd].
  intros [H1|(-> & [Hr1|(-> & Ha1)])] [H2|(-> & [Hr2|(-> & Ha2)])];
    first [ left; lia
          | right; split; [reflexivity|];
            first [ left; lia
                  | right; split; [reflexivity|]; etrans; eassumption ] ].
Qed.

Global Instance tuple_le_antisym : AntiSymm (=) tuple_le.
Proof.
  intros [[c1 r1] a1] [[c2 r2] a2]. rewrite !tuple_le_spec. cbn [fst snd].
  intros [H1|(-> & [Hr1|(-> & Ha1)])] [H2|(Hc2 & [Hr2|(Hr2 & Ha2)])];
    try lia; try (subst; lia).
  f_equal. apply (anti_symm String.le); assumption.
Qed.

(** The list that [parsed.sort()] leaves is sorted, and it is the only
    sorted arrangement of the tuples: the result does not depend on the
    sorting algorithm. *)
Lemma sort_parsed_sorted (parsed : list (ascii * Z * string)) :
  Sorted tuple_le (sort_parsed parsed).
Proof. apply Sorted_merge_sort, _. Qed.

Lemma sort_parsed_unique (parsed l : list (ascii * Z * string)) :
  l ≡ₚ parsed -> Sorted tuple_le l -> l = sort_parsed parsed.
Proof.
  intros Hperm Hsorted. apply (Sorted_unique tuple_le); [exact Hsorted| |].
  - apply sort_parsed_sorted.
  - rewrite Hperm. symmetry. apply sort_parsed_perm.
Qed.

(** The result of [merge_cell_ranges] on addresses that parse: the runs of
    the sorted tuples, each written by [show_run], joined by commas. *)
Lemma merge_cell_ranges_runs (addresses : list string)
      (parsed : list (ascii * Z * string)) :
  addresses <> [] ->
  mapM_r parse_address addresses = Ok parsed ->
  merge_cell_ranges addresses =
  Ok (String.concat "," (map show_run (runs (sort_parsed parsed)))).
Proof.
  intros Hne Hparsed. unfold merge_cell_ranges.
  destruct addresses as [|a addresses]; [congruence|].
  rewrite Hparsed. cbn [mbind result_bind].
  destruct (mapM_parse_consistent _ _ Hparsed) as [Hcons _].
  rewrite <- (sort_parsed_perm parsed) in Hcons.
  assert (Hlen : length (sort_parsed parsed) = length parsed)
    by (rewrite (sort_parsed_perm parsed); reflexivity).
  destruct (sort_parsed parsed) as [|t l] eqn:Hsorted.
  { destruct parsed; [|discriminate Hlen].
    simpl in Hparsed. apply bind_Ok in Hparsed as (? & _ & H).
    apply bind_Ok in H as (? & _ & H). discriminate H. }
  cbn [foldM]. rewrite sweep_step_eq.
  cbn [sweep_init current_col bool_decide negb mbind result_bind].
  rewrite (bool_decide_eq_false_2 (None = Some t.1.1)) by discriminate.
  cbn [negb mbind result_bind].
  pose proof Hcons as Hcons'. apply Forall_cons in Hcons' as [[Hta _] _].
  destruct (sweep_runs l {| ranges := flush sweep_init;
                            current_range_start := Some t.2;
                            current_range_end := Some t.2;
                            current_col := Some t.1.1 |} t.2 t
              Hcons Hta eq_refl eq_refl eq_refl) as (st' & Hfold & Hflush).
  rewrite Hfold. cbn [mbind result_bind]. rewrite Hflush.
  destruct (runs_head t l) as (run & rs & Hruns).
  cbn [ranges flush sweep_init current_range_start app].
  assert (Hall : Forall (fun r => render_run r = show_run r) (runs (t :: l))).
  { pose proof (runs_are_runs (t :: l)) as Hruns_ok.
    assert (Hin : Forall (Forall consistent) (runs (t :: l))).
    { apply Forall_concat. rewrite runs_concat. exact Hcons. }
    rewrite Forall_forall in *. intros r Hr.
    apply render_run_show; [apply Hin, Hr | apply Hruns_ok, Hr]. }
  rewrite Hruns in *. apply Forall_cons in Hall as [Hrun Hrs].
  do 2 f_equal. cbn [map]. f_equal.
  - exact Hrun.
  - apply Forall_fmap_ext, Hrs.
Qed.

(** C2: on addresses that parse, the output joins with commas the runs of the
    sorted tuples: the runs partition the sorted list in order, neighbours
    inside a run are in the same column with consecutive rows, and the last
    element of a run is never continued by the first of the next; a run of
    one address is written alone and a longer one as first:last.  Whatever
    the order of the input, A1, A2, A3, A5 give A1:A3,A5 and A1, B1, A2 give
    A1:A2,B1. *)
Theorem C2_runs_same_column_consecutive_rows :
  (forall (addresses : list string) (parsed : list (ascii * Z * string)),
     addresses <> [] ->
     mapM_r parse_address addresses = Ok parsed ->
     merge_cell_ranges addresses =
       Ok (String.concat "," (map show_run (runs (sort_parsed parsed)))) /\
     concat (runs (sort_parsed parsed)) = sort_parsed parsed /\
     Forall (fun run => is_run run = true /\ run <> []) (runs (sort_parsed parsed)) /\
     maximal_runs (runs (sort_parsed parsed)) = true) /\
  (forall addresses : list string,
     addresses ≡ₚ ["A1"; "A2"; "A3"; "A5"] ->
     merge_cell_ranges addresses = Ok "A1:A3,A5") /\
  (forall addresses : list string,
     addresses ≡ₚ ["A1"; "B1"; "A2"] ->
     merge_cell_ranges addresses = Ok "A1:A2,B1").
Proof.
  split; [|split].
  - intros addresses parsed Hne Hparsed.
    split; [apply merge_cell_ranges_runs; assumption|].
    split; [apply runs_concat|].
    split; [apply runs_are_runs | apply runs_maximal].
  - intros addresses Hperm. symmetry in Hperm.
    apply permutations_Permutation in Hperm. revert addresses Hperm.
    apply Forall_forall. forall_by_computation.
  - intros addresses Hperm. symmetry in Hperm.
    apply permutations_Permutation in Hperm. revert addresses Hperm.
    apply Forall_forall. forall_by_computation.
Qed.

Lemma C2_runs_same_column_consecutive_rows_witness :
  merge_cell_ranges ["A3"; "B7"; "A2"; "B5"] =
    Ok (String.concat ","
          (map show_run
             (runs (sort_parsed [("A"%char, 3%Z, "A3"); ("B"%char, 7%Z, "B7");
                                 ("A"%char, 2%Z, "A2"); ("B"%char, 5%Z, "B5")])))) /\
  merge_cell_ranges ["A1"; "A2"; "A3"; "A5"] = Ok "A1:A3,A5" /\
  merge_cell_ranges ["A1"; "B1"; "A2"] = Ok "A1:A2,B1".
Proof.
  destruct C2_runs_same_column_consecutive_rows as (Hruns & Hgap & Hcolumns).
  split; [|split].
  - apply (Hruns ["A3"; "B7"; "A2"; "B5"]); [discriminate | vm_compute; reflexivity].
  - apply Hgap. reflexivity.
  - apply Hcolumns. reflexivity.
Defined.

Example merge_demo_runs :
  merge_cell_ranges ["A3"; "B7"; "A2"; "B5"] = Ok "A2:A3,B5,B7".
Proof. vm_compute. reflexivity. Qed.

(** ** Reading an entry back *)

Lemma append_cons (c : ascii) (s t : string) : String c s ++ t = String c (s ++ t).
Proof. reflexivity. Qed.

Lemma append_nil_r (s : string) : s ++ "" = s.
Proof. induction s as [|c s IH]; [reflexivity|]. rewrite append_cons, IH. reflexivity. Qed.

Lemma append_assoc (s t u : string) : (s ++ t) ++ u = s ++ (t ++ u).
Proof.
  induction s as [|c s IH]; [reflexivity|]. rewrite !append_cons, IH. reflexivity.
Qed.

Lemma append_length (s t : string) :
  String.length (s ++ t) = (String.length s + String.length t)%nat.
Proof.
  induction s as [|c s IH]; [reflexivity|]. rewrite append_cons. simpl. rewrite IH.
  reflexivity.
Qed.

Lemma concat_cons (sep x : string) (l : list string) :
  l <> [] -> String.concat sep (x :: l) = x ++ sep ++ String.concat sep l.
Proof. destruct l; [congruence | reflexivity]. Qed.

Lemma take_digits_app (ds rest : string) :
  str_forall Py.isdigit ds = true -> no_digit_head rest ->
  take_digits (ds ++ rest) = (ds, rest).
Proof.
  intros Hds Hrest. induction ds as [|c ds IH].
  - destruct rest as [|c r]; [reflexivity|]. simpl in *. rewrite Hrest. reflexivity.
  - simpl in Hds. apply andb_true_iff in Hds as [Hc Hds].
    rewrite append_cons. simpl. rewrite Hc, (IH Hds). reflexivity.
Qed.

Lemma read_address_of (p : coord) (rest : string) :
  (0 <= p.2)%Z -> no_digit_head rest ->
  read_address (address_of p ++ rest) = Some (p, rest).
Proof.
  intros Hp Hrest. destruct p as [col row]. simpl in Hp.
  destruct (str_nonneg row Hp) as (d & Hdigits & Hparse & Hval).
  unfold address_of. rewrite append_cons. simpl.
  rewrite (take_digits_app _ _ Hdigits Hrest), Hparse, Hval. reflexivity.
Qed.

Lemma column_span_cons (col : ascii) (lo hi : Z) :
  (lo <= hi)%Z -> column_span col lo hi = (col, lo) :: column_span col (lo + 1) hi.
Proof. intros H. unfold column_span. rewrite range_cons by lia. reflexivity. Qed.

Lemma column_span_one (col : ascii) (lo : Z) : column_span col lo lo = [(col, lo)].
Proof.
  rewrite column_span_cons by lia. unfold column_span.
  rewrite range_nil by lia. reflexivity.
Qed.

Lemma run_span (run : list (ascii * Z * string)) (t : ascii * Z * string) :
  is_run (t :: run) = true ->
  map coord_of (t :: run) =
  column_span t.1.1 t.1.2 (t.1.2 + Z.of_nat (length run)).
Proof.
  revert t. induction run as [|u run IH]; intros t Hrun.
  - simpl length. rewrite Z.add_0_r, column_span_one. reflexivity.
  - change (is_run (t :: u :: run)) with (continues t u && is_run (u :: run)) in Hrun.
    apply andb_true_iff in Hrun as [Htu Hrun].
    unfold continues in Htu. apply andb_true_iff in Htu as [Hc Hr].
    apply bool_decide_eq_true in Hc. apply Z.eqb_eq in Hr.
    change (map coord_of (t :: u :: run)) with (coord_of t :: map coord_of (u :: run)).
    rewrite (IH u Hrun), (column_span_cons t.1.1 t.1.2) by (simpl length; lia).
    rewrite <- Hc, Hr. simpl length. unfold coord_of.
    do 2 f_equal. lia.
Qed.

Lemma canonical_address (t : ascii * Z * string) :
  canonical t -> t.2 = address_of (coord_of t) /\ (0 <= (coord_of t).2)%Z.
Proof. intros [Hrow Ht]. split; [rewrite Ht at 1; reflexivity | exact Hrow]. Qed.

(** The descriptor of a good run, followed by the end of the entry or by a
    comma, expands to the coordinates of the run. *)
Lemma expand_good_run (run : list (ascii * Z * string)) (fuel : nat) (more : string) :
  good_run run ->
  expand (S fuel) (show_run run) = Some (map coord_of run) /\
  expand (S fuel) (show_run run ++ "," ++ more) =
    app (map coord_of run) <$> expand fuel more.
Proof.
  intros (Hne & Hrun & Hcan).
  destruct run as [|t [|u r]]; [congruence| |].
  - apply Forall_cons in Hcan as [Ht _].
    destruct (canonical_address t Ht) as [Haddr Hrow].
    cbn [show_run map]. rewrite Haddr. split.
    + cbn [expand]. rewrite <- (append_nil_r (address_of _)).
      rewrite read_address_of by (auto; exact I). reflexivity.
    + cbn [expand]. rewrite read_address_of by (auto; reflexivity).
      reflexivity.
  - destruct (last_is_Some (t :: u :: r)) as [_ Hsome].
    destruct Hsome as [x Hx]; [discriminate|].
    assert (Hxd : default t (last (u :: r)) = x).
    { rewrite <- (default_last_cons t t), Hx. reflexivity. }
    destruct (run_last_row (u :: r) t x Hrun Hx) as [Hcol Hrowx].
    assert (Hxin : x ∈ t :: u :: r) by (apply last_Some_elem_of, Hx).
    rewrite Forall_forall in Hcan.
    destruct (canonical_address t (Hcan t (list_elem_of_here _ _))) as [Haddr Hrow].
    destruct (canonical_address x (Hcan x Hxin)) as [Haddrx Hrowx0].
    assert (Hspan : column_span (coord_of t).1 (coord_of t).2 (coord_of x).2
                    = map coord_of (t :: u :: r)).
    { rewrite (run_span (u :: r) t Hrun). unfold coord_of. simpl fst. simpl snd.
      rewrite Hrowx. reflexivity. }
    unfold show_run. rewrite Hxd, Haddr, Haddrx. split.
    + cbn [expand]. rewrite read_address_of by (auto; reflexivity).
      rewrite <- (append_nil_r (address_of (coord_of x))).
      change (":" ++ address_of (coord_of x) ++ "")
        with (String ":" (address_of (coord_of x) ++ "")).
      cbv beta iota.
      rewrite read_address_of by (auto; exact I).
      rewrite bool_decide_eq_true_2 by (unfold coord_of; simpl; congruence).
      rewrite Hspan. reflexivity.
    + rewrite !append_assoc. cbn [expand].
      rewrite read_address_of by (auto; reflexivity).
      change (":" ++ address_of (coord_of x) ++ "," ++ more)
        with (String ":" (address_of (coord_of x) ++ String "," more)).
      cbv beta iota.
      rewrite read_address_of by (auto; reflexivity).
      rewrite bool_decide_eq_true_2 by (unfold coord_of; simpl; congruence).
      rewrite Hspan. reflexivity.
Qed.

Lemma expand_runs (rs : list (list (ascii * Z * string))) :
  Forall good_run rs -> rs <> [] ->
  forall fuel, (length rs <= fuel)%nat ->
    expand fuel (String.concat "," (map show_run rs)) =
    Some (concat (map (map coord_of) rs)).
Proof.
  induction rs as [|run rs IH]; intros Hgood Hne fuel Hfuel; [congruence|].
  apply Forall_cons in Hgood as [Hrun Hgood].
  destruct fuel as [|fuel]; [simpl in Hfuel; lia|].
  destruct rs as [|run' rs].
  - cbn [map String.concat concat]. rewrite app_nil_r.
    apply (expand_good_run run fuel ""), Hrun.
  - change (map show_run (run :: run' :: rs))
      with (show_run run :: map show_run (run' :: rs)).
    rewrite concat_cons by discriminate.
    rewrite (proj2 (expand_good_run run fuel _ Hrun)).
    rewrite IH; [reflexivity | exact Hgood | discriminate | simpl in *; lia].
Qed.

Lemma show_run_length (run : list (ascii * Z * string)) :
  good_run run -> (1 <= String.length (show_run run))%nat.
Proof.
  intros (Hne & _ & Hcan). destruct run as [|t run]; [congruence|].
  apply Forall_cons in Hcan as [Ht _].
  destruct (canonical_address t Ht) as [Haddr _].
  unfold show_run. rewrite Haddr.
  destruct run; [|rewrite append_length]; simpl; lia.
Qed.

Lemma concat_runs_length (rs : list (list (ascii * Z * string))) :
  Forall good_run rs ->
  (length rs <= String.length (String.concat "," (map show_run rs)))%nat.
Proof.
  induction 1 as [|run rs Hrun _ IH]; [simpl; lia|].
  pose proof (show_run_length run Hrun) as Hlen.
  destruct rs as [|run' rs]; [simpl in *; lia|].
  change (map show_run (run :: run' :: rs))
    with (show_run run :: map show_run (run' :: rs)).
  rewrite concat_cons by discriminate.
  rewrite !append_length. simpl in *. lia.
Qed.

Lemma expand_ranges_runs (rs : list (list (ascii * Z * string))) :
  Forall good_run rs -> rs <> [] ->
  expand_ranges (String.concat "," (map show_run rs)) =
  Some (concat (map (map coord_of) rs)).
Proof.
  intros Hgood Hne.
  pose proof (concat_runs_length rs Hgood) as Hlen.
  pose proof (expand_runs rs Hgood Hne _ Hlen) as Hexp.
  unfold expand_ranges.
  destruct (String.concat "," (map show_run rs)) eqn:Hs; [|exact Hexp].
  destruct rs; [congruence | simpl in Hlen; lia].
Qed.

Lemma coord_of_tuple_of (p : coord) : coord_of (tuple_of p) = p.
Proof. destruct p. reflexivity. Qed.

Lemma tuple_of_canonical (p : coord) : (0 <= p.2)%Z -> canonical (tuple_of p).
Proof. intros Hp. split; [exact Hp | rewrite coord_of_tuple_of; reflexivity]. Qed.

(** On the addresses of coordinates whose rows are not negative,
    [merge_cell_ranges] returns an entry that expands to the same
    coordinates, each as often as it occurs in the input. *)
Lemma merge_cell_ranges_covers (coords : list coord) :
  coords <> [] -> Forall (fun p => (0 <= p.2)%Z) coords ->
  exists s cs,
    merge_cell_ranges (map address_of coords) = Ok s /\
    expand_ranges s = Some cs /\ cs ≡ₚ coords.
Proof.
  intros Hne Hrows.
  assert (Hparsed : mapM_r parse_address (map address_of coords)
                    = Ok (map tuple_of coords)).
  { clear. induction coords as [|p coords IH]; [reflexivity|].
    cbn [map mapM_r]. rewrite parse_address_of, IH. reflexivity. }
  set (sorted := sort_parsed (map tuple_of coords)).
  assert (Hperm : sorted ≡ₚ map tuple_of coords) by apply sort_parsed_perm.
  assert (Hcan : Forall canonical sorted).
  { rewrite Hperm. apply Forall_fmap. eapply Forall_impl; [exact Hrows|].
    intros p Hp. apply tuple_of_canonical, Hp. }
  assert (Hgood : Forall good_run (runs sorted)).
  { pose proof (runs_are_runs sorted) as Hruns.
    assert (Hin : Forall (Forall canonical) (runs sorted)).
    { apply Forall_concat. rewrite runs_concat. exact Hcan. }
    rewrite Forall_forall in *. intros r Hr.
    destruct (Hruns r Hr) as [H1 H2]. split; [exact H2|]. split; [exact H1|].
    apply Hin, Hr. }
  exists (String.concat "," (map show_run (runs sorted))),
         (concat (map (map coord_of) (runs sorted))).
  split; [|split].
  - apply merge_cell_ranges_runs; [|exact Hparsed].
    destruct coords; [congruence | discriminate].
  - apply expand_ranges_runs; [exact Hgood|].
    intros Hnil. pose proof (runs_concat sorted) as Hc. rewrite Hnil in Hc.
    simpl in Hc. rewrite <- Hc in Hperm. apply Permutation_nil_l in Hperm.
    destruct coords; [congruence | discriminate].
  - rewrite <- concat_map, runs_concat, Hperm, map_map.
    erewrite map_ext; [rewrite map_id; reflexivity|].
    intros p. apply coord_of_tuple_of.
Qed.

Lemma address_of_inj (p q : coord) : address_of p = address_of q -> p = q.
Proof.
  destruct p as [c n], q as [c' n']. unfold address_of. simpl.
  intros [= -> Hstr]. f_equal.
  pose proof (int_str n) as Hn. rewrite Hstr, int_str in Hn. congruence.
Qed.

Lemma remove_dups_NoDup {A} `{EqDecision A} (l : list A) :
  NoDup l -> remove_dups l = l.
Proof.
  induction 1 as [|x l Hx _ IH]; simpl; [reflexivity|].
  case_decide; [contradiction|]. rewrite IH. reflexivity.
Qed.

(** C6 as stated fails on [A1, A1, A2]: the second A1 starts a run of its
    own, so the output differs from the one of [A1, A2] and covers A1 twice. *)
Lemma C6_duplicate_starts_new_run :
  merge_cell_ranges ["A1"; "A1"; "A2"] = Ok "A1,A1:A2" /\
  merge_cell_ranges (remove_dups ["A1"; "A1"; "A2"]) = Ok "A1:A2" /\
  expand_ranges "A1,A1:A2" = Some [("A"%char, 1%Z); ("A"%char, 1%Z); ("A"%char, 2%Z)] /\
  ~ deduplicating ["A1"; "A1"; "A2"].
Proof.
  assert (H1 : merge_cell_ranges ["A1"; "A1"; "A2"] = Ok "A1,A1:A2")
    by (vm_compute; reflexivity).
  assert (H2 : merge_cell_ranges (remove_dups ["A1"; "A1"; "A2"]) = Ok "A1:A2")
    by (vm_compute; reflexivity).
  split; [exact H1|]. split; [exact H2|]. split; [vm_compute; reflexivity|].
  intros [Heq _]. rewrite H1, H2 in Heq. discriminate Heq.
Qed.

(** C6 (amended): [merge_cell_ranges] does not de-duplicate.  On the
    addresses of coordinates with rows that are not negative it returns an
    entry whose ranges cover every coordinate exactly as often as the input
    lists it; so for pairwise distinct coordinates no coordinate is covered
    twice and the input is its own de-duplication, while [A1, A1, A2] gives
    A1,A1:A2. *)
Theorem C6_ranges_cover_input_with_multiplicity :
  (forall coords : list coord,
     Forall (fun p => (0 <= p.2)%Z) coords ->
     exists s cs,
       merge_cell_ranges (map address_of coords) = Ok s /\
       expand_ranges s = Some cs /\ cs ≡ₚ coords /\
       (NoDup coords ->
        NoDup cs /\ remove_dups (map address_of coords) = map address_of coords)) /\
  merge_cell_ranges ["A1"; "A1"; "A2"] = Ok "A1,A1:A2".
Proof.
  split; [|vm_compute; reflexivity].
  intros coords Hrows.
  assert (Hcover : exists s cs,
             merge_cell_ranges (map address_of coords) = Ok s /\
             expand_ranges s = Some cs /\ cs ≡ₚ coords).
  { destruct coords as [|p coords].
    - exists EmptyString, []. repeat split; reflexivity.
    - apply merge_cell_ranges_covers; [discriminate | exact Hrows]. }
  destruct Hcover as (s & cs & Hmerge & Hexpand & Hperm).
  exists s, cs. repeat (split; [assumption|]).
  intros Hnodup. split; [rewrite Hperm; exact Hnodup|].
  apply remove_dups_NoDup, NoDup_fmap_2_strong; [|exact Hnodup].
  intros p q _ _. apply address_of_inj.
Qed.

Lemma C6_ranges_cover_input_with_multiplicity_witness :
  Forall (fun p : coord => (0 <= p.2)%Z)
    [("A"%char, 2%Z); ("C"%char, 4%Z); ("A"%char, 1%Z); ("C"%char, 4%Z)] /\
  exists s cs,
    merge_cell_ranges
      (map address_of [("A"%char, 2%Z); ("C"%char, 4%Z); ("A"%char, 1%Z); ("C"%char, 4%Z)])
      = Ok s /\
    expand_ranges s = Some cs /\
    cs ≡ₚ [("A"%char, 2%Z); ("C"%char, 4%Z); ("A"%char, 1%Z); ("C"%char, 4%Z)].
Proof.
  assert (Hrows : Forall (fun p : coord => (0 <= p.2)%Z)
            [("A"%char, 2%Z); ("C"%char, 4%Z); ("A"%char, 1%Z); ("C"%char, 4%Z)]).
  { repeat (apply Forall_cons_2; [simpl; lia|]). apply Forall_nil_2. }
  split; [exact Hrows|].
  destruct (proj1 C6_ranges_cover_input_with_multiplicity _ Hrows)
    as (s & cs & Hmerge & Hexpand & Hperm & _).
  exists s, cs. auto.
Defined.

Example merge_demo_duplicates :
  merge_cell_ranges
    (map address_of [("A"%char, 2%Z); ("C"%char, 4%Z); ("A"%char, 1%Z); ("C"%char, 4%Z)])
  = Ok "A1:A2,C4,C4".
Proof. vm_compute. reflexivity. Qed.

(** ** Dictionaries *)

Lemma dict_get_set {V} (k k' : string) (x : V) (d : dict V) :
  dict_get k (dict_set k' x d) = if String.eqb k k' then Some x else dict_get k d.
Proof.
  induction d as [|[k1 v1] d IH]; simpl; [reflexivity|].
  destruct (String.eqb_spec k' k1) as [->|Hne]; simpl.
  - destruct (String.eqb_spec k k1); reflexivity.
  - destruct (String.eqb_spec k k1) as [->|Hk].
    + destruct (String.eqb_spec k1 k'); [congruence | reflexivity].
    + exact IH.
Qed.

Lemma dict_get_append {A} (k k' : string) (x : A) (d : dict (list A)) :
  dict_get k (dict_append k' x d) =
  if String.eqb k k' then Some (default [] (dict_get k' d) ++ [x])%list
  else dict_get k d.
Proof. apply dict_get_set. Qed.

Lemma dict_keys_set {V} (k k' : string) (x : V) (d : dict V) :
  k ∈ map fst (dict_set k' x d) <-> k = k' \/ k ∈ map fst d.
Proof.
  induction d as [|[k1 v1] d IH]; simpl.
  - rewrite list_elem_of_singleton, elem_of_nil. tauto.
  - destruct (String.eqb_spec k' k1) as [->|Hne]; simpl.
    + rewrite !elem_of_cons. tauto.
    + rewrite !elem_of_cons, IH. tauto.
Qed.

Lemma dict_set_NoDup {V} (k : string) (x : V) (d : dict V) :
  NoDup (map fst d) -> NoDup (map fst (dict_set k x d)).
Proof.
  induction d as [|[k1 v1] d IH]; simpl; intros Hd.
  - apply NoDup_singleton.
  - apply NoDup_cons in Hd as [Hk1 Hd].
    destruct (String.eqb_spec k k1) as [->|Hne]; simpl.
    + apply NoDup_cons. auto.
    + apply NoDup_cons. split; [|auto].
      rewrite dict_keys_set. intros [?|?]; congruence.
Qed.

Lemma dict_get_None {V} (k : string) (d : dict V) :
  k ∉ map fst d -> dict_get k d = None.
Proof.
  induction d as [|[k1 v1] d IH]; simpl; [reflexivity|].
  rewrite not_elem_of_cons. intros [Hne Hk].
  destruct (String.eqb_spec k k1); [congruence | auto].
Qed.

Lemma dict_get_Some_key {V} (k : string) (x : V) (d : dict V) :
  dict_get k d = Some x -> k ∈ map fst d.
Proof.
  intros H. destruct (decide (k ∈ map fst d)) as [Hin|Hout]; [exact Hin|].
  rewrite (dict_get_None k d Hout) in H. discriminate H.
Qed.

(** ** The index of a frame *)

Lemma index_fold (df : DataFrame) (v : string) (cells : list (Z * Z)) :
  forall index,
    dict_get v (fold_left (index_step df) cells index) =
    match addresses_of df v cells with
    | [] => dict_get v index
    | l => Some (default [] (dict_get v index) ++ l)%list
    end.
Proof.
  induction cells as [|[r c] cells IH]; intros index; [reflexivity|].
  cbn [fold_left]. rewrite IH. unfold addresses_of. rewrite filter_cons.
  destruct (holds_value df v (r, c)) eqn:Hh.
  - rewrite decide_True by reflexivity.
    unfold holds_value in Hh. cbn [fst snd] in Hh. unfold index_step.
    destruct (iat df r c) as [val|]; [|discriminate Hh].
    apply andb_true_iff in Hh as [Heq Hne]. apply String.eqb_eq in Heq. subst val.
    rewrite Hne. cbn [map fst snd].
    rewrite dict_get_append, String.eqb_refl.
    destruct (map _ (filter _ cells)) as [|a l]; [reflexivity|].
    cbn [from_option id]. rewrite <- app_assoc. reflexivity.
  - rewrite decide_False by discriminate.
    unfold holds_value in Hh. cbn [fst snd] in Hh. unfold index_step.
    destruct (iat df r c) as [val|]; [|reflexivity].
    destruct (nonempty_cell (Some val)); [|reflexivity].
    rewrite andb_true_r in Hh.
    rewrite dict_get_append, String.eqb_sym, Hh. reflexivity.
Qed.

Lemma index_fold_NoDup (df : DataFrame) (cells : list (Z * Z)) :
  forall index,
    NoDup (map fst index) ->
    NoDup (map fst (fold_left (index_step df) cells index)).
Proof.
  induction cells as [|[r c] cells IH]; intros index Hindex; [exact Hindex|].
  cbn [fold_left]. apply IH. unfold index_step.
  destruct (iat df r c) as [val|]; [|exact Hindex].
  destruct (nonempty_cell (Some val)); [|exact Hindex].
  apply dict_set_NoDup, Hindex.
Qed.

Lemma build_index_get (df : DataFrame) (v : string) :
  dict_get v (build_index df) =
  match addresses_of df v (cells_of df) with
  | [] => None
  | l => Some l
  end.
Proof. unfold build_index. rewrite index_fold. reflexivity. Qed.

Lemma build_index_NoDup (df : DataFrame) : NoDup (map fst (build_index df)).
Proof. apply index_fold_NoDup. constructor. Qed.

(** The second loop: when every list of addresses merges, the result maps
    each key of the index to the merged form of its addresses. *)
Lemma merge_fold (items : dict (list string)) :
  forall res0 : dict string,
    NoDup (map fst items) ->
    (forall k addrs, dict_get k items = Some addrs ->
                     exists s, merge_cell_ranges addrs = Ok s) ->
    exists res,
      foldM (fun res '(val, addrs) =>
               merged ← merge_cell_ranges addrs; Ok (dict_set val merged res))
            items res0 = Ok res /\
      forall k,
        dict_get k res =
        match dict_get k items with
        | Some addrs =>
            match merge_cell_ranges addrs with
            | Ok s => Some s
            | Raise _ => None
            end
        | None => dict_get k res0
        end.
Proof.
  induction items as [|[k0 a0] items IH]; intros res0 Hnodup Hok.
  - exists res0. split; [reflexivity|]. intros k. reflexivity.
  - cbn [map fst] in Hnodup. apply NoDup_cons in Hnodup as [Hk0 Hnodup].
    destruct (Hok k0 a0) as (s0 & Hs0).
    { simpl. rewrite String.eqb_refl. reflexivity. }
    destruct (IH (dict_set k0 s0 res0) Hnodup) as (res & Hres & Hget).
    { intros k addrs Hk. apply (Hok k). simpl.
      destruct (String.eqb_spec k k0) as [->|_]; [|exact Hk].
      apply dict_get_Some_key in Hk. contradiction. }
    exists res. split.
    + cbn [foldM]. rewrite Hs0. exact Hres.
    + intros k. rewrite Hget. simpl.
      destruct (String.eqb_spec k k0) as [->|Hne].
      * rewrite (dict_get_None k0 items Hk0), dict_get_set, String.eqb_refl, Hs0.
        reflexivity.
      * rewrite dict_get_set. destruct (String.eqb_spec k k0); [congruence|].
        reflexivity.
Qed.

(** ** Frames with single-letter columns *)

Lemma range_NoDup (a b : Z) : NoDup (Py.range a b).
Proof.
  unfold Py.range. apply NoDup_fmap_2_strong; [|apply NoDup_seq].
  intros i j _ _ H. lia.
Qed.

Lemma elem_of_cells (df : DataFrame) (rc : Z * Z) :
  rc ∈ cells_of df <->
  (0 <= rc.1 < shape0 df)%Z /\ (0 <= rc.2 < shape1 df)%Z.
Proof.
  unfold cells_of, product_range. rewrite list_elem_of_bind. split.
  - intros (r & Hrc & Hr). apply list_elem_of_bind in Hrc as (c & Hrc & Hc).
    apply list_elem_of_singleton in Hrc as ->.
    apply elem_of_range in Hr, Hc. simpl. lia.
  - intros [Hr Hc]. exists rc.1. split; [|apply elem_of_range, Hr].
    apply list_elem_of_bind. exists rc.2. split; [|apply elem_of_range, Hc].
    destruct rc. apply list_elem_of_singleton. reflexivity.
Qed.

Lemma cells_NoDup (df : DataFrame) : NoDup (cells_of df).
Proof.
  unfold cells_of, product_range. apply NoDup_bind; [| |apply range_NoDup].
  - intros r1 r2 rc _ _ H1 H2.
    apply list_elem_of_bind in H1 as (c1 & H1 & _).
    apply list_elem_of_bind in H2 as (c2 & H2 & _).
    apply list_elem_of_singleton in H1, H2. congruence.
  - intros r _. apply NoDup_bind; [| |apply range_NoDup].
    + intros c1 c2 rc _ _ H1 H2.
      apply list_elem_of_singleton in H1, H2. congruence.
    + intros c _. apply NoDup_singleton.
Qed.

Lemma holds_value_true (df : DataFrame) (v : string) (rc : Z * Z) :
  holds_value df v rc = true <->
  iat df rc.1 rc.2 = Some v /\ nonempty_cell (Some v) = true.
Proof.
  unfold holds_value. destruct (iat df rc.1 rc.2) as [val|].
  - rewrite andb_true_iff, String.eqb_eq. split.
    + intros [-> H]. auto.
    + intros [[= ->] H]. auto.
  - split; [discriminate | intros [H _]; discriminate H].
Qed.

Lemma elem_of_occurrences (df : DataFrame) (v : string) (rc : Z * Z) :
  rc ∈ occurrences df v <->
  ((0 <= rc.1 < shape0 df)%Z /\ (0 <= rc.2 < shape1 df)%Z) /\
  iat df rc.1 rc.2 = Some v /\ nonempty_cell (Some v) = true.
Proof.
  unfold occurrences. rewrite list_elem_of_filter, holds_value_true, elem_of_cells.
  tauto.
Qed.

Section SingleLetterColumns.

Variable df : DataFrame.
Hypothesis Hcolumns : single_letter_columns df.

Lemma column_label_single (c : Z) :
  (0 <= c < shape1 df)%Z -> column_label df c = String (label_char df c) EmptyString.
Proof.
  intros Hc. unfold label_char.
  assert (Hin : In (column_label df c) (columns df)).
  { unfold column_label. apply nth_In. unfold shape1, Py.len in Hc. lia. }
  destruct Hcolumns as [_ Hlen]. rewrite List.Forall_forall in Hlen.
  specialize (Hlen _ Hin).
  destruct (column_label df c) as [|a [|b s]]; simpl in Hlen;
    [discriminate | reflexivity | discriminate].
Qed.

Lemma label_char_inj (c1 c2 : Z) :
  (0 <= c1 < shape1 df)%Z -> (0 <= c2 < shape1 df)%Z ->
  label_char df c1 = label_char df c2 -> c1 = c2.
Proof.
  intros H1 H2 Heq.
  assert (Hlabel : column_label df c1 = column_label df c2).
  { rewrite (column_label_single c1 H1), (column_label_single c2 H2), Heq.
    reflexivity. }
  destruct Hcolumns as [Hnodup _]. apply NoDup_ListNoDup in Hnodup.
  unfold shape1, Py.len in H1, H2.
  pose proof (proj1 (NoDup_nth (columns df) EmptyString) Hnodup
                (Z.to_nat c1) (Z.to_nat c2)) as Hnth.
  unfold column_label in Hlabel. specialize (Hnth ltac:(lia) ltac:(lia) Hlabel). lia.
Qed.

Lemma display_inj (rc1 rc2 : Z * Z) :
  rc1 ∈ cells_of df -> rc2 ∈ cells_of df ->
  display df rc1 = display df rc2 -> rc1 = rc2.
Proof.
  intros [_ H1]%elem_of_cells [_ H2]%elem_of_cells [= Hcol Hrow].
  apply (label_char_inj _ _ H1 H2) in Hcol.
  destruct rc1, rc2. simpl in *. f_equal; lia.
Qed.

Lemma create_cell_address_display (rc : Z * Z) :
  rc ∈ cells_of df ->
  create_cell_address rc.1 rc.2 df = address_of (display df rc).
Proof.
  intros [_ Hc]%elem_of_cells. unfold create_cell_address.
  rewrite (column_label_single _ Hc). reflexivity.
Qed.

Lemma addresses_of_display (v : string) :
  addresses_of df v (cells_of df) = map address_of (coords_of df v).
Proof.
  unfold addresses_of, coords_of. rewrite map_map.
  apply Forall_fmap_ext, Forall_forall. intros rc Hrc.
  apply create_cell_address_display.
  apply list_elem_of_filter in Hrc as [_ Hrc]. exact Hrc.
Qed.

Lemma coords_of_NoDup (v : string) : NoDup (coords_of df v).
Proof.
  unfold coords_of. apply NoDup_fmap_2_strong.
  - intros rc1 rc2 [_ H1]%list_elem_of_filter [_ H2]%list_elem_of_filter.
    apply display_inj; assumption.
  - apply NoDup_filter, cells_NoDup.
Qed.

Lemma coords_of_rows (v : string) :
  Forall (fun p : coord => (0 <= p.2)%Z) (coords_of df v).
Proof.
  unfold coords_of. apply Forall_fmap, Forall_forall.
  intros rc [[Hr _] _]%elem_of_occurrences. simpl. lia.
Qed.

(** The entry of every value: none when the value occurs in no non-empty
    cell, and otherwise one that expands to the display coordinates of its
    occurrences. *)
Lemma index_entries :
  exists index,
    invert_index_with_ranges df = Ok index /\
    forall v,
      (occurrences df v = [] /\ dict_get v index = None) \/
      (occurrences df v <> [] /\
       exists s cs, dict_get v index = Some s /\
                    expand_ranges s = Some cs /\ cs ≡ₚ coords_of df v).
Proof.
  assert (Hget : forall v,
             dict_get v (build_index df) =
             match occurrences df v with
             | [] => None
             | _ => Some (map address_of (coords_of df v))
             end).
  { intros v. rewrite build_index_get, addresses_of_display.
    unfold coords_of. destruct (occurrences df v); reflexivity. }
  assert (Hcover : forall v, occurrences df v <> [] ->
             exists s cs,
               merge_cell_ranges (map address_of (coords_of df v)) = Ok s /\
               expand_ranges s = Some cs /\ cs ≡ₚ coords_of df v).
  { intros v Hv. apply merge_cell_ranges_covers; [|apply coords_of_rows].
    unfold coords_of. destruct (occurrences df v); [congruence | discriminate]. }
  destruct (merge_fold (build_index df) [] (build_index_NoDup df))
    as (index & Hindex & Hlookup).
  { intros k addrs Hk. rewrite Hget in Hk.
    destruct (occurrences df k) eqn:Hocc; [discriminate Hk|].
    injection Hk as <-.
    destruct (Hcover k) as (s & _ & Hs & _); [congruence|]. eauto. }
  exists index. split; [exact Hindex|].
  intros v. rewrite Hlookup, Hget.
  destruct (occurrences df v) eqn:Hocc; [left; auto|].
  right. split; [discriminate|].
  destruct (Hcover v) as (s & cs & Hs & Hexp & Hperm); [congruence|].
  exists s, cs. rewrite Hs. auto.
Qed.

End SingleLetterColumns.

(** C1 as stated, for every frame, fails: on a frame whose columns are named
    by words the address of the first cell is Category1, whose tail is not a
    number, and the construction of the index stops with [ValueError]. *)
Lemma C1_named_columns_not_indexed :
  invert_index_with_ranges frame_named = Raise ValueError /\
  ~ lossless frame_named.
Proof.
  assert (H : invert_index_with_ranges frame_named = Raise ValueError)
    by (vm_compute; reflexivity).
  split; [exact H|].
  intros (index & Hindex & _). rewrite H in Hindex. discriminate Hindex.
Qed.

(** C1 (amended): for every frame whose columns are labelled by pairwise
    distinct single characters, the inverted index is built and is lossless:
    every entry expands to the coordinates, each once, of the non-empty cells
    that hold its value, and to at least one; every non-empty cell is covered
    by the entry of its literal value; and the entries of different values
    share no coordinate. *)
Theorem C1_inverted_index_lossless (df : DataFrame) :
  single_letter_columns df -> lossless df.
Proof.
  intros Hcolumns.
  destruct (index_entries df Hcolumns) as (index & Hindex & Hentries).
  assert (Hentry : forall v s,
             dict_get v index = Some s ->
             exists cs, expand_ranges s = Some cs /\ cs ≡ₚ coords_of df v /\
                        occurrences df v <> []).
  { intros v s Hs. destruct (Hentries v) as [[_ Hnone]|(Hocc & s' & cs & Hs' & Hexp & Hperm)].
    - rewrite Hnone in Hs. discriminate Hs.
    - rewrite Hs' in Hs. injection Hs as <-. eauto. }
  assert (Hdisplay : forall v cs p,
             cs ≡ₚ coords_of df v -> p ∈ cs ->
             exists rc, rc ∈ occurrences df v /\ p = display df rc).
  { intros v cs p Hperm Hp. rewrite Hperm in Hp.
    apply list_elem_of_fmap in Hp as (rc & -> & Hrc). eauto. }
  exists index. split; [exact Hindex|]. split; [|split].
  - intros v s Hs. destruct (Hentry v s Hs) as (cs & Hexp & Hperm & Hocc).
    exists cs. split; [exact Hexp|].
    split; [rewrite Hperm; apply coords_of_NoDup, Hcolumns|].
    split.
    + intros ->. apply Permutation_nil_l in Hperm. unfold coords_of in Hperm.
      destruct (occurrences df v); [congruence | discriminate Hperm].
    + intros p Hp. destruct (Hdisplay v cs p Hperm Hp) as (rc & Hrc & ->).
      apply elem_of_occurrences in Hrc as ([Hr Hc] & Hiat & Hne).
      exists rc.1, rc.2. repeat split; try tauto.
      apply column_label_single; assumption.
  - intros r c v Hr Hc Hiat Hne.
    assert (Hrc : (r, c) ∈ occurrences df v)
      by (apply elem_of_occurrences; simpl; auto).
    destruct (Hentries v) as [[Hnil _]|(_ & s & cs & Hs & Hexp & Hperm)].
    { rewrite Hnil in Hrc. apply elem_of_nil in Hrc. contradiction. }
    exists s, cs, (label_char df c).
    split; [apply column_label_single; assumption|].
    split; [exact Hs|]. split; [exact Hexp|].
    rewrite Hperm. unfold coords_of.
    apply (list_elem_of_fmap_2 (display df) _ (r, c)), Hrc.
  - intros v1 v2 s1 s2 cs1 cs2 Hne Hs1 Hs2 Hexp1 Hexp2 p Hp1 Hp2.
    destruct (Hentry v1 s1 Hs1) as (cs1' & Hexp1' & Hperm1 & _).
    destruct (Hentry v2 s2 Hs2) as (cs2' & Hexp2' & Hperm2 & _).
    rewrite Hexp1 in Hexp1'. rewrite Hexp2 in Hexp2'.
    injection Hexp1' as <-. injection Hexp2' as <-.
    destruct (Hdisplay v1 cs1 p Hperm1 Hp1) as (rc1 & Hrc1 & ->).
    destruct (Hdisplay v2 cs2 _ Hperm2 Hp2) as (rc2 & Hrc2 & Heq).
    apply elem_of_occurrences in Hrc1 as (Hin1 & Hiat1 & _).
    apply elem_of_occurrences in Hrc2 as (Hin2 & Hiat2 & _).
    apply (display_inj df Hcolumns) in Heq; [|apply elem_of_cells; assumption..].
    subst rc2. congruence.
Qed.

Lemma C1_inverted_index_lossless_witness :
  single_letter_columns frame_5x3 /\ lossless frame_5x3.
Proof.
  assert (H : single_letter_columns frame_5x3).
  { split.
    - refine (bool_decide_unpack (NoDup (columns frame_5x3)) _). vm_compute. exact I.
    - repeat (apply Forall_cons_2; [reflexivity|]). apply Forall_nil_2. }
  split; [exact H | apply (C1_inverted_index_lossless frame_5x3 H)].
Defined.

Example index_of_frame_5x3 :
  invert_index_with_ranges frame_5x3 =
  Ok [("Sales", "A1"); ("Q4", "B1"); ("Notes", "A2:A4"); ("Details", "B2:B4");
      ("Extra", "C2:C5"); ("Total", "A5"); ("9", "B5")].
Proof. vm_compute. reflexivity. Qed.

(** The end-to-end scenario of the quarter column. *)
Example index_of_quarters :
  invert_index_with_ranges
    {| columns := ["A"]; values := [[Some "Q1"]; [Some "Q1"]; [Some "Q2"]] |}
  = Ok [("Q1", "A1:A2"); ("Q2", "A3")].
Proof. vm_compute. reflexivity. Qed.

(** * Further properties of structural_anchors_demo.py *)

Lemma foldM_anchors_range (f : Z -> result bool) (l : list Z) :
  forall (acc s : gset Z),
    foldM (fun anchors i =>
             b ← f i; Ok (if b : bool then {[ i ]} ∪ anchors else anchors)) l acc
    = Ok s ->
    forall x, x ∈ s -> x ∈ acc \/ x ∈ l.
Proof.
  induction l as [|i l IH]; intros acc s H x Hx; simpl in H.
  - injection H as <-. auto.
  - destruct (f i) as [b|e]; [|discriminate H]. simpl in H.
    destruct (IH _ _ H x Hx) as [Hacc|Hl].
    + destruct b; [|auto].
      apply elem_of_union in Hacc as [Hi|Hacc]; [|auto].
      apply elem_of_singleton in Hi as ->. right. apply list_elem_of_here.
    + right. apply list_elem_of_further, Hl.
Qed.

Lemma collect_anchors_range (f : Z -> result bool) (n : Z) (s : gset Z) :
  collect_anchors f n = Ok s -> forall x, x ∈ s -> (0 <= x < n)%Z.
Proof.
  intros H x Hx. destruct (foldM_anchors_range f _ _ _ H x Hx) as [Hx'|Hx'].
  - apply elem_of_empty in Hx'. contradiction.
  - apply elem_of_range, Hx'.
Qed.

Lemma expand_anchors_zero_margin (anchors : gset Z) (n : Z) :
  (forall x, x ∈ anchors -> (0 <= x < n)%Z) -> expand_anchors anchors n 0 = anchors.
Proof.
  intros Hrange. apply leibniz_equiv, set_equiv. intros x.
  rewrite elem_of_expand_anchors. split.
  - intros (r & Hr & Hx). replace x with r by lia. exact Hr.
  - intros Hx. exists x. split; [exact Hx|]. specialize (Hrange x Hx). lia.
Qed.

Lemma row_is_boundary_total (df : DataFrame) (i : Z) :
  ((1 <= shape1 df)%Z \/ (shape0 df <= 2)%Z) -> (0 <= i < shape0 df)%Z ->
  row_is_boundary df i = Ok (row_boundary df i).
Proof.
  intros [H1|Hsmall] Hi; [apply row_is_boundary_spec; assumption|].
  assert (Hedge : ((i =? 0)%Z || (i =? shape0 df - 1)%Z) = true).
  { destruct (Z.eqb_spec i 0); [reflexivity|].
    destruct (Z.eqb_spec i (shape0 df - 1)); [reflexivity | lia]. }
  unfold row_is_boundary, row_boundary. rewrite Hedge. reflexivity.
Qed.

Lemma col_is_boundary_total (df : DataFrame) (j : Z) :
  ((1 <= shape0 df)%Z \/ (shape1 df <= 2)%Z) -> (0 <= j < shape1 df)%Z ->
  col_is_boundary df j = Ok (col_boundary df j).
Proof.
  intros [H1|Hsmall] Hj; [apply col_is_boundary_spec; assumption|].
  assert (Hedge : ((j =? 0)%Z || (j =? shape1 df - 1)%Z) = true).
  { destruct (Z.eqb_spec j 0); [reflexivity|].
    destruct (Z.eqb_spec j (shape1 df - 1)); [reflexivity | lia]. }
  unfold col_is_boundary, col_boundary. rewrite Hedge. reflexivity.
Qed.

Lemma lines_are_similar_nil (l : list string) :
  lines_are_similar [] l = Raise ZeroDivisionError.
Proof. reflexivity. Qed.

Lemma row_anchors_raise (df : DataFrame) :
  shape1 df = 0%Z -> (3 <= shape0 df)%Z -> row_anchors df = Raise ZeroDivisionError.
Proof.
  intros H1 H0. unfold row_anchors, collect_anchors.
  rewrite (range_cons 0) by lia. rewrite (range_cons (0 + 1)) by lia.
  cbn [foldM].
  assert (Hfirst : row_is_boundary df 0 = Ok true) by reflexivity.
  assert (Hsecond : row_is_boundary df (0 + 1) = Raise ZeroDivisionError).
  { unfold row_is_boundary.
    destruct (Z.eqb_spec (0 + 1) 0) as [?|_]; [lia|].
    destruct (Z.eqb_spec (0 + 1) (shape0 df - 1)) as [?|_]; [lia|].
    cbn [orb]. unfold rows_are_similar, iloc_row. rewrite H1. reflexivity. }
  rewrite Hfirst. cbn [mbind result_bind]. rewrite Hsecond. reflexivity.
Qed.

Lemma col_anchors_raise (df : DataFrame) :
  shape0 df = 0%Z -> (3 <= shape1 df)%Z -> col_anchors df = Raise ZeroDivisionError.
Proof.
  intros H0 H1. unfold col_anchors, collect_anchors.
  rewrite (range_cons 0) by lia. rewrite (range_cons (0 + 1)) by lia.
  cbn [foldM].
  assert (Hfirst : col_is_boundary df 0 = Ok true) by reflexivity.
  assert (Hsecond : col_is_boundary df (0 + 1) = Raise ZeroDivisionError).
  { unfold col_is_boundary.
    destruct (Z.eqb_spec (0 + 1) 0) as [?|_]; [lia|].
    destruct (Z.eqb_spec (0 + 1) (shape1 df - 1)) as [?|_]; [lia|].
    cbn [orb]. unfold cols_are_similar, iloc_col. rewrite H0. reflexivity. }
  rewrite Hfirst. cbn [mbind result_bind]. rewrite Hsecond. reflexivity.
Qed.

Lemma shape_nonneg (df : DataFrame) : (0 <= shape0 df)%Z /\ (0 <= shape1 df)%Z.
Proof. unfold shape0, shape1, Py.len. lia. Qed.

Lemma extract_from_indices (df : DataFrame) (k : Z) (rows cols : gset Z) :
  skeleton_indices df k = Ok (rows, cols) ->
  (forall r, r ∈ rows -> (0 <= r < shape0 df)%Z) /\
  (forall c, c ∈ cols -> (0 <= c < shape1 df)%Z) /\
  extract_structural_skeleton df k =
  Ok {| columns := map (column_label df) (sorted cols);
        values := map (fun r => map (fun c => iat df r c) (sorted cols)) (sorted rows) |}.
Proof.
  intros Hsk. unfold skeleton_indices in Hsk.
  apply bind_Ok in Hsk as (ra & Hra & Hsk).
  apply bind_Ok in Hsk as (ca & Hca & Hsk). injection Hsk as <- <-.
  assert (Hsk : skeleton_indices df k =
                Ok (expand_anchors ra (shape0 df) k, expand_anchors ca (shape1 df) k)).
  { unfold skeleton_indices. rewrite Hra, Hca. reflexivity. }
  split; [intros r; apply expand_anchors_bounds|].
  split; [intros c; apply expand_anchors_bounds|].
  unfold extract_structural_skeleton. rewrite Hsk. cbn [mbind result_bind fst snd].
  apply iloc_in_range; apply Forall_forall; intros x Hx;
    apply elem_of_sorted, expand_anchors_bounds in Hx; exact Hx.
Qed.

(** X1: the extraction ends with an exception exactly on the frames that have
    no column and at least three rows, or no row and at least three columns;
    the exception is then the division by zero of the similarity, whatever
    the margin.  On every other frame it returns a skeleton. *)
Theorem X1_extract_raises_only_on_empty_lines (df : DataFrame) (k : Z) :
  if degenerate_shape df
  then extract_structural_skeleton df k = Raise ZeroDivisionError
  else exists skeleton, extract_structural_skeleton df k = Ok skeleton.
Proof.
  destruct (shape_nonneg df) as [Hn0 Hn1].
  unfold degenerate_shape.
  destruct (Z.eqb_spec (shape1 df) 0) as [H1|H1];
    destruct (Z.leb_spec 3 (shape0 df)) as [H0|H0]; cbn [andb orb].
  - unfold extract_structural_skeleton, skeleton_indices.
    rewrite (row_anchors_raise df H1 H0). reflexivity.
  - destruct (Z.eqb_spec (shape0 df) 0) as [?|_]; [|cbn [andb]];
      try (destruct (Z.leb_spec 3 (shape1 df)) as [?|_]; [lia|]).
    all: destruct (collect_anchors_spec (row_is_boundary df) (row_boundary df) (shape0 df))
        as (ra & Hra & _);
      [intros i Hi; apply row_is_boundary_total; [right; lia | exact Hi]|].
    all: destruct (collect_anchors_spec (col_is_boundary df) (col_boundary df) (shape1 df))
        as (ca & Hca & _);
      [intros j Hj; apply col_is_boundary_total; [right; lia | exact Hj]|].
    all: eexists; eapply (extract_from_indices df k);
      unfold skeleton_indices, row_anchors, col_anchors; rewrite Hra, Hca; reflexivity.
  - destruct (Z.eqb_spec (shape0 df) 0) as [?|_]; [lia|]. cbn [andb].
    destruct (anchors_spec df) as (ra & ca & Hra & Hca & _); [lia | lia|].
    eexists. eapply (extract_from_indices df k).
    unfold skeleton_indices. rewrite Hra, Hca. reflexivity.
  - destruct (collect_anchors_spec (row_is_boundary df) (row_boundary df) (shape0 df))
      as (ra & Hra & _).
    { intros i Hi. apply row_is_boundary_total; [left; lia | exact Hi]. }
    destruct (Z.eqb_spec (shape0 df) 0) as [Hz|Hz]; cbn [andb].
    + destruct (Z.leb_spec 3 (shape1 df)) as [H3|H3].
      * unfold extract_structural_skeleton, skeleton_indices.
        fold (row_anchors df) in Hra. rewrite Hra. cbn [mbind result_bind].
        rewrite (col_anchors_raise df Hz H3). reflexivity.
      * destruct (collect_anchors_spec (col_is_boundary df) (col_boundary df) (shape1 df))
          as (ca & Hca & _).
        { intros j Hj. apply col_is_boundary_total; [right; lia | exact Hj]. }
        eexists. eapply (extract_from_indices df k).
        unfold skeleton_indices, row_anchors, col_anchors. rewrite Hra, Hca. reflexivity.
    + destruct (anchors_spec df) as (ra' & ca & Hra' & Hca & _); [lia | lia|].
      eexists. eapply (extract_from_indices df k).
      unfold skeleton_indices. rewrite Hra', Hca. reflexivity.
Qed.

Lemma sorted_perm (s : gset Z) : sorted s ≡ₚ elements s.
Proof. apply merge_sort_Permutation. Qed.

Lemma sorted_NoDup (s : gset Z) : NoDup (sorted s).
Proof. rewrite sorted_perm. apply NoDup_elements. Qed.

Lemma strict_of_NoDup (l : list Z) :
  StronglySorted Z.le l -> NoDup l -> StronglySorted Z.lt l.
Proof.
  induction 1 as [|x l Hl IH Hx]; intros Hnd; constructor.
  - apply IH. apply NoDup_cons in Hnd as [_ Hnd]. exact Hnd.
  - apply NoDup_cons in Hnd as [Hnotin _].
    rewrite Forall_forall in *. intros y Hy. specialize (Hx y Hy).
    assert (x <> y) by (intros ->; contradiction). lia.
Qed.

Lemma sorted_increasing (s : gset Z) : StronglySorted Z.lt (sorted s).
Proof.
  apply strict_of_NoDup; [|apply sorted_NoDup].
  unfold sorted. apply StronglySorted_merge_sort; apply _.
Qed.

Lemma range_increasing (a b : Z) : StronglySorted Z.lt (Py.range a b).
Proof.
  remember (Z.to_nat (b - a)) as n eqn:Hn. revert a Hn.
  induction n as [|n IH]; intros a Hn.
  - rewrite range_nil by lia. constructor.
  - rewrite range_cons by lia. constructor; [apply IH; lia|].
    apply Forall_forall. intros x Hx. apply elem_of_range in Hx. lia.
Qed.

Lemma increasing_unique (l1 l2 : list Z) :
  StronglySorted Z.lt l1 -> StronglySorted Z.lt l2 ->
  (forall x, x ∈ l1 <-> x ∈ l2) -> l1 = l2.
Proof.
  intros H1 H2 Hmem.
  assert (Hnd : forall l, StronglySorted Z.lt l -> NoDup l).
  { induction 1 as [|x l _ IH Hx]; constructor; [|exact IH].
    intros Hin. rewrite Forall_forall in Hx. specialize (Hx x Hin). lia. }
  assert (Hle : forall l, StronglySorted Z.lt l -> StronglySorted Z.le l).
  { induction 1 as [|x l _ IH Hx]; constructor; [exact IH|].
    eapply Forall_impl; [exact Hx|]. intros y Hy. simpl in Hy. lia. }
  apply (StronglySorted_unique_strong Z.le); auto.
  - intros x1 x2 _ _ Ha Hb. lia.
  - apply NoDup_Permutation; auto.
Qed.

Lemma sorted_of_range (s : gset Z) (n : Z) :
  (forall x, x ∈ s <-> (0 <= x < n)%Z) -> sorted s = Py.range 0 n.
Proof.
  intros Hs. apply increasing_unique.
  - apply sorted_increasing.
  - apply range_increasing.
  - intros x. rewrite elem_of_sorted, elem_of_range. apply Hs.
Qed.

Lemma range_of_nat (n : nat) : Py.range 0 (Z.of_nat n) = map Z.of_nat (seq 0 n).
Proof.
  unfold Py.range. replace (Z.to_nat (Z.of_nat n - 0)) with n by lia.
  apply map_ext. intros i. lia.
Qed.

Lemma map_nth_seq {A} (l : list A) (d : A) :
  map (fun i => nth i l d) (seq 0 (length l)) = l.
Proof.
  induction l as [|x l IH]; [reflexivity|].
  simpl length. cbn [seq map nth]. f_equal.
  rewrite <- seq_shift, map_map. exact IH.
Qed.

Lemma map_nth_range {A} (l : list A) (d : A) :
  map (fun i => nth (Z.to_nat i) l d) (Py.range 0 (Py.len l)) = l.
Proof.
  unfold Py.len. rewrite range_of_nat, map_map.
  rewrite <- (map_nth_seq l d) at 2. apply map_ext. intros i.
  rewrite Nat2Z.id. reflexivity.
Qed.

(** All cells of a rectangular frame, row by row, are the frame. *)
Lemma iloc_all (df : DataFrame) :
  rectangular df ->
  {| columns := map (column_label df) (Py.range 0 (shape1 df));
     values := map (fun r => map (fun c => iat df r c) (Py.range 0 (shape1 df)))
                   (Py.range 0 (shape0 df)) |} = df.
Proof.
  intros Hrect. destruct df as [cols vals]. unfold rectangular in Hrect.
  unfold shape0, shape1, column_label, iat. cbn [columns values] in *.
  f_equal; [apply map_nth_range|].
  rewrite <- (map_nth_range vals []) at 2.
  apply Forall_fmap_ext, Forall_forall. intros r Hr.
  apply elem_of_range in Hr.
  assert (Hlen : length (nth (Z.to_nat r) vals []) = length cols).
  { rewrite List.Forall_forall in Hrect. apply Hrect, nth_In.
    unfold Py.len in Hr. lia. }
  unfold Py.len at 1. rewrite <- Hlen. apply (map_nth_range _ None).
Qed.

Lemma anchors_in_range (df : DataFrame) (ra ca : gset Z) :
  row_anchors df = Ok ra -> col_anchors df = Ok ca ->
  (forall r, r ∈ ra -> (0 <= r < shape0 df)%Z) /\
  (forall c, c ∈ ca -> (0 <= c < shape1 df)%Z).
Proof.
  intros Hra Hca. split.
  - apply (collect_anchors_range _ _ _ Hra).
  - apply (collect_anchors_range _ _ _ Hca).
Qed.

(** X2: with margin 0 the rows and the columns to keep are exactly the row
    anchors and the column anchors. *)
Theorem X2_zero_margin_keeps_the_anchors (df : DataFrame) (ra ca : gset Z) :
  row_anchors df = Ok ra -> col_anchors df = Ok ca ->
  skeleton_indices df 0 = Ok (ra, ca).
Proof.
  intros Hra Hca. destruct (anchors_in_range df ra ca Hra Hca) as [Hr Hc].
  unfold skeleton_indices. rewrite Hra, Hca. cbn [mbind result_bind].
  rewrite !expand_anchors_zero_margin by assumption. reflexivity.
Qed.

Lemma X2_zero_margin_keeps_the_anchors_witness :
  row_anchors frame_5x3 = Ok ({[ 0%Z; 4%Z ]} : gset Z) /\
  col_anchors frame_5x3 = Ok ({[ 0%Z; 1%Z; 2%Z ]} : gset Z) /\
  skeleton_indices frame_5x3 0 = Ok ({[ 0%Z; 4%Z ]}, {[ 0%Z; 1%Z; 2%Z ]}).
Proof.
  assert (Hra : row_anchors frame_5x3 = Ok ({[ 0%Z; 4%Z ]} : gset Z))
    by (vm_compute; reflexivity).
  assert (Hca : col_anchors frame_5x3 = Ok ({[ 0%Z; 1%Z; 2%Z ]} : gset Z))
    by (vm_compute; reflexivity).
  split; [exact Hra|]. split; [exact Hca|].
  apply (X2_zero_margin_keeps_the_anchors frame_5x3 _ _ Hra Hca).
Defined.

(** X3: for a margin [k >= 0], a row is kept exactly when it is a row of the
    frame at distance at most [k] from a row anchor, and likewise a column;
    in particular every anchor is kept. *)
Theorem X3_kept_within_margin_of_an_anchor (df : DataFrame) (k : Z) (ra ca : gset Z) :
  (0 <= k)%Z -> row_anchors df = Ok ra -> col_anchors df = Ok ca ->
  exists rows cols : gset Z,
    skeleton_indices df k = Ok (rows, cols) /\
    (forall x, x ∈ rows <->
       (0 <= x < shape0 df)%Z /\ exists r, r ∈ ra /\ (Z.abs (x - r) <= k)%Z) /\
    (forall y, y ∈ cols <->
       (0 <= y < shape1 df)%Z /\ exists c, c ∈ ca /\ (Z.abs (y - c) <= k)%Z) /\
    ra ⊆ rows /\ ca ⊆ cols.
Proof.
  intros Hk Hra Hca. destruct (anchors_in_range df ra ca Hra Hca) as [Hr Hc].
  assert (Hchar : forall (A : gset Z) n x,
             x ∈ expand_anchors A n k <->
             (0 <= x < n)%Z /\ exists r, r ∈ A /\ (Z.abs (x - r) <= k)%Z).
  { intros A n x. rewrite elem_of_expand_anchors. split.
    - intros (r & HrA & Hx). split; [lia|]. exists r. split; [exact HrA | lia].
    - intros (Hx & r & HrA & Hd). exists r. split; [exact HrA | lia]. }
  exists (expand_anchors ra (shape0 df) k), (expand_anchors ca (shape1 df) k).
  split; [unfold skeleton_indices; rewrite Hra, Hca; reflexivity|].
  split; [apply Hchar|]. split; [apply Hchar|].
  split; intros x Hx; apply Hchar.
  - split; [apply Hr, Hx|]. exists x. split; [exact Hx | lia].
  - split; [apply Hc, Hx|]. exists x. split; [exact Hx | lia].
Qed.

Lemma X3_kept_within_margin_of_an_anchor_witness :
  (0 <= 1)%Z /\
  exists rows cols : gset Z,
    skeleton_indices frame_5x3 1 = Ok (rows, cols) /\
    (forall x, x ∈ rows <->
       (0 <= x < shape0 frame_5x3)%Z /\
       exists r, r ∈ ({[ 0%Z; 4%Z ]} : gset Z) /\ (Z.abs (x - r) <= 1)%Z) /\
    (forall y, y ∈ cols <->
       (0 <= y < shape1 frame_5x3)%Z /\
       exists c, c ∈ ({[ 0%Z; 1%Z; 2%Z ]} : gset Z) /\ (Z.abs (y - c) <= 1)%Z) /\
    ({[ 0%Z; 4%Z ]} : gset Z) ⊆ rows /\ ({[ 0%Z; 1%Z; 2%Z ]} : gset Z) ⊆ cols.
Proof.
  split; [lia|].
  apply (X3_kept_within_margin_of_an_anchor frame_5x3 1); [lia | |];
    vm_compute; reflexivity.
Defined.

(** X4: on a rectangular frame with at least one row and one column, a margin
    that reaches from the first line to the last one on both axes keeps every
    row and every column, and the skeleton is the frame itself. *)
Theorem X4_wide_margin_returns_the_frame (df : DataFrame) (k : Z) :
  rectangular df -> (1 <= shape0 df)%Z -> (1 <= shape1 df)%Z ->
  (shape0 df - 1 <= k)%Z -> (shape1 df - 1 <= k)%Z ->
  extract_structural_skeleton df k = Ok df.
Proof.
  intros Hrect H0 H1 Hk0 Hk1.
  destruct (skeleton_indices_spec df k H0 H1)
    as (ra & ca & _ & _ & Hr0 & _ & Hc0 & _ & Hsk).
  destruct (extract_from_indices df k _ _ Hsk) as (_ & _ & Hextract).
  assert (Hall : forall (A : gset Z) n,
             (1 <= n)%Z -> (n - 1 <= k)%Z -> 0%Z ∈ A ->
             sorted (expand_anchors A n k) = Py.range 0 n).
  { intros A n Hn Hkn HA. apply sorted_of_range. intros x. split.
    - apply expand_anchors_bounds.
    - intros Hx. apply elem_of_expand_anchors. exists 0%Z. split; [exact HA | lia]. }
  rewrite Hextract, !Hall by assumption. f_equal. apply iloc_all, Hrect.
Qed.

Lemma X4_wide_margin_returns_the_frame_witness :
  rectangular frame_5x3 /\ (1 <= shape0 frame_5x3)%Z /\ (1 <= shape1 frame_5x3)%Z /\
  (shape0 frame_5x3 - 1 <= 4)%Z /\ (shape1 frame_5x3 - 1 <= 4)%Z /\
  extract_structural_skeleton frame_5x3 4 = Ok frame_5x3.
Proof.
  assert (Hrect : rectangular frame_5x3).
  { repeat (apply Forall_cons_2; [reflexivity|]). apply Forall_nil_2. }
  split; [exact Hrect|].
  split; [shape_lia|]. split; [shape_lia|]. split; [shape_lia|]. split; [shape_lia|].
  apply (X4_wide_margin_returns_the_frame frame_5x3 4 Hrect); shape_lia.
Defined.

Lemma extract_Ok_inv (df : DataFrame) (k : Z) (skeleton : DataFrame) :
  extract_structural_skeleton df k = Ok skeleton ->
  exists rows cols : gset Z,
    skeleton_indices df k = Ok (rows, cols) /\
    (forall r, r ∈ rows -> (0 <= r < shape0 df)%Z) /\
    (forall c, c ∈ cols -> (0 <= c < shape1 df)%Z) /\
    skeleton =
    {| columns := map (column_label df) (sorted cols);
       values := map (fun r => map (fun c => iat df r c) (sorted cols)) (sorted rows) |}.
Proof.
  intros H. pose proof H as H'. unfold extract_structural_skeleton in H'.
  apply bind_Ok in H' as ([rows cols] & Hsk & _).
  destruct (extract_from_indices df k rows cols Hsk) as (Hr & Hc & Hextract).
  exists rows, cols. repeat (split; [assumption|]).
  rewrite Hextract in H. injection H as <-. reflexivity.
Qed.

Lemma sorted_length_bound (s : gset Z) (n : Z) :
  (0 <= n)%Z -> (forall x, x ∈ s -> (0 <= x < n)%Z) ->
  (Z.of_nat (length (sorted s)) <= n)%Z.
Proof.
  intros Hn Hs.
  assert (Hsub : sorted s ⊆+ Py.range 0 n).
  { apply NoDup_submseteq; [apply sorted_NoDup|].
    intros x Hx. apply elem_of_range, Hs, elem_of_sorted, Hx. }
  apply submseteq_length in Hsub. rewrite range_length in Hsub. lia.
Qed.

(** X5: a skeleton never has more rows or more columns than the frame it was
    extracted from. *)
Theorem X5_skeleton_not_larger_than_frame (df : DataFrame) (k : Z) (skeleton : DataFrame) :
  extract_structural_skeleton df k = Ok skeleton ->
  (shape0 skeleton <= shape0 df)%Z /\ (shape1 skeleton <= shape1 df)%Z.
Proof.
  intros H. destruct (extract_Ok_inv df k skeleton H) as (rows & cols & _ & Hr & Hc & ->).
  unfold shape0 at 1, shape1 at 1, Py.len. cbn [columns values].
  rewrite !length_map. destruct (shape_nonneg df).
  split; apply sorted_length_bound; assumption.
Qed.

Lemma X5_skeleton_not_larger_than_frame_witness :
  extract_structural_skeleton frame_5x3 0 =
    Ok {| columns := ["A"; "B"; "C"];
          values := [[Some "Sales"; Some "Q4"; None];
                     [Some "Total"; Some "9"; Some "Extra"]] |} /\
  (2 <= shape0 frame_5x3)%Z /\ (3 <= shape1 frame_5x3)%Z.
Proof.
  assert (H : extract_structural_skeleton frame_5x3 0 =
              Ok {| columns := ["A"; "B"; "C"];
                    values := [[Some "Sales"; Some "Q4"; None];
                               [Some "Total"; Some "9"; Some "Extra"]] |})
    by (vm_compute; reflexivity).
  split; [exact H|].
  exact (X5_skeleton_not_larger_than_frame frame_5x3 0 _ H).
Defined.

(** X6: a skeleton is the sub-table of the frame at the kept rows and the
    kept columns, each taken once and in increasing order of its index: the
    lines keep their labels, their values and their relative order. *)
Theorem X6_skeleton_is_the_ordered_subtable (df : DataFrame) (k : Z) (skeleton : DataFrame) :
  extract_structural_skeleton df k = Ok skeleton ->
  exists (rows cols : gset Z) (rs cs : list Z),
    skeleton_indices df k = Ok (rows, cols) /\
    StronglySorted Z.lt rs /\ StronglySorted Z.lt cs /\
    (forall r, r ∈ rs <-> r ∈ rows) /\ (forall c, c ∈ cs <-> c ∈ cols) /\
    skeleton =
    {| columns := map (column_label df) cs;
       values := map (fun r => map (fun c => iat df r c) cs) rs |}.
Proof.
  intros H. destruct (extract_Ok_inv df k skeleton H) as (rows & cols & Hsk & _ & _ & ->).
  exists rows, cols, (sorted rows), (sorted cols).
  split; [exact Hsk|].
  split; [apply sorted_increasing|]. split; [apply sorted_increasing|].
  split; [intros r; apply elem_of_sorted|].
  split; [intros c; apply elem_of_sorted | reflexivity].
Qed.

Lemma X6_skeleton_is_the_ordered_subtable_witness :
  exists skeleton (rows cols : gset Z) (rs cs : list Z),
    extract_structural_skeleton frame_5x3 1 = Ok skeleton /\
    skeleton_indices frame_5x3 1 = Ok (rows, cols) /\
    StronglySorted Z.lt rs /\ StronglySorted Z.lt cs /\
    (forall r, r ∈ rs <-> r ∈ rows) /\ (forall c, c ∈ cs <-> c ∈ cols) /\
    skeleton =
    {| columns := map (column_label frame_5x3) cs;
       values := map (fun r => map (fun c => iat frame_5x3 r c) cs) rs |}.
Proof.
  assert (H : extract_structural_skeleton frame_5x3 1 =
              Ok {| columns := ["A"; "B"; "C"];
                    values := [[Some "Sales"; Some "Q4"; None];
                               [Some "Notes"; Some "Details"; Some "Extra"];
                               [Some "Notes"; Some "Details"; Some "Extra"];
                               [Some "Total"; Some "9"; Some "Extra"]] |})
    by (vm_compute; reflexivity).
  destruct (X6_skeleton_is_the_ordered_subtable frame_5x3 1 _ H)
    as (rows & cols & rs & cs & Hrest).
  eexists _, rows, cols, rs, cs. split; [exact H | exact Hrest].
Defined.









Lemma equal_positions_refl (norm : cell -> string) (l : list cell) :
  equal_positions norm l l = Py.len l.
Proof.
  unfold Py.len. induction l as [|a l IH]; [reflexivity|].
  cbn [equal_positions]. rewrite String.eqb_refl, IH. simpl length. lia.
Qed.

Lemma similar_lines_refl (norm : cell -> string) (l : list cell) :
  similar_lines norm l l = true.
Proof.
  unfold similar_lines. rewrite equal_positions_refl. apply Z.leb_le.
  unfold Py.len. lia.
Qed.

(** X8: rows strictly inside a block of equal rows are dropped.  When the
    interior rows [a .. b] (with [a < b]) all carry the same values, none of
    them is an anchor, and for a margin [k >= 0] no row from [a + k] to
    [b - k] is kept. *)
Theorem X8_equal_rows_are_dropped (df : DataFrame) (k a b : Z) (rows cols : gset Z) :
  (0 <= k)%Z -> (1 <= a)%Z -> (a < b)%Z -> (b <= shape0 df - 2)%Z ->
  (forall i, (a <= i < b)%Z -> row_cells df i = row_cells df (i + 1)) ->
  skeleton_indices df k = Ok (rows, cols) ->
  forall x, (a + k <= x <= b - k)%Z -> x ∉ rows.
Proof.
  intros Hk Ha Hab Hb Heq Hsk x Hx Hin.
  assert (H1 : (1 <= shape1 df)%Z).
  { destruct (shape_nonneg df) as [_ Hn1].
    destruct (decide (shape1 df = 0)) as [Hz|Hz]; [|lia].
    unfold skeleton_indices in Hsk.
    rewrite (row_anchors_raise df Hz) in Hsk by lia. discriminate Hsk. }
  destruct (anchors_spec df) as (ra & ca & Hra & Hca & Hrmem & _); [lia | exact H1|].
  unfold skeleton_indices in Hsk. rewrite Hra, Hca in Hsk.
  cbn [mbind result_bind] in Hsk. injection Hsk as <- <-.
  apply elem_of_expand_anchors in Hin as (r & Hr & Hrx).
  apply Hrmem in Hr as [Hrange Hbound].
  assert (Hblock : (a <= r <= b)%Z) by lia.
  unfold row_boundary in Hbound.
  destruct (Z.eqb_spec r 0) as [?|_]; [lia|].
  destruct (Z.eqb_spec r (shape0 df - 1)) as [?|_]; [lia|].
  cbn [orb] in Hbound. apply andb_true_iff in Hbound as [Hprev Hnext].
  apply negb_true_iff in Hprev, Hnext.
  destruct (decide (r < b)%Z) as [Hlt|Hge].
  - rewrite <- (Heq r), similar_lines_refl in Hnext by lia. discriminate Hnext.
  - replace r with (r - 1 + 1)%Z in Hprev at 2 by lia.
    rewrite <- (Heq (r - 1)%Z), similar_lines_refl in Hprev by lia. discriminate Hprev.
Qed.

(** X9: columns strictly inside a block of equal columns are dropped, one
    column later than rows at each end: when the interior columns [a .. b]
    all carry the same values, no column strictly between [a] and [b] is an
    anchor, and for a margin [k >= 0] no column from [a + 1 + k] to
    [b - 1 - k] is kept. *)
Theorem X9_equal_columns_are_dropped (df : DataFrame) (k a b : Z) (rows cols : gset Z) :
  (0 <= k)%Z -> (1 <= a)%Z -> (b <= shape1 df - 2)%Z ->
  (forall j, (a <= j < b)%Z -> col_cells df j = col_cells df (j + 1)) ->
  skeleton_indices df k = Ok (rows, cols) ->
  forall y, (a + 1 + k <= y <= b - 1 - k)%Z -> y ∉ cols.
Proof.
  intros Hk Ha Hb Heq Hsk y Hy Hin.
  assert (H0 : (1 <= shape0 df)%Z).
  { destruct (shape_nonneg df) as [Hn0 _].
    destruct (decide (shape0 df = 0)) as [Hz|Hz]; [|lia].
    unfold skeleton_indices in Hsk.
    destruct (collect_anchors_spec (row_is_boundary df) (row_boundary df) (shape0 df))
      as (ra & Hra & _).
    { intros i Hi. lia. }
    fold (row_anchors df) in Hra. rewrite Hra in Hsk. cbn [mbind result_bind] in Hsk.
    rewrite (col_anchors_raise df Hz) in Hsk by lia. discriminate Hsk. }
  destruct (anchors_spec df) as (ra & ca & Hra & Hca & _ & Hcmem); [exact H0 | lia|].
  unfold skeleton_indices in Hsk. rewrite Hra, Hca in Hsk.
  cbn [mbind result_bind] in Hsk. injection Hsk as <- <-.
  apply elem_of_expand_anchors in Hin as (c & Hc & Hcy).
  apply Hcmem in Hc as [Hrange Hbound].
  assert (Hblock : (a < c < b)%Z) by lia.
  unfold col_boundary in Hbound.
  destruct (Z.eqb_spec c 0) as [?|_]; [lia|].
  destruct (Z.eqb_spec c (shape1 df - 1)) as [?|_]; [lia|].
  cbn [orb] in Hbound.
  replace c with (c - 1 + 1)%Z in Hbound at 2 by lia.
  rewrite <- (Heq (c - 1)%Z), <- (Heq c), !similar_lines_refl in Hbound by lia.
  discriminate Hbound.
Qed.

Lemma X8_equal_rows_are_dropped_witness :
  (forall i, (1 <= i < 3)%Z -> row_cells frame_5x3 i = row_cells frame_5x3 (i + 1)) /\
  skeleton_indices frame_5x3 1 =
    Ok (({[ 0%Z; 1%Z; 3%Z; 4%Z ]} : gset Z), ({[ 0%Z; 1%Z; 2%Z ]} : gset Z)) /\
  2%Z ∉ ({[ 0%Z; 1%Z; 3%Z; 4%Z ]} : gset Z).
Proof.
  assert (Heq : forall i, (1 <= i < 3)%Z ->
                          row_cells frame_5x3 i = row_cells frame_5x3 (i + 1)).
  { intros i Hi. assert (i = 1 \/ i = 2)%Z as [-> | ->] by lia; reflexivity. }
  assert (Hsk : skeleton_indices frame_5x3 1 =
                Ok (({[ 0%Z; 1%Z; 3%Z; 4%Z ]} : gset Z), ({[ 0%Z; 1%Z; 2%Z ]} : gset Z)))
    by (vm_compute; reflexivity).
  split; [exact Heq|]. split; [exact Hsk|].
  refine (X8_equal_rows_are_dropped frame_5x3 1 1 3 _ _ _ _ _ _ Heq Hsk 2 _);
    try lia; shape_lia.
Defined.

Lemma X9_equal_columns_are_dropped_witness :
  (forall j, (1 <= j < 3)%Z -> col_cells frame_2x5 j = col_cells frame_2x5 (j + 1)) /\
  skeleton_indices frame_2x5 0 =
    Ok (({[ 0%Z; 1%Z ]} : gset Z), ({[ 0%Z; 1%Z; 3%Z; 4%Z ]} : gset Z)) /\
  2%Z ∉ ({[ 0%Z; 1%Z; 3%Z; 4%Z ]} : gset Z).
Proof.
  assert (Heq : forall j, (1 <= j < 3)%Z ->
                          col_cells frame_2x5 j = col_cells frame_2x5 (j + 1)).
  { intros j Hj. assert (j = 1 \/ j = 2)%Z as [-> | ->] by lia; reflexivity. }
  assert (Hsk : skeleton_indices frame_2x5 0 =
                Ok (({[ 0%Z; 1%Z ]} : gset Z), ({[ 0%Z; 1%Z; 3%Z; 4%Z ]} : gset Z)))
    by (vm_compute; reflexivity).
  split; [exact Heq|]. split; [exact Hsk|].
  refine (X9_equal_columns_are_dropped frame_2x5 0 1 3 _ _ _ _ _ Heq Hsk 2 _);
    try lia; shape_lia.
Defined.

(** * Further properties of inverted_index_demo.py *)

(** ** Addresses that do not parse *)

Lemma int_raises_ValueError (s : string) (e : exn) : Py.int s = Raise e -> e = ValueError.
Proof.
  unfold Py.int.
  destruct (match Py.strip_with Py.isspace_int s with
            | String "-" r => (true, r)
            | String "+" r => (false, r)
            | _ => (false, Py.strip_with Py.isspace_int s)
            end) as [negative body].
  destruct (Py.literal_digits false body) as [ds|]; [|congruence].
  destruct (NilZero.uint_of_string ds); congruence.
Qed.

Lemma parse_address_malformed (addr : string) :
  if malformed addr
  then parse_address addr =
       Raise (match addr with EmptyString => IndexError | _ => ValueError end)
  else exists t, parse_address addr = Ok t.
Proof.
  destruct addr as [|c rest]; [reflexivity|].
  unfold malformed, parse_address. cbn [Py.head Py.tail mbind result_bind].
  destruct (Py.int rest) as [row|e] eqn:Hint.
  - eexists. reflexivity.
  - rewrite (int_raises_ValueError rest e Hint). reflexivity.
Qed.

Lemma mapM_parse_find (addresses : list string) :
  match find malformed addresses with
  | Some a => mapM_r parse_address addresses =
              Raise (match a with EmptyString => IndexError | _ => ValueError end)
  | None => exists parsed, mapM_r parse_address addresses = Ok parsed
  end.
Proof.
  induction addresses as [|a l IH]; [exists []; reflexivity|].
  cbn [find mapM_r]. pose proof (parse_address_malformed a) as Ha.
  destruct (malformed a).
  - rewrite Ha. reflexivity.
  - destruct Ha as (t & ->). cbn [mbind result_bind].
    destruct (find malformed l) as [b|].
    + rewrite IH. reflexivity.
    + destruct IH as (parsed & ->). eexists. reflexivity.
Qed.

Lemma merge_cell_ranges_find (addresses : list string) :
  match find malformed addresses with
  | Some a => merge_cell_ranges addresses =
              Raise (match a with EmptyString => IndexError | _ => ValueError end)
  | None => exists s, merge_cell_ranges addresses = Ok s
  end.
Proof.
  pose proof (mapM_parse_find addresses) as H.
  destruct addresses as [|a0 l]; [exists EmptyString; reflexivity|].
  destruct (find malformed (a0 :: l)) as [a|].
  - unfold merge_cell_ranges. rewrite H. reflexivity.
  - destruct H as (parsed & Hparsed). eexists.
    apply (merge_cell_ranges_runs (a0 :: l) parsed); [discriminate | exact Hparsed].
Qed.

(** X10: [merge_cell_ranges] returns exactly when no address is malformed,
    and otherwise raises for the first malformed address of the input:
    [IndexError] when it is the empty string, [ValueError] when its tail is
    not an integer literal.  The sweep itself never raises. *)
Theorem X10_merge_raises_at_first_malformed_address (addresses : list string) :
  match find malformed addresses with
  | Some EmptyString => merge_cell_ranges addresses = Raise IndexError
  | Some (String _ _) => merge_cell_ranges addresses = Raise ValueError
  | None => exists s, merge_cell_ranges addresses = Ok s
  end.
Proof.
  pose proof (merge_cell_ranges_find addresses) as H.
  destruct (find malformed addresses) as [[|c rest]|]; exact H.
Qed.

(** ** The order of the input *)

Lemma mapM_r_perm {A B} (f : A -> result B) (l l' : list A) :
  l ≡ₚ l' ->
  forall ys, mapM_r f l = Ok ys -> exists ys', mapM_r f l' = Ok ys' /\ ys ≡ₚ ys'.
Proof.
  induction 1 as [|x l l' _ IH|x y l|l1 l2 l3 _ IH1 _ IH2]; intros ys Hys.
  - exists ys. split; [exact Hys | reflexivity].
  - cbn [mapM_r] in *. apply bind_Ok in Hys as (z & Hz & Hys).
    apply bind_Ok in Hys as (zs & Hzs & [= <-]).
    destruct (IH zs Hzs) as (zs' & Hzs' & Hperm).
    exists (z :: zs'). rewrite Hz, Hzs'. split; [reflexivity|].
    constructor. exact Hperm.
  - cbn [mapM_r] in *. apply bind_Ok in Hys as (b & Hb & Hys).
    apply bind_Ok in Hys as (bs & Hbs & [= <-]).
    apply bind_Ok in Hbs as (a & Ha & Hbs).
    apply bind_Ok in Hbs as (zs & Hzs & [= <-]).
    exists (a :: b :: zs). rewrite Ha, Hb, Hzs. split; [reflexivity|].
    apply Permutation_swap.
  - destruct (IH1 ys Hys) as (ys2 & Hys2 & Hperm2).
    destruct (IH2 ys2 Hys2) as (ys3 & Hys3 & Hperm3).
    exists ys3. split; [exact Hys3 | etrans; eassumption].
Qed.

Lemma merge_cell_ranges_Ok_inv (addresses : list string) (s : string) :
  merge_cell_ranges addresses = Ok s ->
  exists parsed, mapM_r parse_address addresses = Ok parsed.
Proof.
  destruct addresses as [|a l]; [exists []; reflexivity|].
  unfold merge_cell_ranges. intros H. apply bind_Ok in H as (parsed & Hparsed & _).
  exists parsed. exact Hparsed.
Qed.

Lemma merge_cell_ranges_perm (addresses addresses' : list string) (s : string) :
  addresses ≡ₚ addresses' ->
  merge_cell_ranges addresses = Ok s -> merge_cell_ranges addresses' = Ok s.
Proof.
  intros Hperm Hs.
  destruct addresses as [|a l].
  { apply Permutation_nil_l in Hperm. subst addresses'. exact Hs. }
  assert (Hne' : addresses' <> []).
  { intros ->. apply Permutation_nil_r in Hperm. discriminate Hperm. }
  destruct (merge_cell_ranges_Ok_inv _ _ Hs) as (parsed & Hparsed).
  destruct (mapM_r_perm parse_address _ _ Hperm parsed Hparsed)
    as (parsed' & Hparsed' & Hpp).
  rewrite (merge_cell_ranges_runs (a :: l) parsed) in Hs by (discriminate || exact Hparsed).
  rewrite (merge_cell_ranges_runs addresses' parsed' Hne' Hparsed').
  rewrite <- (sort_parsed_unique parsed' (sort_parsed parsed)); [exact Hs| |].
  - rewrite <- Hpp. apply sort_parsed_perm.
  - apply sort_parsed_sorted.
Qed.

(** X11: the result of [merge_cell_ranges] does not depend on the order in
    which the addresses are given: when it returns an entry for a list, it
    returns the same entry for every rearrangement of the list. *)
Theorem X11_merge_ignores_input_order (addresses addresses' : list string) (s : string) :
  addresses ≡ₚ addresses' ->
  merge_cell_ranges addresses = Ok s -> merge_cell_ranges addresses' = Ok s.
Proof. apply merge_cell_ranges_perm. Qed.

Lemma X11_merge_ignores_input_order_witness :
  ["B2"; "A2"; "A1"; "B4"] ≡ₚ ["A1"; "B4"; "B2"; "A2"] /\
  merge_cell_ranges ["B2"; "A2"; "A1"; "B4"] = Ok "A1:A2,B2,B4" /\
  merge_cell_ranges ["A1"; "B4"; "B2"; "A2"] = Ok "A1:A2,B2,B4".
Proof.
  assert (Hperm : ["B2"; "A2"; "A1"; "B4"] ≡ₚ ["A1"; "B4"; "B2"; "A2"]).
  { apply (Permutation_cons_app ["A1"; "B4"] ["A2"]). simpl.
    apply (Permutation_cons_app ["A1"; "B4"] []). simpl. reflexivity. }
  assert (H : merge_cell_ranges ["B2"; "A2"; "A1"; "B4"] = Ok "A1:A2,B2,B4")
    by (vm_compute; reflexivity).
  split; [exact Hperm|]. split; [exact H|].
  exact (X11_merge_ignores_input_order _ _ _ Hperm H).
Defined.

(** ** Blocks of one column *)

Lemma parse_addresses_of (coords : list coord) :
  mapM_r parse_address (map address_of coords) = Ok (map tuple_of coords).
Proof.
  induction coords as [|p coords IH]; [reflexivity|].
  cbn [map mapM_r]. rewrite parse_address_of, IH. reflexivity.
Qed.

Lemma span_is_run (col : ascii) (hi : Z) (n : nat) :
  forall lo : Z, Z.to_nat (hi + 1 - lo) = n ->
                 is_run (map tuple_of (column_span col lo hi)) = true.
Proof.
  induction n as [|n IH]; intros lo Hn.
  - unfold column_span. rewrite range_nil by lia. reflexivity.
  - rewrite column_span_cons by lia.
    pose proof (IH (lo + 1)%Z ltac:(lia)) as Hrest.
    destruct (decide (lo + 1 <= hi)%Z) as [Hle|Hgt].
    + rewrite (column_span_cons col (lo + 1) hi) in * by exact Hle.
      cbn [map] in *.
      change (is_run (tuple_of (col, lo) :: tuple_of (col, (lo + 1)%Z) :: ?l))
        with (continues (tuple_of (col, lo)) (tuple_of (col, (lo + 1)%Z)) &&
              is_run (tuple_of (col, (lo + 1)%Z) :: l)).
      rewrite Hrest, andb_true_r. unfold continues, tuple_of. cbn [fst snd].
      rewrite bool_decide_eq_true_2 by reflexivity. apply Z.eqb_refl.
    + unfold column_span at 1. rewrite range_nil by lia. reflexivity.
Qed.

Lemma run_sorted (l : list (ascii * Z * string)) :
  is_run l = true -> Sorted tuple_le l.
Proof.
  induction l as [|t [|u l] IH]; intros Hrun.
  - constructor.
  - repeat constructor.
  - change (is_run (t :: u :: l)) with (continues t u && is_run (u :: l)) in Hrun.
    apply andb_true_iff in Hrun as [Htu Hrun].
    constructor; [apply IH, Hrun|]. constructor.
    unfold continues in Htu. apply andb_true_iff in Htu as [Hc Hr].
    apply bool_decide_eq_true in Hc. apply Z.eqb_eq in Hr.
    apply tuple_le_spec. right. split; [exact Hc|]. left. lia.
Qed.

Lemma runs_of_run (l : list (ascii * Z * string)) :
  l <> [] -> is_run l = true -> runs l = [l].
Proof.
  induction l as [|t [|u l] IH]; intros Hne Hrun.
  - congruence.
  - reflexivity.
  - change (is_run (t :: u :: l)) with (continues t u && is_run (u :: l)) in Hrun.
    apply andb_true_iff in Hrun as [Htu Hrun].
    rewrite runs_cons, Htu, IH by (discriminate || exact Hrun). reflexivity.
Qed.

Lemma range_snoc (a b : Z) : (a <= b)%Z -> Py.range a (b + 1) = (Py.range a b ++ [b])%list.
Proof.
  intros H. unfold Py.range.
  replace (Z.to_nat (b + 1 - a)) with (S (Z.to_nat (b - a))) by lia.
  rewrite seq_S, map_app. cbn [map]. do 2 f_equal. lia.
Qed.

Lemma column_span_last (col : ascii) (lo hi : Z) :
  (lo <= hi)%Z -> last (map tuple_of (column_span col lo hi)) = Some (tuple_of (col, hi)).
Proof.
  intros H. unfold column_span. rewrite range_snoc, !map_app by exact H.
  cbn [map]. apply last_snoc.
Qed.

Lemma merge_column_span (col : ascii) (lo hi : Z) :
  (lo < hi)%Z ->
  merge_cell_ranges (map address_of (column_span col lo hi)) =
  Ok (address_of (col, lo) ++ ":" ++ address_of (col, hi)).
Proof.
  intros Hlt.
  assert (Hrun : is_run (map tuple_of (column_span col lo hi)) = true)
    by (apply (span_is_run col hi (Z.to_nat (hi + 1 - lo)) lo); reflexivity).
  assert (Hne : map tuple_of (column_span col lo hi) <> []).
  { rewrite column_span_cons by lia. discriminate. }
  assert (Hne' : map address_of (column_span col lo hi) <> []).
  { rewrite column_span_cons by lia. discriminate. }
  rewrite (merge_cell_ranges_runs _ _ Hne' (parse_addresses_of _)).
  rewrite <- (sort_parsed_unique _ (map tuple_of (column_span col lo hi)));
    [|reflexivity | apply run_sorted, Hrun].
  rewrite (runs_of_run _ Hne Hrun). cbn [map].
  pose proof (column_span_last col (lo + 1) hi ltac:(lia)) as Hlast.
  rewrite column_span_cons in * by lia.
  rewrite (column_span_cons col (lo + 1) hi) in * by lia.
  cbn [map] in *. unfold show_run. rewrite Hlast. reflexivity.
Qed.

(** X12: the addresses of the rows [lo .. hi] of one column, in whatever
    order they are given, are merged into the single range from the address
    of row [lo] to the address of row [hi]. *)
Theorem X12_column_block_is_one_range (col : ascii) (lo hi : Z) (addresses : list string) :
  (lo < hi)%Z ->
  addresses ≡ₚ map address_of (column_span col lo hi) ->
  merge_cell_ranges addresses = Ok (address_of (col, lo) ++ ":" ++ address_of (col, hi)).
Proof.
  intros Hlt Hperm. symmetry in Hperm.
  apply (merge_cell_ranges_perm _ _ _ Hperm), merge_column_span, Hlt.
Qed.

Lemma X12_column_block_is_one_range_witness :
  (2 < 5)%Z /\
  ["C4"; "C2"; "C5"; "C3"] ≡ₚ map address_of (column_span "C" 2 5) /\
  merge_cell_ranges ["C4"; "C2"; "C5"; "C3"] = Ok "C2:C5".
Proof.
  assert (Hperm : ["C4"; "C2"; "C5"; "C3"] ≡ₚ map address_of (column_span "C" 2 5)).
  { change (map address_of (column_span "C" 2 5)) with ["C2"; "C3"; "C4"; "C5"].
    apply (Permutation_cons_app ["C2"; "C3"] ["C5"]). simpl.
    apply (Permutation_cons_app [] ["C3"; "C5"]). simpl.
    apply (Permutation_cons_app ["C3"] []). simpl. reflexivity. }
  split; [lia|]. split; [exact Hperm|].
  exact (X12_column_block_is_one_range "C" 2 5 _ ltac:(lia) Hperm).
Defined.

(** ** The order of the coordinates in an entry *)

Lemma coord_le_trans (p q r : coord) : coord_le p q -> coord_le q r -> coord_le p r.
Proof.
  destruct p as [c1 r1], q as [c2 r2], r as [c3 r3]. unfold coord_le. cbn [fst snd].
  intros [H1|[-> H1]] [H2|[-> H2]];
    first [ left; lia | right; split; [reflexivity | lia] ].
Qed.

Lemma tuple_le_coord_le (t u : ascii * Z * string) :
  tuple_le t u -> coord_le (coord_of t) (coord_of u).
Proof.
  rewrite tuple_le_spec. unfold coord_le, coord_of. cbn [fst snd].
  intros [H|(Hc & [Hr|[Hr _]])]; [left; exact H | right; split; [exact Hc | lia]..].
Qed.

Lemma merge_cell_ranges_expands (coords : list coord) :
  coords <> [] -> Forall (fun p => (0 <= p.2)%Z) coords ->
  exists s,
    merge_cell_ranges (map address_of coords) = Ok s /\
    expand_ranges s = Some (map coord_of (sort_parsed (map tuple_of coords))).
Proof.
  intros Hne Hrows.
  set (sorted := sort_parsed (map tuple_of coords)).
  assert (Hperm : sorted ≡ₚ map tuple_of coords) by apply sort_parsed_perm.
  assert (Hcan : Forall canonical sorted).
  { rewrite Hperm. apply Forall_fmap. eapply Forall_impl; [exact Hrows|].
    intros p Hp. apply tuple_of_canonical, Hp. }
  assert (Hgood : Forall good_run (runs sorted)).
  { pose proof (runs_are_runs sorted) as Hruns.
    assert (Hin : Forall (Forall canonical) (runs sorted)).
    { apply Forall_concat. rewrite runs_concat. exact Hcan. }
    rewrite Forall_forall in *. intros r Hr.
    destruct (Hruns r Hr) as [H1 H2]. split; [exact H2|]. split; [exact H1|].
    apply Hin, Hr. }
  exists (String.concat "," (map show_run (runs sorted))). split.
  - apply merge_cell_ranges_runs; [|apply parse_addresses_of].
    destruct coords; [congruence | discriminate].
  - rewrite <- (runs_concat sorted) at 2. rewrite concat_map.
    apply expand_ranges_runs; [exact Hgood|].
    intros Hnil. pose proof (runs_concat sorted) as Hc. rewrite Hnil in Hc.
    simpl in Hc. rewrite <- Hc in Hperm. apply Permutation_nil_l in Hperm.
    destruct coords; [congruence | discriminate].
Qed.

(** X13: the entry that [merge_cell_ranges] returns for the addresses of
    coordinates with rows that are not negative lists the coordinates in
    ascending order, by column character and then by row, whatever the order
    of the input. *)
Theorem X13_entry_lists_coordinates_in_order (coords : list coord) :
  Forall (fun p => (0 <= p.2)%Z) coords ->
  exists s cs,
    merge_cell_ranges (map address_of coords) = Ok s /\
    expand_ranges s = Some cs /\ cs ≡ₚ coords /\
    StronglySorted coord_le cs.
Proof.
  intros Hrows.
  destruct (decide (coords = [])) as [->|Hne].
  { exists EmptyString, []. repeat split; [reflexivity | constructor]. }
  destruct (merge_cell_ranges_expands coords Hne Hrows) as (s & Hs & Hexp).
  exists s, (map coord_of (sort_parsed (map tuple_of coords))).
  split; [exact Hs|]. split; [exact Hexp|]. split.
  - rewrite (sort_parsed_perm (map tuple_of coords)), map_map.
    erewrite map_ext; [rewrite map_id; reflexivity|].
    intros p. apply coord_of_tuple_of.
  - apply Sorted_StronglySorted; [intros p q r; apply coord_le_trans|].
    apply (Sorted_fmap coord_of tuple_le coord_le); [|apply sort_parsed_sorted].
    intros t u. apply tuple_le_coord_le.
Qed.

Lemma X13_entry_lists_coordinates_in_order_witness :
  exists s cs,
    merge_cell_ranges (map address_of [("B"%char, 3%Z); ("A"%char, 2%Z); ("A"%char, 1%Z)])
      = Ok s /\
    expand_ranges s = Some cs /\
    cs ≡ₚ [("B"%char, 3%Z); ("A"%char, 2%Z); ("A"%char, 1%Z)] /\
    StronglySorted coord_le cs.
Proof.
  apply (X13_entry_lists_coordinates_in_order
           [("B"%char, 3%Z); ("A"%char, 2%Z); ("A"%char, 1%Z)]).
  repeat (apply Forall_cons_2; [simpl; lia|]). apply Forall_nil_2.
Defined.

(** ** Building and parsing an address *)

(** X14: for a column labelled by one character, the address that
    [create_cell_address] builds for row [row] parses back, in the first loop
    of [merge_cell_ranges], to that character and to the 1-based row
    [row + 1]. *)
Theorem X14_address_parses_back (df : DataFrame) (row col : Z) (a : ascii) :
  column_label df col = String a EmptyString ->
  parse_address (create_cell_address row col df) =
  Ok (a, (row + 1)%Z, create_cell_address row col df).
Proof.
  intros Hlabel. unfold create_cell_address. rewrite Hlabel.
  apply (parse_address_of (a, (row + 1)%Z)).
Qed.

Lemma X14_address_parses_back_witness :
  column_label frame_5x3 1 = "B" /\
  parse_address (create_cell_address 3 1 frame_5x3) = Ok ("B"%char, 4%Z, "B4").
Proof.
  split; [reflexivity|].
  exact (X14_address_parses_back frame_5x3 3 1 "B"%char eq_refl).
Defined.

(** ** The index of an arbitrary frame *)

Lemma dict_get_elem {V} (k : string) (x : V) (d : dict V) :
  NoDup (map fst d) -> (k, x) ∈ d -> dict_get k d = Some x.
Proof.
  induction d as [|[k1 v1] d IH]; simpl; intros Hd Hin.
  - apply elem_of_nil in Hin. contradiction.
  - apply NoDup_cons in Hd as [Hk1 Hd]. apply elem_of_cons in Hin as [[= -> ->]|Hin].
    + rewrite String.eqb_refl. reflexivity.
    + destruct (String.eqb_spec k k1) as [->|_]; [|auto].
      exfalso. apply Hk1. apply (list_elem_of_fmap_2 fst _ (k1, x)), Hin.
Qed.

Lemma dict_elem_get {V} (k : string) (x : V) (d : dict V) :
  dict_get k d = Some x -> (k, x) ∈ d.
Proof.
  induction d as [|[k1 v1] d IH]; simpl; [discriminate|].
  destruct (String.eqb_spec k k1) as [->|_].
  - intros [= ->]. apply list_elem_of_here.
  - intros H. apply list_elem_of_further, IH, H.
Qed.

Lemma dict_key_get {V} (k : string) (d : dict V) :
  k ∈ map fst d -> exists x, dict_get k d = Some x.
Proof.
  intros Hk. destruct (dict_get k d) as [x|] eqn:Hget; [eauto|].
  exfalso. clear -Hk Hget. induction d as [|[k1 v1] d IH]; simpl in *.
  - apply elem_of_nil in Hk. exact Hk.
  - destruct (String.eqb_spec k k1) as [->|Hne]; [discriminate Hget|].
    apply elem_of_cons in Hk as [Hk|Hk]; [congruence | auto].
Qed.

Lemma str_nonempty (n : Z) : Py.str n <> EmptyString.
Proof.
  intros H. pose proof (int_str n) as Hn. rewrite H in Hn.
  vm_compute in Hn. discriminate Hn.
Qed.

Lemma create_cell_address_nonempty (df : DataFrame) (r c : Z) :
  create_cell_address r c df <> EmptyString.
Proof.
  unfold create_cell_address. intros H.
  apply append_eq_nil in H as [_ H]. exact (str_nonempty _ H).
Qed.

Lemma merge_nonempty_addresses (addrs : list string) :
  Forall (fun a => a <> EmptyString) addrs ->
  if existsb malformed addrs
  then merge_cell_ranges addrs = Raise ValueError
  else exists s, merge_cell_ranges addrs = Ok s.
Proof.
  intros Hne. pose proof (merge_cell_ranges_find addrs) as H.
  destruct (find malformed addrs) as [a|] eqn:Hfind.
  - apply find_some in Hfind as [Hin Hmal].
    rewrite (proj2 (existsb_exists malformed addrs)) by eauto.
    rewrite List.Forall_forall in Hne. specialize (Hne a Hin).
    destruct a; [congruence | exact H].
  - destruct (existsb malformed addrs) eqn:Hex; [|exact H].
    apply existsb_exists in Hex as (a & Hin & Hmal).
    rewrite (find_none _ _ Hfind a Hin) in Hmal. discriminate Hmal.
Qed.

Lemma index_loop_cases (items : dict (list string)) :
  forall res0 : dict string,
    Forall (fun kv => Forall (fun a => a <> EmptyString) kv.2) items ->
    if existsb (fun kv => existsb malformed kv.2) items
    then foldM (fun res '(val, addrs) =>
                  merged ← merge_cell_ranges addrs; Ok (dict_set val merged res))
               items res0 = Raise ValueError
    else exists res,
        foldM (fun res '(val, addrs) =>
                 merged ← merge_cell_ranges addrs; Ok (dict_set val merged res))
              items res0 = Ok res.
Proof.
  induction items as [|[k0 a0] items IH]; intros res0 Hne.
  - exists res0. reflexivity.
  - apply Forall_cons in Hne as [Hne0 Hne]. cbn [foldM existsb snd].
    pose proof (merge_nonempty_addresses a0 Hne0) as H0.
    destruct (existsb malformed a0).
    + rewrite H0. reflexivity.
    + destruct H0 as (s0 & ->). cbn [orb mbind result_bind]. apply IH, Hne.
Qed.

Lemma elem_of_addresses_of (df : DataFrame) (v : string) (cells : list (Z * Z))
      (a : string) :
  a ∈ addresses_of df v cells <->
  exists rc, rc ∈ cells /\ holds_value df v rc = true /\
             a = create_cell_address rc.1 rc.2 df.
Proof.
  unfold addresses_of. rewrite list_elem_of_fmap. split.
  - intros (rc & -> & Hrc). apply list_elem_of_filter in Hrc as [Hh Hrc]. eauto.
  - intros (rc & Hrc & Hh & ->). exists rc. split; [reflexivity|].
    apply list_elem_of_filter. auto.
Qed.

Lemma build_index_items (df : DataFrame) (k : string) (addrs : list string) :
  (k, addrs) ∈ build_index df <->
  addrs = addresses_of df k (cells_of df) /\ addrs <> [].
Proof.
  split.
  - intros Hin. apply (dict_get_elem _ _ _ (build_index_NoDup df)) in Hin.
    rewrite build_index_get in Hin.
    destruct (addresses_of df k (cells_of df)) as [|a l]; [discriminate Hin|].
    injection Hin as <-. split; [reflexivity | discriminate].
  - intros [-> Hne]. apply dict_elem_get. rewrite build_index_get.
    destruct (addresses_of df k (cells_of df)); [congruence | reflexivity].
Qed.

Lemma elem_of_indexed_cells (df : DataFrame) (rc : Z * Z) :
  rc ∈ indexed_cells df <->
  rc ∈ cells_of df /\
  exists v, iat df rc.1 rc.2 = Some v /\ nonempty_cell (Some v) = true.
Proof.
  unfold indexed_cells. rewrite list_elem_of_filter. split.
  - intros [Hne Hrc]. split; [exact Hrc|].
    destruct (iat df rc.1 rc.2) as [v|]; [eauto | discriminate Hne].
  - intros (Hrc & v & Hv & Hne). rewrite Hv. auto.
Qed.

Lemma index_malformed (df : DataFrame) :
  existsb (fun kv => existsb malformed kv.2) (build_index df) =
  existsb (fun rc => malformed (create_cell_address rc.1 rc.2 df)) (indexed_cells df).
Proof.
  apply Bool.eq_iff_eq_true. rewrite !existsb_exists. split.
  - intros ([k addrs] & Hin & Hex). apply existsb_exists in Hex as (a & Ha & Hmal).
    apply list_elem_of_In, build_index_items in Hin as [-> _].
    apply list_elem_of_In, elem_of_addresses_of in Ha as (rc & Hrc & Hh & ->).
    exists rc. split; [|exact Hmal].
    apply list_elem_of_In, elem_of_indexed_cells. split; [exact Hrc|].
    apply holds_value_true in Hh. eauto.
  - intros (rc & Hin & Hmal).
    apply list_elem_of_In, elem_of_indexed_cells in Hin as (Hrc & v & Hv & Hne).
    assert (Ha : create_cell_address rc.1 rc.2 df ∈ addresses_of df v (cells_of df)).
    { apply elem_of_addresses_of. exists rc. split; [exact Hrc|].
      split; [apply holds_value_true; auto | reflexivity]. }
    exists (v, addresses_of df v (cells_of df)). split.
    + apply list_elem_of_In, build_index_items. split; [reflexivity|].
      intros Hnil. rewrite Hnil in Ha. apply elem_of_nil in Ha. exact Ha.
    + apply existsb_exists. exists (create_cell_address rc.1 rc.2 df).
      split; [apply list_elem_of_In, Ha | exact Hmal].
Qed.

Lemma invert_index_cases (df : DataFrame) :
  if existsb (fun rc => malformed (create_cell_address rc.1 rc.2 df)) (indexed_cells df)
  then invert_index_with_ranges df = Raise ValueError
  else exists index, invert_index_with_ranges df = Ok index.
Proof.
  rewrite <- index_malformed. apply index_loop_cases.
  apply Forall_forall. intros [k addrs] Hin. apply build_index_items in Hin as [-> _].
  apply Forall_forall. intros a Ha.
  apply elem_of_addresses_of in Ha as (rc & _ & _ & ->).
  apply create_cell_address_nonempty.
Qed.

(** X15: on every frame [invert_index_with_ranges] either returns an index
    or raises [ValueError], never another exception: it raises exactly when
    the address of some cell that is present and not blank is malformed. *)
Theorem X15_index_returns_or_raises_ValueError (df : DataFrame) :
  if existsb (fun rc => malformed (create_cell_address rc.1 rc.2 df)) (indexed_cells df)
  then invert_index_with_ranges df = Raise ValueError
  else exists index, invert_index_with_ranges df = Ok index.
Proof. apply invert_index_cases. Qed.

Lemma index_loop_keys (items : dict (list string)) :
  forall res0 res : dict string,
    foldM (fun res '(val, addrs) =>
             merged ← merge_cell_ranges addrs; Ok (dict_set val merged res))
          items res0 = Ok res ->
    (forall k, k ∈ map fst res <-> k ∈ map fst res0 \/ k ∈ map fst items) /\
    (NoDup (map fst res0) -> NoDup (map fst res)) /\
    Forall (fun kv => exists s, merge_cell_ranges kv.2 = Ok s) items.
Proof.
  induction items as [|[k0 a0] items IH]; intros res0 res Hres.
  - injection Hres as <-. split; [|split; [auto | constructor]].
    intros k. simpl. rewrite elem_of_nil. tauto.
  - cbn [foldM] in Hres. apply bind_Ok in Hres as (res1 & Hstep & Hres).
    apply bind_Ok in Hstep as (s0 & Hs0 & [= <-]).
    destruct (IH _ _ Hres) as (Hkeys & Hnodup & Hall).
    split; [|split].
    + intros k. rewrite Hkeys, dict_keys_set. cbn [map fst]. rewrite elem_of_cons. tauto.
    + intros Hd. apply Hnodup, dict_set_NoDup, Hd.
    + constructor; [exists s0; exact Hs0 | exact Hall].
Qed.

Lemma build_index_keys (df : DataFrame) (v : string) :
  v ∈ map fst (build_index df) <->
  exists rc, rc ∈ indexed_cells df /\ iat df rc.1 rc.2 = Some v.
Proof.
  split.
  - intros Hv. apply dict_key_get in Hv as (addrs & Hget).
    apply dict_elem_get, build_index_items in Hget as [-> Hne].
    destruct (addresses_of df v (cells_of df)) as [|a l] eqn:Haddrs; [congruence|].
    assert (Ha : a ∈ addresses_of df v (cells_of df))
      by (rewrite Haddrs; apply list_elem_of_here).
    apply elem_of_addresses_of in Ha as (rc & Hrc & Hh & _).
    apply holds_value_true in Hh as [Hv Hnb].
    exists rc. split; [|exact Hv]. apply elem_of_indexed_cells. eauto.
  - intros (rc & Hin & Hv). apply elem_of_indexed_cells in Hin as (Hrc & v' & Hv' & Hnb).
    assert (v' = v) as -> by congruence.
    apply (list_elem_of_fmap_2 fst _ (v, addresses_of df v (cells_of df))).
    apply build_index_items. split; [reflexivity|].
    intros Hnil.
    assert (Ha : create_cell_address rc.1 rc.2 df ∈ addresses_of df v (cells_of df)).
    { apply elem_of_addresses_of. exists rc. split; [exact Hrc|].
      split; [apply holds_value_true; auto | reflexivity]. }
    rewrite Hnil in Ha. apply elem_of_nil in Ha. exact Ha.
Qed.

(** X16: the keys of an index that [invert_index_with_ranges] returns are
    pairwise distinct and are exactly the literal values of the cells that
    are present and not blank; so the index has at most as many entries as
    the frame has such cells. *)
Theorem X16_index_keys_are_the_cell_values (df : DataFrame) (index : dict string) :
  invert_index_with_ranges df = Ok index ->
  NoDup (map fst index) /\
  (forall v, v ∈ map fst index <->
             exists r c, (0 <= r < shape0 df)%Z /\ (0 <= c < shape1 df)%Z /\
                         iat df r c = Some v /\ nonempty_cell (Some v) = true) /\
  (length index <= length (indexed_cells df))%nat.
Proof.
  intros Hindex. unfold invert_index_with_ranges in Hindex.
  destruct (index_loop_keys _ _ _ Hindex) as (Hkeys & Hnodup & _).
  assert (Hkeys' : forall v, v ∈ map fst index <->
                             exists rc, rc ∈ indexed_cells df /\ iat df rc.1 rc.2 = Some v).
  { intros v. rewrite Hkeys, <- build_index_keys. cbn [map]. rewrite elem_of_nil. tauto. }
  assert (Hnd : NoDup (map fst index)) by (apply Hnodup; constructor).
  split; [exact Hnd|]. split.
  - intros v. rewrite Hkeys'. split.
    + intros ([r c] & Hin & Hv).
      apply elem_of_indexed_cells in Hin as (Hrc & v' & Hv' & Hnb).
      apply elem_of_cells in Hrc as [Hr Hc]. cbn [fst snd] in *.
      assert (v' = v) as -> by congruence. exists r, c. auto.
    + intros (r & c & Hr & Hc & Hv & Hnb). exists (r, c). split; [|exact Hv].
      apply elem_of_indexed_cells. split; [apply elem_of_cells; auto | eauto].
  - assert (Hsub : map fst index ⊆+
                   map (fun rc => default EmptyString (iat df rc.1 rc.2)) (indexed_cells df)).
    { apply NoDup_submseteq; [exact Hnd|]. intros v Hv.
      apply Hkeys' in Hv as (rc & Hin & Hv).
      apply list_elem_of_fmap. exists rc. rewrite Hv. auto. }
    apply submseteq_length in Hsub. rewrite !length_map in Hsub. exact Hsub.
Qed.

Lemma X16_index_keys_are_the_cell_values_witness :
  invert_index_with_ranges frame_5x3 =
    Ok [("Sales", "A1"); ("Q4", "B1"); ("Notes", "A2:A4"); ("Details", "B2:B4");
        ("Extra", "C2:C5"); ("Total", "A5"); ("9", "B5")] /\
  NoDup ["Sales"; "Q4"; "Notes"; "Details"; "Extra"; "Total"; "9"] /\
  (7 <= length (indexed_cells frame_5x3))%nat.
Proof.
  assert (H : invert_index_with_ranges frame_5x3 =
              Ok [("Sales", "A1"); ("Q4", "B1"); ("Notes", "A2:A4"); ("Details", "B2:B4");
                  ("Extra", "C2:C5"); ("Total", "A5"); ("9", "B5")])
    by (vm_compute; reflexivity).
  destruct (X16_index_keys_are_the_cell_values frame_5x3 _ H) as (Hnd & _ & Hlen).
  split; [exact H|]. split; [exact Hnd | exact Hlen].
Defined.

(** X17: an index that [invert_index_with_ranges] returns maps a value to
    an entry exactly when some cell filed by the first loop holds the value,
    and the entry is then what [merge_cell_ranges] returns for the addresses
    of those cells, taken in the order of the scan. *)
Theorem X17_index_entry_is_the_merged_addresses (df : DataFrame) (index : dict string)
        (v s : string) :
  invert_index_with_ranges df = Ok index ->
  (dict_get v index = Some s <->
   addresses_of df v (cells_of df) <> [] /\
   merge_cell_ranges (addresses_of df v (cells_of df)) = Ok s).
Proof.
  intros Hindex. unfold invert_index_with_ranges in Hindex.
  destruct (index_loop_keys _ _ _ Hindex) as (_ & _ & Hall).
  destruct (merge_fold (build_index df) [] (build_index_NoDup df))
    as (index' & Hindex' & Hlookup).
  { intros k addrs Hk. apply dict_elem_get in Hk.
    rewrite Forall_forall in Hall. exact (Hall (k, addrs) Hk). }
  rewrite Hindex in Hindex'. injection Hindex' as <-.
  rewrite Hlookup, build_index_get.
  destruct (addresses_of df v (cells_of df)) as [|a l] eqn:Haddrs.
  - simpl. split; [discriminate | intros [H _]; congruence].
  - destruct (merge_cell_ranges (a :: l)) as [s'|e].
    + split; [intros [= ->]; split; [discriminate | reflexivity] | intros [_ [= ->]]; reflexivity].
    + split; [discriminate | intros [_ H]; discriminate H].
Qed.

Lemma X17_index_entry_is_the_merged_addresses_witness :
  invert_index_with_ranges frame_5x3 =
    Ok [("Sales", "A1"); ("Q4", "B1"); ("Notes", "A2:A4"); ("Details", "B2:B4");
        ("Extra", "C2:C5"); ("Total", "A5"); ("9", "B5")] /\
  addresses_of frame_5x3 "Extra" (cells_of frame_5x3) = ["C2"; "C3"; "C4"; "C5"] /\
  merge_cell_ranges (addresses_of frame_5x3 "Extra" (cells_of frame_5x3)) = Ok "C2:C5".
Proof.
  assert (H : invert_index_with_ranges frame_5x3 =
              Ok [("Sales", "A1"); ("Q4", "B1"); ("Notes", "A2:A4"); ("Details", "B2:B4");
                  ("Extra", "C2:C5"); ("Total", "A5"); ("9", "B5")])
    by (vm_compute; reflexivity).
  split; [exact H|]. split; [vm_compute; reflexivity|].
  apply (X17_index_entry_is_the_merged_addresses frame_5x3 _ "Extra" "C2:C5" H).
  reflexivity.
Defined.

Lemma strip_head (space : ascii -> bool) (b : ascii) (s : string) :
  space b = false -> exists s', Py.strip_with space (String b s) = String b s'.
Proof.
  intros Hb. unfold Py.strip_with. cbn [Py.lstrip_with]. rewrite Hb.
  cbn [Py.rstrip_with]. destruct (Py.rstrip_with space s); [rewrite Hb|]; eauto.
Qed.

Lemma malformed_second_char (a b : ascii) (s : string) :
  Py.isdigit b = false -> Py.isspace_int b = false ->
  b <> "+"%char -> b <> "-"%char ->
  malformed (String a (String b s)) = true.
Proof.
  intros Hdigit Hspace Hplus Hminus. unfold malformed, Py.int.
  destruct (strip_head Py.isspace_int b s Hspace) as (s' & ->).
  assert (Hbody : (let '(negative, body) :=
                     match String b s' with
                     | String "-" r => (true, r)
                     | String "+" r => (false, r)
                     | _ => (false, String b s')
                     end in (negative, body)) = (false, String b s')).
  { clear -Hplus Hminus.
    destruct b as [[] [] [] [] [] [] [] []]; try reflexivity; congruence. }
  destruct (match String b s' with
            | String "-" r => (true, r)
            | String "+" r => (false, r)
            | _ => (false, String b s')
            end) as [negative body].
  injection Hbody as -> ->.
  cbn [Py.literal_digits]. rewrite Hdigit.
  destruct (Ascii.eqb b "_"); reflexivity.
Qed.

(** X18: a frame with a cell that is present and not blank in a column whose
    label continues, after its first character, with a character that is
    neither a digit, a sign nor white space cannot be indexed:
    [invert_index_with_ranges] raises [ValueError]. *)
Theorem X18_word_label_raises_ValueError (df : DataFrame) (r c : Z) (v : string)
        (a b : ascii) (rest : string) :
  (0 <= r < shape0 df)%Z -> (0 <= c < shape1 df)%Z ->
  iat df r c = Some v -> nonempty_cell (Some v) = true ->
  column_label df c = String a (String b rest) ->
  Py.isdigit b = false -> Py.isspace_int b = false ->
  b <> "+"%char -> b <> "-"%char ->
  invert_index_with_ranges df = Raise ValueError.
Proof.
  intros Hr Hc Hv Hnb Hlabel Hdigit Hspace Hplus Hminus.
  pose proof (invert_index_cases df) as H.
  rewrite (proj2 (existsb_exists _ _)) in H; [exact H|].
  exists (r, c). split.
  - apply list_elem_of_In, elem_of_indexed_cells.
    split; [apply elem_of_cells; auto | eauto].
  - cbn [fst snd]. unfold create_cell_address. rewrite Hlabel, !append_cons.
    apply malformed_second_char; assumption.
Qed.

Lemma X18_word_label_raises_ValueError_witness :
  column_label frame_named 1 = "Value" /\
  iat frame_named 0 1 = Some "2024-01-15" /\
  invert_index_with_ranges frame_named = Raise ValueError.
Proof.
  split; [reflexivity|]. split; [reflexivity|].
  apply (X18_word_label_raises_ValueError frame_named 0 1 "2024-01-15"
           "V"%char "a"%char "lue");
    try reflexivity; try discriminate; shape_lia.
Defined.

(** * Further properties of data_format_aggregation_demo.py *)

(** ** The groups of a frame *)

Lemma group_fold (df : DataFrame) (key : string) (cells : list (Z * Z)) :
  forall groups : dict (list group_entry),
    dict_get key
      (fold_left
         (fun rule_groups '(i, j) =>
            let '(key, entry) :=
              classify_cell (create_cell_address i j df) (iat df i j) in
            dict_append key entry rule_groups)
         cells groups) =
    match filter (fun rc => cell_key df rc = key) cells with
    | [] => dict_get key groups
    | l => Some (default [] (dict_get key groups) ++ map (cell_entry df) l)%list
    end.
Proof.
  induction cells as [|[r c] cells IH]; intros groups; [reflexivity|].
  cbn [fold_left]. rewrite IH, filter_cons.
  assert (Hstep : classify_cell (create_cell_address r c df) (iat df r c) =
                  (cell_key df (r, c), cell_entry df (r, c))).
  { unfold cell_key, cell_entry. cbn [fst snd].
    destruct (classify_cell _ _); reflexivity. }
  rewrite Hstep. cbv beta iota zeta. rewrite dict_get_append.
  destruct (decide (cell_key df (r, c) = key)) as [Hk|Hne].
  - rewrite Hk, String.eqb_refl.
    destruct (filter _ cells) as [|rc l]; cbn [map from_option id];
      [reflexivity | rewrite <- app_assoc; reflexivity].
  - destruct (String.eqb_spec key (cell_key df (r, c))) as [Heq|_];
      [congruence | reflexivity].
Qed.

Lemma aggregate_get (df : DataFrame) (key : string) :
  dict_get key (aggregate_by_data_format df) =
  match filter (fun rc => cell_key df rc = key) (cells_of df) with
  | [] => None
  | l => Some (map (cell_entry df) l)
  end.
Proof. unfold aggregate_by_data_format. rewrite group_fold. reflexivity. Qed.

(** X19: [aggregate_by_data_format] is a grouping of the grid: the group of
    a key holds the entries of exactly the cells that are filed under the
    key, once each and in the order of the row-by-row scan, and a key under
    which no cell is filed has no group. *)
Theorem X19_group_holds_its_cells_in_scan_order (df : DataFrame) (key : string) :
  dict_get key (aggregate_by_data_format df) =
  match filter (fun rc => cell_key df rc = key) (cells_of df) with
  | [] => None
  | l => Some (map (cell_entry df) l)
  end.
Proof. apply aggregate_get. Qed.

Lemma total_entries_append {A} (k : string) (x : A) (d : dict (list A)) :
  total_entries (dict_append k x d) = S (total_entries d).
Proof.
  unfold total_entries, dict_append.
  induction d as [|[k1 v1] d IH]; [reflexivity|].
  cbn [dict_get dict_set]. destruct (String.eqb k k1).
  - cbn [map sum_list sum_list_with snd from_option id]. rewrite length_app. simpl. lia.
  - cbn [map sum_list sum_list_with snd] in *. rewrite IH. lia.
Qed.

Lemma dict_append_NoDup {A} (k : string) (x : A) (d : dict (list A)) :
  NoDup (map fst d) -> NoDup (map fst (dict_append k x d)).
Proof. apply dict_set_NoDup. Qed.

Lemma group_fold_total (df : DataFrame) (cells : list (Z * Z)) :
  forall groups : dict (list group_entry),
    let result :=
      fold_left
        (fun rule_groups '(i, j) =>
           let '(key, entry) :=
             classify_cell (create_cell_address i j df) (iat df i j) in
           dict_append key entry rule_groups)
        cells groups in
    total_entries result = (total_entries groups + length cells)%nat /\
    (NoDup (map fst groups) -> NoDup (map fst result)).
Proof.
  induction cells as [|[r c] cells IH]; intros groups.
  - simpl. split; [lia | auto].
  - cbn [fold_left]. cbn zeta in *.
    destruct (classify_cell (create_cell_address r c df) (iat df r c)) as [k e].
    destruct (IH (dict_append k e groups)) as [Htotal Hnodup].
    rewrite total_entries_append in Htotal. split.
    + rewrite Htotal. simpl. lia.
    + intros Hd. apply Hnodup, dict_append_NoDup, Hd.
Qed.

Lemma bind_length {A B} (f : A -> list B) (m : nat) (l : list A) :
  (forall x, length (f x) = m) -> length (l ≫= f) = (length l * m)%nat.
Proof.
  intros Hf. induction l as [|x l IH]; [reflexivity|].
  cbn [mbind list_bind]. rewrite length_app, Hf. simpl length. fold (l ≫= f).
  rewrite IH. lia.
Qed.

Lemma cells_length (df : DataFrame) :
  Z.of_nat (length (cells_of df)) = (shape0 df * shape1 df)%Z.
Proof.
  unfold cells_of, product_range.
  rewrite (bind_length _ (Z.to_nat (shape1 df))).
  - rewrite range_length. destruct (shape_nonneg df). lia.
  - intros r. rewrite (bind_length _ 1%nat); [|reflexivity].
    rewrite range_length. lia.
Qed.

(** X20: [aggregate_by_data_format] loses and repeats no cell: the groups
    have pairwise distinct keys and hold together as many entries as the
    frame has cells, rows times columns. *)
Theorem X20_groups_hold_one_entry_per_cell (df : DataFrame) :
  NoDup (map fst (aggregate_by_data_format df)) /\
  Z.of_nat (total_entries (aggregate_by_data_format df)) = (shape0 df * shape1 df)%Z.
Proof.
  destruct (group_fold_total df (cells_of df) []) as [Htotal Hnodup].
  split; [apply Hnodup; constructor|].
  unfold aggregate_by_data_format. fold (cells_of df).
  rewrite Htotal, <- cells_length. reflexivity.
Qed.

(** ** Keys and types *)

Lemma recognize_cases (v : cell) :
  recognize_data_type v ∈ well_defined_formats \/
  (recognize_data_type v = "Others" /\ exists text, v = Some text).
Proof.
  assert (Hin : forall name : string,
             bool_decide (name ∈ well_defined_formats) = true ->
             name ∈ well_defined_formats)
    by (intros name; apply bool_decide_eq_true_1).
  destruct v as [s|]; [|left; apply Hin; reflexivity].
  unfold recognize_data_type.
  repeat match goal with
         | |- context [if ?b then _ else _] =>
             destruct b; [left; apply Hin; reflexivity|]
         end.
  right. split; [reflexivity | eauto].
Qed.

Lemma quoted_not_format (text : string) :
  bool_decide (quote ++ text ++ quote ∈ well_defined_formats) = false.
Proof.
  apply bool_decide_eq_false_2. unfold quote, well_defined_formats.
  rewrite append_cons. rewrite !elem_of_cons, elem_of_nil.
  intros H. repeat destruct H as [H|H]; try discriminate H. exact H.
Qed.

Lemma classify_cell_cases (addr : string) (v : cell) :
  address (classify_cell addr v).2 = addr /\
  value (classify_cell addr v).2 = v /\
  if bool_decide ((classify_cell addr v).1 ∈ well_defined_formats)
  then type (classify_cell addr v).2 = (classify_cell addr v).1 /\
       recognize_data_type v = (classify_cell addr v).1
  else type (classify_cell addr v).2 = "Text" /\
       recognize_data_type v = "Others" /\
       exists text, v = Some text /\
                    (classify_cell addr v).1 = quote ++ text ++ quote.
Proof.
  unfold classify_cell.
  destruct (bool_decide (recognize_data_type v ∈ well_defined_formats)) eqn:Hfmt;
    cbn [fst snd address value type].
  - rewrite Hfmt. repeat split; reflexivity.
  - destruct (recognize_cases v) as [Hin|(Hothers & text & ->)].
    + apply bool_decide_eq_false in Hfmt. contradiction.
    + cbn [from_option id]. rewrite quoted_not_format.
      split; [reflexivity|]. split; [reflexivity|]. split; [reflexivity|].
      split; [exact Hothers|]. exists text. split; reflexivity.
Qed.

(** X21: every entry of a group describes a cell of the grid, with the
    address and the value of the cell; in the group of one of the ten format
    names every entry has that name as its type, which is what the
    recognizer answers for its value; every other group has the quoted text
    of its entries as key, and its entries have the type [Text] and values
    for which the recognizer answers [Others]. *)
Theorem X21_entries_agree_with_their_group (df : DataFrame) (key : string)
        (entries : list group_entry) (e : group_entry) :
  dict_get key (aggregate_by_data_format df) = Some entries -> e ∈ entries ->
  exists r c,
    (0 <= r < shape0 df)%Z /\ (0 <= c < shape1 df)%Z /\
    address e = create_cell_address r c df /\ value e = iat df r c /\
    if bool_decide (key ∈ well_defined_formats)
    then type e = key /\ recognize_data_type (value e) = key
    else type e = "Text" /\ recognize_data_type (value e) = "Others" /\
         exists text, value e = Some text /\ key = quote ++ text ++ quote.
Proof.
  intros Hget He. rewrite aggregate_get in Hget.
  assert (Hin : exists rc, rc ∈ cells_of df /\ cell_key df rc = key /\
                           e = cell_entry df rc).
  { destruct (filter _ (cells_of df)) as [|rc0 l] eqn:Hf; [discriminate Hget|].
    injection Hget as <-.
    change (e ∈ map (cell_entry df) (rc0 :: l)) in He.
    apply list_elem_of_fmap in He as (rc & -> & Hrc).
    rewrite <- Hf in Hrc. apply list_elem_of_filter in Hrc as [Hk Hrc]. eauto. }
  destruct Hin as ([r c] & Hrc & Hkey & ->).
  apply elem_of_cells in Hrc as [Hr Hc]. cbn [fst snd] in Hr, Hc.
  exists r, c. split; [exact Hr|]. split; [exact Hc|].
  unfold cell_key, cell_entry in *. cbn [fst snd] in *.
  destruct (classify_cell_cases (create_cell_address r c df) (iat df r c))
    as (Haddr & Hval & Hcases).
  split; [exact Haddr|]. split; [exact Hval|].
  rewrite Hkey in Hcases. rewrite Hval. exact Hcases.
Qed.

Lemma X21_entries_agree_with_their_group_witness :
  dict_get "Date" (aggregate_by_data_format frame_named) =
    Some [{| address := "Value1"; value := Some "2024-01-15"; type := "Date" |}] /\
  recognize_data_type (Some "2024-01-15") = "Date".
Proof.
  assert (H : dict_get "Date" (aggregate_by_data_format frame_named) =
              Some [{| address := "Value1"; value := Some "2024-01-15"; type := "Date" |}])
    by (vm_compute; reflexivity).
  split; [exact H|].
  destruct (X21_entries_agree_with_their_group frame_named "Date" _ _ H
              (list_elem_of_here _ _)) as (r & c & _ & _ & _ & _ & Hcases).
  exact (proj2 Hcases).
Defined.

(** ** Empty cells *)

Lemma recognize_empty (v : cell) :
  recognize_data_type v = "Empty" <-> nonempty_cell v = false.
Proof.
  destruct v as [s|]; [|split; reflexivity].
  unfold recognize_data_type, nonempty_cell.
  destruct (String.eqb (Py.strip s) ""); [split; reflexivity|].
  split; [|discriminate].
  repeat match goal with
         | |- context [if ?b then _ else _] => destruct b; [discriminate|]
         end.
  discriminate.
Qed.

Lemma cell_key_empty (df : DataFrame) (rc : Z * Z) :
  cell_key df rc = "Empty" <-> nonempty_cell (iat df rc.1 rc.2) = false.
Proof.
  rewrite <- recognize_empty. unfold cell_key.
  destruct (classify_cell_cases (create_cell_address rc.1 rc.2 df) (iat df rc.1 rc.2))
    as (_ & _ & Hcases).
  destruct (bool_decide _) eqn:Hfmt.
  - destruct Hcases as [_ ->]. reflexivity.
  - destruct Hcases as (_ & Hothers & text & _ & Hkey).
    rewrite Hothers. split; [|discriminate].
    intros Hempty. rewrite Hempty in Hfmt. discriminate Hfmt.
Qed.

(** X22: the two modules agree on what an empty cell is: the group [Empty]
    of [aggregate_by_data_format] lists, in the order of the scan, the
    addresses of exactly the cells that the first loop of
    [invert_index_with_ranges] skips, the missing and the blank ones. *)
Theorem X22_empty_group_is_what_the_index_skips (df : DataFrame) :
  map address (default [] (dict_get "Empty" (aggregate_by_data_format df))) =
  map (fun rc => create_cell_address rc.1 rc.2 df)
      (filter (fun rc => nonempty_cell (iat df rc.1 rc.2) = false) (cells_of df)).
Proof.
  rewrite aggregate_get.
  assert (Hfilter : filter (fun rc => cell_key df rc = "Empty") (cells_of df) =
                    filter (fun rc => nonempty_cell (iat df rc.1 rc.2) = false)
                           (cells_of df)).
  { apply list_filter_iff. intros rc. apply cell_key_empty. }
  rewrite Hfilter. clear Hfilter.
  assert (Hmap : forall l : list (Z * Z),
             map address (map (cell_entry df) l) =
             map (fun rc => create_cell_address rc.1 rc.2 df) l).
  { intros l. rewrite map_map. apply map_ext. intros rc. unfold cell_entry.
    apply classify_cell_cases. }
  destruct (filter _ (cells_of df)) as [|rc l]; [reflexivity|].
  cbn [from_option id]. apply Hmap.
Qed.

(** ** Strings of digits *)

Lemma all_ascii_complete (c : ascii) : In c all_ascii.
Proof.
  unfold all_ascii. rewrite <- (ascii_nat_embedding c).
  apply in_map, in_seq. pose proof (nat_ascii_bounded c). lia.
Qed.

Lemma str_forall_app (P : ascii -> bool) (s t : string) :
  str_forall P (s ++ t) = str_forall P s && str_forall P t.
Proof.
  induction s as [|c s IH]; [reflexivity|].
  rewrite append_cons. cbn [str_forall]. rewrite IH, andb_assoc. reflexivity.
Qed.

Lemma requires_sound (q P : ascii -> bool) (r : regex) (s : string) :
  (forall c, q c = true -> P c = false) ->
  lang r s -> requires q r = true -> str_forall P s = false.
Proof.
  intros HqP. induction 1 as [|p c Hp|r1 r2 s1 s2 _ IH1 _ IH2|r1 r2 s _ IH|r1 r2 s _ IH| |];
    cbn [requires]; intros Hreq; try discriminate Hreq.
  - rewrite forallb_forall in Hreq. specialize (Hreq c (all_ascii_complete c)).
    rewrite Hp in Hreq. cbn [implb] in Hreq.
    cbn [str_forall]. rewrite (HqP c Hreq). reflexivity.
  - rewrite str_forall_app. apply orb_true_iff in Hreq as [Hreq|Hreq].
    + rewrite (IH1 Hreq). reflexivity.
    + rewrite (IH2 Hreq). apply andb_false_r.
  - apply andb_true_iff in Hreq as [Hreq _]. exact (IH Hreq).
  - apply andb_true_iff in Hreq as [_ Hreq]. exact (IH Hreq).
Qed.

(** A pattern that requires a character that is no digit matches no string
    of digits. *)
Lemma matches_digits_false (r : regex) (s : string) :
  requires (fun c => negb (Py.isdigit c)) r = true ->
  str_forall Py.isdigit s = true -> matches r s = false.
Proof.
  intros Hreq Hs. unfold matches.
  destruct (accepts (Cat r (opt (chr "010"))) s) eqn:Hacc; [|reflexivity].
  apply accepts_lang in Hacc.
  rewrite (requires_sound (fun c => negb (Py.isdigit c)) Py.isdigit
             (Cat r (opt (chr "010"))) s) in Hs.
  - discriminate Hs.
  - intros c Hc. apply negb_true_iff, Hc.
  - exact Hacc.
  - cbn [requires]. rewrite Hreq. reflexivity.
Qed.

Lemma lang_cons (p : ascii -> bool) (r : regex) (c : ascii) (s : string) :
  p c = true -> lang r s -> lang (Cat (Chr p) r) (String c s).
Proof.
  intros Hp Hs. apply (lang_cat (Chr p) r (String c EmptyString) s); [|exact Hs].
  constructor. exact Hp.
Qed.

Lemma lang_star_digits (s : string) :
  str_forall Py.isdigit s = true -> lang (Star digit) s.
Proof.
  induction s as [|c s IH]; cbn [str_forall]; intros Hs; [constructor|].
  apply andb_true_iff in Hs as [Hc Hs].
  apply (lang_star_cons digit (String c EmptyString) s); [|exact (IH Hs)].
  constructor. exact Hc.
Qed.

Lemma matches_integer_digits (s : string) :
  s <> EmptyString -> str_forall Py.isdigit s = true ->
  matches integer_pattern s = true.
Proof.
  intros Hne Hs. unfold matches. apply accepts_lang.
  destruct s as [|c s]; [congruence|]. cbn [str_forall] in Hs.
  apply andb_true_iff in Hs as [Hc Hs].
  replace (String c s) with (("" ++ (String c s ++ "")) ++ "")
    by (cbn [append]; rewrite !append_nil_r; reflexivity).
  apply lang_cat; [|apply lang_alt_l; constructor].
  unfold integer_pattern, cat. cbn [foldr].
  apply lang_cat; [apply lang_alt_l; constructor|].
  apply lang_cat; [|constructor].
  apply lang_cons; [exact Hc | apply lang_star_digits, Hs].
Qed.

Lemma isdigit_not_isspace (c : ascii) : Py.isdigit c = true -> Py.isspace c = false.
Proof.
  destruct c as [[] [] [] [] [] [] [] []]; intros H; try discriminate H; reflexivity.
Qed.

Lemma matches_year_digits (s : string) :
  str_forall Py.isdigit s = true -> matches year_pattern s = year_shaped s.
Proof.
  intros Hs. apply Bool.eq_iff_eq_true. split.
  - unfold matches. intros Hacc. apply accepts_lang in Hacc.
    inversion Hacc as [| |r1 r2 s1 s2 Hyear Hnl Hr Heq| | | |]; subst.
    assert (Hs2 : s2 = EmptyString).
    { rewrite str_forall_app in Hs. apply andb_true_iff in Hs as [_ Hs2].
      inversion Hnl as [| | |r1 r2 s0 Heps|r1 r2 s0 Hchr| |]; subst.
      - inversion Heps. reflexivity.
      - inversion Hchr as [|p c Hp| | | | |]; subst.
        apply Ascii.eqb_eq in Hp. subst c. discriminate Hs2. }
    subst s2. rewrite append_nil_r. clear Hs Hnl Hacc.
    unfold year_pattern, cat in Hyear. cbn [foldr rep] in Hyear. unfold chr in Hyear.
    repeat match goal with
           | H : lang (Cat _ _) _ |- _ => inversion H; subst; clear H
           | H : lang (Alt _ _) _ |- _ => inversion H; subst; clear H
           | H : lang Eps _ |- _ => inversion H; subst; clear H
           | H : lang (Chr _) _ |- _ => inversion H; subst; clear H
           | H : Ascii.eqb _ _ = true |- _ => apply Ascii.eqb_eq in H; subst
           | H : lang digit _ |- _ => inversion H; subst; clear H
           end; reflexivity.
  - intros Hshape. unfold matches. apply accepts_lang.
    destruct s as [|a [|b [|c [|d [|e s]]]]]; try discriminate Hshape.
    cbn [str_forall] in Hs.
    apply andb_true_iff in Hs as [_ Hs]. apply andb_true_iff in Hs as [_ Hs].
    apply andb_true_iff in Hs as [Hc Hs]. apply andb_true_iff in Hs as [Hd _].
    apply (lang_cat year_pattern _
             (String a (String b (String c (String d EmptyString)))) EmptyString);
      [|apply lang_alt_l; constructor].
    unfold year_pattern, cat. cbn [foldr rep].
    apply (lang_cat _ _ (String a (String b EmptyString))
             (String c (String d EmptyString))).
    + cbn [year_shaped] in Hshape.
      apply orb_true_iff in Hshape as [Hab|Hab];
        apply andb_true_iff in Hab as [Ha Hb]; apply Ascii.eqb_eq in Ha; subst a.
      * apply Ascii.eqb_eq in Hb. subst b. apply lang_alt_l.
        apply lang_cons; [reflexivity|]. apply lang_cons; [reflexivity|]. constructor.
      * apply lang_alt_r. apply orb_true_iff in Hb as [Hb|Hb];
          apply Ascii.eqb_eq in Hb; subst b; [apply lang_alt_l | apply lang_alt_r];
          (apply lang_cons; [reflexivity|]; apply lang_cons; [reflexivity|]; constructor).
    + apply (lang_cat _ Eps (String c (String d EmptyString)) EmptyString); [|constructor].
      apply lang_cons; [exact Hc|]. apply lang_cons; [exact Hd|]. constructor.
Qed.

Lemma recognize_digits (s : string) :
  s <> EmptyString -> str_forall Py.isdigit s = true ->
  recognize_data_type (Some s) = if year_shaped s then "Year" else "Integer".
Proof.
  intros Hne Hs. unfold recognize_data_type.
  assert (Hstrip : Py.strip s = s).
  { apply strip_nospace. revert Hs. apply str_forall_impl. intros c Hc.
    rewrite (isdigit_not_isspace c Hc). reflexivity. }
  rewrite Hstrip. cbv zeta.
  destruct (String.eqb_spec s "") as [|_]; [congruence|].
  rewrite (matches_year_digits s Hs).
  destruct (year_shaped s); [reflexivity|].
  unfold date_patterns. cbn [existsb].
  rewrite !(matches_digits_false _ s) by (vm_compute; reflexivity || exact Hs).
  cbn [orb]. rewrite (matches_integer_digits s Hne Hs). reflexivity.
Qed.

(** X23: of all the rules of the recognizer only the first and the last can
    apply to a string of digits: a non-empty string of decimal digits is a
    [Year] when it has four digits of which the first two are 19, 20 or 21,
    and an [Integer] otherwise. *)
Theorem X23_digit_strings_are_years_or_integers (s : string) :
  s <> EmptyString -> str_forall Py.isdigit s = true ->
  recognize_data_type (Some s) = (if year_shaped s then "Year" else "Integer") /\
  classify (Some s) = (if year_shaped s then "Year" else "Integer").
Proof.
  intros Hne Hs. pose proof (recognize_digits s Hne Hs) as Hrec.
  split; [exact Hrec|]. rewrite classify_recognized, Hrec.
  destruct (year_shaped s); reflexivity.
Qed.

Lemma X23_digit_strings_are_years_or_integers_witness :
  (classify (Some "2024") = "Year" /\ classify (Some "20245") = "Integer") /\
  classify (Some "1850") = "Integer".
Proof.
  split; [split|].
  - apply (X23_digit_strings_are_years_or_integers "2024"); [discriminate | reflexivity].
  - apply (X23_digit_strings_are_years_or_integers "20245"); [discriminate | reflexivity].
  - apply (X23_digit_strings_are_years_or_integers "1850"); [discriminate | reflexivity].
Defined.

(** ** The number of groups *)

Lemma aggregate_key_cell (df : DataFrame) (key : string) :
  key ∈ map fst (aggregate_by_data_format df) ->
  exists rc, rc ∈ cells_of df /\ cell_key df rc = key.
Proof.
  intros Hkey. apply dict_key_get in Hkey as (entries & Hget).
  rewrite aggregate_get in Hget.
  destruct (filter _ (cells_of df)) as [|rc l] eqn:Hf; [discriminate Hget|].
  assert (Hrc : rc ∈ filter (fun rc => cell_key df rc = key) (cells_of df))
    by (rewrite Hf; apply list_elem_of_here).
  apply list_elem_of_filter in Hrc as [Hk Hrc]. eauto.
Qed.

(** X24: grouping never yields more groups than there are cells to describe:
    the groups other than [Empty] are at most as many as the cells that are
    present and not blank. *)
Theorem X24_groups_not_more_than_filled_cells (df : DataFrame) :
  (length (filter (fun kv => kv.1 <> "Empty") (aggregate_by_data_format df))
   <= length (indexed_cells df))%nat.
Proof.
  destruct (group_fold_total df (cells_of df) []) as [_ Hnodup].
  specialize (Hnodup (NoDup_nil_2 : NoDup (map fst ([] : dict (list group_entry))))).
  fold (aggregate_by_data_format df) in Hnodup.
  set (groups := filter (fun kv => kv.1 <> "Empty") (aggregate_by_data_format df)).
  assert (Hsub : map fst groups ⊆+ map (cell_key df) (indexed_cells df)).
  { apply NoDup_submseteq.
    - apply (sublist_NoDup _ (map fst (aggregate_by_data_format df)));
        [exact Hnodup | apply fmap_sublist, sublist_filter].
    - intros key Hkey. apply list_elem_of_fmap in Hkey as ([k entries] & -> & Hin).
      apply list_elem_of_filter in Hin as [Hne Hin]. cbn [fst] in *.
      destruct (aggregate_key_cell df k) as (rc & Hrc & Hk).
      { apply (list_elem_of_fmap_2 fst _ (k, entries)), Hin. }
      apply list_elem_of_fmap. exists rc. split; [symmetry; exact Hk|].
      unfold indexed_cells. apply list_elem_of_filter. split; [|exact Hrc].
      destruct (nonempty_cell (iat df rc.1 rc.2)) eqn:Hnb; [reflexivity|].
      apply cell_key_empty in Hnb. congruence. }
  apply submseteq_length in Hsub. rewrite !length_map in Hsub. exact Hsub.
Qed.
